(** * snake.c: a shallow embedding of the game rules and their properties

    The development follows [snake.c] function by function.  C [int]s are
    integers of [Z] whose arithmetic is wrapped to 32 bits ([int_wrap]);
    [long long]s are wrapped to 64 bits.  The snake's body is the block
    returned by [malloc]: a list of [Point]s whose slots hold whatever the
    heap held until the program writes them.  An access outside the block
    has no defined behaviour in C; the model gives [None] for it, so every
    function that touches the body returns an [option]; so does a division
    by zero.  [rand()] is a sequence of values fixed by the seed, read
    through a call counter; the clock and the keyboard are inputs of each
    iteration of the main loop. *)

From Stdlib Require Import ZArith Lia Bool List Ascii String.
From stdpp Require Import base option list list_numbers relations.

Local Open Scope Z_scope.

(** ** C integers *)

Definition INT_MIN : Z := -2147483648.
Definition INT_MAX : Z := 2147483647.
Definition LLONG_MIN : Z := -9223372036854775808.
Definition LLONG_MAX : Z := 9223372036854775807.

Definition int_range (z : Z) : Prop := INT_MIN <= z <= INT_MAX.
Definition llong_range (z : Z) : Prop := LLONG_MIN <= z <= LLONG_MAX.

(** Two's complement wrap-around of a mathematical result to [int]. *)
Definition int_wrap (z : Z) : Z := (z + 2147483648) mod 4294967296 - 2147483648.
Definition llong_wrap (z : Z) : Z :=
  (z + 9223372036854775808) mod 18446744073709551616 - 9223372036854775808.

Definition int_add (a b : Z) : Z := int_wrap (a + b).
Definition int_sub (a b : Z) : Z := int_wrap (a - b).
Definition int_mul (a b : Z) : Z := int_wrap (a * b).
(** [/] and [%] of C truncate toward zero; with a zero divisor they have
    no defined behaviour.  [int_quot] is [/] by a literal that is not zero. *)
Definition int_quot (a b : Z) : Z := int_wrap (Z.quot a b).
Definition int_div (a b : Z) : option Z :=
  if b =? 0 then None else Some (int_quot a b).
Definition int_mod (a b : Z) : option Z :=
  if b =? 0 then None else Some (int_wrap (Z.rem a b)).
Definition llong_sub (a b : Z) : Z := llong_wrap (a - b).

(** ** Constants of the program *)

Definition MICROSECONDS_PER_SECOND : Z := 1000000.
Definition LOOP_SLEEP_US : Z := 1000.
Definition TERMINAL_WIDTH_MARGIN : Z := 4.
Definition TERMINAL_HEIGHT_MARGIN : Z := 6.
Definition POINTS_PER_FOOD : Z := 10.
Definition FOOD_PLACEMENT_MAX_ATTEMPTS_MULTIPLIER : Z := 2.

(** ** Data model *)

Inductive GameMode : Type := MODE_REGULAR | MODE_GREEDY.

(** [enum Direction]; the field [direction] only ever holds one of its
    four values. *)
Inductive Direction : Type := UP | DOWN | LEFT | RIGHT.

Record Config : Type := mkConfig {
  board_width : Z;
  board_height : Z;
  render_fps : Z;
  move_fps : Z;
  render_interval : Z;
  move_interval : Z;
  wraparound_mode : bool;
  emoji_mode : bool;
  game_mode : GameMode
}.

(** The initial value of the global [config]. *)
Definition config : Config :=
  {| board_width := 40; board_height := 20; render_fps := 30; move_fps := 6;
     render_interval := 33333; move_interval := 166667;
     wraparound_mode := false; emoji_mode := false; game_mode := MODE_REGULAR |}.

Record Point : Type := mkPoint { x : Z; y : Z }.

Record Snake : Type := mkSnake {
  body : list Point;
  length : Z;
  max_length : Z;
  direction : Direction
}.

Record Game : Type := mkGame {
  food : Point;
  snake : Snake;
  score : Z;
  game_over : bool;
  paused : bool
}.

#[global] Instance Point_eq_dec : EqDecision Point.
Proof. solve_decision. Defined.

#[global] Instance Direction_eq_dec : EqDecision Direction.
Proof. solve_decision. Defined.

(** [a.x == b.x && a.y == b.y] *)
Definition same_cell (a b : Point) : bool := (x a =? x b) && (y a =? y b).

(** Field assignments. *)
Definition set_body (s : Snake) (b : list Point) : Snake :=
  {| body := b; length := length s; max_length := max_length s; direction := direction s |}.
Definition set_length (s : Snake) (n : Z) : Snake :=
  {| body := body s; length := n; max_length := max_length s; direction := direction s |}.
Definition set_direction (s : Snake) (d : Direction) : Snake :=
  {| body := body s; length := length s; max_length := max_length s; direction := d |}.

Definition set_snake (g : Game) (s : Snake) : Game :=
  {| food := food g; snake := s; score := score g; game_over := game_over g; paused := paused g |}.
Definition set_food (g : Game) (p : Point) : Game :=
  {| food := p; snake := snake g; score := score g; game_over := game_over g; paused := paused g |}.
Definition set_score (g : Game) (n : Z) : Game :=
  {| food := food g; snake := snake g; score := n; game_over := game_over g; paused := paused g |}.
Definition set_game_over (g : Game) (b : bool) : Game :=
  {| food := food g; snake := snake g; score := score g; game_over := b; paused := paused g |}.
Definition set_paused (g : Game) (b : bool) : Game :=
  {| food := food g; snake := snake g; score := score g; game_over := game_over g; paused := b |}.

(** ** The body block *)

(** [body[i]] as an rvalue: defined only inside the block. *)
Definition body_read (b : list Point) (i : nat) : option Point := b !! i.

(** [body[i] = p]: defined only inside the block. *)
Definition body_write (b : list Point) (i : nat) (p : Point) : option (list Point) :=
  if decide (i < List.length b)%nat then Some (<[i := p]> b) else None.

(** The occupied part of the block, [body[0] .. body[length-1]]. *)
Definition segments (s : Snake) : list Point := take (Z.to_nat (length s)) (body s).

(** ** rand() *)

Record Rand : Type := mkRand {
  rand_seq : nat -> Z;     (* the values the seeded generator will return *)
  rand_calls : nat         (* how many of them were consumed *)
}.

Definition rand (r : Rand) : Z * Rand :=
  (rand_seq r (rand_calls r), {| rand_seq := rand_seq r; rand_calls := S (rand_calls r) |}).

(** ** calculate_intervals *)

Definition calculate_intervals (cfg : Config) : option Config :=
  ri ← int_div MICROSECONDS_PER_SECOND (render_fps cfg);
  mi ← int_div MICROSECONDS_PER_SECOND (move_fps cfg);
  Some {| board_width := board_width cfg; board_height := board_height cfg;
          render_fps := render_fps cfg; move_fps := move_fps cfg;
          render_interval := ri; move_interval := mi;
          wraparound_mode := wraparound_mode cfg; emoji_mode := emoji_mode cfg;
          game_mode := game_mode cfg |}.

(** ** get_terminal_size and init_game *)

(** What the process finds around it when the game starts. *)
Record Env : Type := mkEnv {
  override_width : Z;                 (* the global set by [-w], 0 when absent *)
  override_height : Z;                (* the global set by [-h], 0 when absent *)
  winsize : option (Z * Z);           (* [ioctl(TIOCGWINSZ)]: (ws_col, ws_row), or failure *)
  heap_junk : nat -> Point;           (* contents of the block [malloc] returns *)
  seeded : nat -> Z                   (* the sequence [srand(time(NULL))] selects *)
}.

Definition set_board (cfg : Config) (w h : Z) : Config :=
  {| board_width := w; board_height := h;
     render_fps := render_fps cfg; move_fps := move_fps cfg;
     render_interval := render_interval cfg; move_interval := move_interval cfg;
     wraparound_mode := wraparound_mode cfg; emoji_mode := emoji_mode cfg;
     game_mode := game_mode cfg |}.

Definition get_terminal_size (env : Env) (cfg : Config) : Config :=
  match winsize env with
  | Some (ws_col, ws_row) =>
      let w :=
        if override_width env =? 0 then
          let w0 := int_sub ws_col TERMINAL_WIDTH_MARGIN in
          if emoji_mode cfg then int_quot w0 2 else w0
        else override_width env in
      let h :=
        if override_height env =? 0 then int_sub ws_row TERMINAL_HEIGHT_MARGIN
        else override_height env in
      set_board cfg w h
  | None =>
      let w := if 0 <? override_width env then override_width env else board_width cfg in
      let h := if 0 <? override_height env then override_height env else board_height cfg in
      set_board cfg w h
  end.

(** [malloc(n * sizeof(Point))]: a block of [n] slots with the heap's
    contents; no block for a negative [n] (the size converts to a huge
    [size_t] and the allocation fails). *)
Definition malloc (junk : nat -> Point) (n : Z) : option (list Point) :=
  if n <? 0 then None else Some (junk <$> seq 0 (Z.to_nat n)).

Definition init_game (env : Env) (cfg : Config) : option (Config * Game * Rand) :=
  let cfg := get_terminal_size env cfg in
  let max_possible_length := int_mul (board_width cfg) (board_height cfg) in
  b ← malloc (heap_junk env) max_possible_length;
  h0 ← body_read b 0;
  b ← body_write b 0 {| x := int_quot (board_width cfg) 2; y := y h0 |};
  h0 ← body_read b 0;
  b ← body_write b 0 {| x := x h0; y := int_quot (board_height cfg) 2 |};
  h0 ← body_read b 0;
  s1 ← body_read b 1;
  b ← body_write b 1 {| x := int_sub (x h0) 1; y := y s1 |};
  h0 ← body_read b 0;
  s1 ← body_read b 1;
  b ← body_write b 1 {| x := x s1; y := y h0 |};
  h0 ← body_read b 0;
  s2 ← body_read b 2;
  b ← body_write b 2 {| x := int_sub (x h0) 2; y := y s2 |};
  h0 ← body_read b 0;
  s2 ← body_read b 2;
  b ← body_write b 2 {| x := x s2; y := y h0 |};
  let s := {| body := b; length := 3; max_length := max_possible_length; direction := RIGHT |} in
  let rng := {| rand_seq := seeded env; rand_calls := 0 |} in
  let '(r1, rng) := rand rng in
  fx ← int_mod r1 (board_width cfg);
  let '(r2, rng) := rand rng in
  fy ← int_mod r2 (board_height cfg);
  Some (cfg, {| food := {| x := fx; y := fy |}; snake := s; score := 0;
                game_over := false; paused := false |}, rng).

(** ** draw_board *)

Inductive Glyph : Type := WALL | SNAKE_HEAD | SNAKE_BODY | FOOD | EMPTY.

(** The text printed for a glyph when emoji mode is off. *)
Definition glyph_text (g : Glyph) : string :=
  match g with
  | WALL => "#" | SNAKE_HEAD => "@" | SNAKE_BODY => "o" | FOOD => "*" | EMPTY => " "
  end.

(** [for (i = from; i < from + n; i++) if (body[i] is cell p) break;]
    gives the index at which the loop breaks, if it does. *)
Fixpoint find_segment (b : list Point) (from n : nat) (p : Point) : option (option nat) :=
  match n with
  | O => Some None
  | S n' =>
      q ← body_read b from;
      if same_cell q p then Some (Some from) else find_segment b (S from) n' p
  end.

(** One cell of the frame, [x] and [y] ranging over [-1 .. width] and
    [-1 .. height]. *)
Definition draw_cell (game : Game) (cfg : Config) (cx cy : Z) : option Glyph :=
  if (cx =? -1) || (cx =? board_width cfg) || (cy =? -1) || (cy =? board_height cfg)
  then Some WALL
  else
    hit ← find_segment (body (snake game)) 0 (Z.to_nat (length (snake game)))
                       {| x := cx; y := cy |};
    match hit with
    | Some i => Some (if (i =? 0)%nat then SNAKE_HEAD else SNAKE_BODY)
    | None =>
        if (x (food game) =? cx) && (y (food game) =? cy) then Some FOOD else Some EMPTY
    end.

Record Frame : Type := mkFrame {
  shown_score : Z;
  shown_paused : bool;
  rows : list (list Glyph)
}.

Definition draw_board (game : Game) (cfg : Config) : option Frame :=
  rs ← mapM (fun cy => mapM (fun cx => draw_cell game cfg cx cy)
                            (seqZ (-1) (board_width cfg + 2)))
            (seqZ (-1) (board_height cfg + 2));
  Some {| shown_score := score game; shown_paused := paused game; rows := rs |}.

(** ** generate_food *)

(** [for (i = from; i < from + n; i++) if (body[i] is cell p) { hit; break; }] *)
Fixpoint scan_body (b : list Point) (from n : nat) (p : Point) : option bool :=
  match n with
  | O => Some false
  | S n' =>
      q ← body_read b from;
      if same_cell q p then Some true else scan_body b (S from) n' p
  end.

(** The [while (!valid && attempts < bound)] loop, entered with [valid]
    false and [n] attempts left; gives the final [valid]. *)
Fixpoint place_food (n : nat) (cfg : Config) (game : Game) (rng : Rand)
  : option (bool * Game * Rand) :=
  match n with
  | O => Some (false, game, rng)
  | S n' =>
      let '(r1, rng) := rand rng in
      fx ← int_mod r1 (board_width cfg);
      let '(r2, rng) := rand rng in
      fy ← int_mod r2 (board_height cfg);
      let game := set_food game {| x := fx; y := fy |} in
      hit ← scan_body (body (snake game)) 0 (Z.to_nat (length (snake game))) (food game);
      if hit : bool then place_food n' cfg game rng else Some (true, game, rng)
  end.

Definition generate_food (game : Game) (cfg : Config) (rng : Rand) : option (Game * Rand) :=
  let total_cells := int_mul (board_width cfg) (board_height cfg) in
  if total_cells <=? length (snake game) then Some (set_game_over game true, rng)
  else
    let bound := int_mul total_cells FOOD_PLACEMENT_MAX_ATTEMPTS_MULTIPLIER in
    match place_food (Z.to_nat bound) cfg game rng with
    | Some (valid, game, rng) =>
        if valid : bool then Some (game, rng) else Some (set_game_over game true, rng)
    | None => None
    end.

(** ** move_snake *)

(** The [switch] on the direction. *)
Definition next_head (d : Direction) (p : Point) : Point :=
  match d with
  | UP => {| x := x p; y := int_sub (y p) 1 |}
  | DOWN => {| x := x p; y := int_add (y p) 1 |}
  | LEFT => {| x := int_sub (x p) 1; y := y p |}
  | RIGHT => {| x := int_add (x p) 1; y := y p |}
  end.

(** The wrap-around branch. *)
Definition wrap_head (cfg : Config) (p : Point) : Point :=
  let nx :=
    if x p <? 0 then int_sub (board_width cfg) 1
    else if board_width cfg <=? x p then 0 else x p in
  let ny :=
    if y p <? 0 then int_sub (board_height cfg) 1
    else if board_height cfg <=? y p then 0 else y p in
  {| x := nx; y := ny |}.

(** The wall test. *)
Definition off_board (cfg : Config) (p : Point) : bool :=
  (x p <? 0) || (board_width cfg <=? x p) || (y p <? 0) || (board_height cfg <=? y p).

(** [for (i = n; i > 0; i--) body[i] = body[i - 1];] *)
Fixpoint shift_regular (i : nat) (b : list Point) : option (list Point) :=
  match i with
  | O => Some b
  | S j =>
      p ← body_read b j;
      b ← body_write b (S j) p;
      shift_regular j b
  end.

(** [for (i = n - 1; i >= 0; i--) body[i + 1] = body[i];] *)
Fixpoint shift_greedy (n : nat) (b : list Point) : option (list Point) :=
  match n with
  | O => Some b
  | S i =>
      p ← body_read b i;
      b ← body_write b (i + 1)%nat p;
      shift_greedy i b
  end.

(** The part of move_snake that follows the wall policy: the
    self-collision test, then the growth rule of the game mode. *)
Definition advance (game : Game) (cfg : Config) (rng : Rand) (new_head : Point)
  : option (Game * Rand) :=
  let ate_food := same_cell new_head (food game) in
  hit ← scan_body (body (snake game)) 1 (Z.to_nat (length (snake game) - 1)) new_head;
  if hit : bool then Some (set_game_over game true, rng)
  else
    match game_mode cfg with
    | MODE_GREEDY =>
        if max_length (snake game) <=? length (snake game)
        then Some (set_game_over game true, rng)
        else
          (* i runs from length - 1 down to 0 *)
          b ← shift_greedy (Z.to_nat (int_sub (length (snake game)) 1 + 1)) (body (snake game));
          b ← body_write b 0 new_head;
          let s := set_length (set_body (snake game) b) (int_add (length (snake game)) 1) in
          let game := set_snake game s in
          if ate_food then
            generate_food (set_score game (int_add (score game) POINTS_PER_FOOD)) cfg rng
          else Some (game, rng)
    | MODE_REGULAR =>
        (* i runs from length - 1 down to 1 *)
        b ← shift_regular (Z.to_nat (int_sub (length (snake game)) 1)) (body (snake game));
        b ← body_write b 0 new_head;
        let game := set_snake game (set_body (snake game) b) in
        if ate_food then
          let s := set_length (snake game) (int_add (length (snake game)) 1) in
          generate_food (set_score (set_snake game s) (int_add (score game) POINTS_PER_FOOD))
                        cfg rng
        else Some (game, rng)
    end.

Definition move_snake (game : Game) (cfg : Config) (rng : Rand) : option (Game * Rand) :=
  hd ← body_read (body (snake game)) 0;
  let new_head := next_head (direction (snake game)) hd in
  if wraparound_mode cfg then advance game cfg rng (wrap_head cfg new_head)
  else if off_board cfg new_head then Some (set_game_over game true, rng)
  else advance game cfg rng new_head.

(** ** handle_input *)

Definition ESC : ascii := ascii_of_nat 27.

(** [if (direction != unless) direction = to;] *)
Definition turn (game : Game) (unless to : Direction) : Game :=
  if decide (direction (snake game) = unless) then game
  else set_snake game (set_direction (snake game) to).

(** The [switch] on the last byte of an arrow-key sequence. *)
Definition arrow_key (game : Game) (seq2 : ascii) : Game :=
  match seq2 with
  | "A"%char => turn game DOWN UP
  | "B"%char => turn game UP DOWN
  | "C"%char => turn game LEFT RIGHT
  | "D"%char => turn game RIGHT LEFT
  | _ => game
  end.

(** The [switch] on a plain key. *)
Definition plain_key (game : Game) (c : ascii) : Game :=
  match c with
  | "w"%char | "W"%char => turn game DOWN UP
  | "s"%char | "S"%char => turn game UP DOWN
  | "a"%char | "A"%char => turn game RIGHT LEFT
  | "d"%char | "D"%char => turn game LEFT RIGHT
  | "q"%char | "Q"%char => set_game_over game true
  | " "%char => set_paused game (negb (paused game))
  | _ => game
  end.

(** [stdin] holds the bytes that can be read without blocking: [kbhit()]
    is true when it is not empty and [getchar()] takes its first byte. *)
Definition handle_input (game : Game) (stdin : list ascii) : Game * list ascii :=
  match stdin with
  | [] => (game, [])
  | c :: stdin =>
      if Ascii.eqb c ESC then
        match stdin with
        | [] => (game, [])
        | seq1 :: stdin =>
            if Ascii.eqb seq1 "["%char then
              match stdin with
              | [] => (game, [])
              | seq2 :: stdin => (arrow_key game seq2, stdin)
              end
            else (game, stdin)
        end
      else (plain_key game c, stdin)
  end.

(** ** The loop of main *)

(** [elapsed_us - last >= interval] *)
Definition due (elapsed_us last interval : Z) : bool :=
  interval <=? llong_sub elapsed_us last.

(** What one iteration receives from outside: the clock reading and the
    bytes typed since the previous iteration. *)
Record Tick : Type := mkTick {
  elapsed_us : Z;
  typed : list ascii
}.

Record Loop : Type := mkLoop {
  cur_game : Game;
  cur_rng : Rand;
  last_render : Z;
  last_move : Z;
  pending : list ascii;        (* unread bytes of stdin *)
  screen : list Frame;         (* frames drawn, newest first *)
  moved : list Direction       (* trace: the direction each move tick used, newest first *)
}.

Definition loop_body (cfg : Config) (t : Tick) (st : Loop) : option Loop :=
  let '(game, stdin) := handle_input (cur_game st) (pending st ++ typed t) in
  mv ← (if due (elapsed_us t) (last_move st) (move_interval cfg) && negb (paused game)
        then
          r ← move_snake game cfg (cur_rng st);
          Some (r.1, r.2, elapsed_us t, direction (snake game) :: moved st)
        else Some (game, cur_rng st, last_move st, moved st));
  let '(game, rng, lm, tr) := mv in
  dr ← (if due (elapsed_us t) (last_render st) (render_interval cfg)
        then
          f ← draw_board game cfg;
          Some (f :: screen st, elapsed_us t)
        else Some (screen st, last_render st));
  let '(scr, lr) := dr in
  Some {| cur_game := game; cur_rng := rng; last_render := lr; last_move := lm;
          pending := stdin; screen := scr; moved := tr |}.

(** [while (!game.game_over) { ... }], one [Tick] per iteration. *)
Fixpoint main_loop (cfg : Config) (ticks : list Tick) (st : Loop) : option Loop :=
  match ticks with
  | [] => Some st
  | t :: ticks =>
      if game_over (cur_game st) then Some st
      else st ← loop_body cfg t st; main_loop cfg ticks st
  end.

(** The start of main, after the arguments were parsed into [cfg]. *)
Definition main_start (env : Env) (cfg : Config) : option (Config * Loop) :=
  cfg ← calculate_intervals cfg;
  r ← init_game env cfg;
  let '(cfg, game, rng) := r in
  Some (cfg, {| cur_game := game; cur_rng := rng; last_render := 0; last_move := 0;
                pending := []; screen := []; moved := [] |}).

(** * Vocabulary of the properties *)

(** A cell of the board, [[0,width) x [0,height)]. *)
Definition in_board (cfg : Config) (p : Point) : Prop :=
  0 <= x p < board_width cfg /\ 0 <= y p < board_height cfg.

(** Three points on one line. *)
Definition collinear (a b c : Point) : Prop :=
  (x b - x a) * (y c - y a) = (y b - y a) * (x c - x a).

(** The head position move_snake computes: the head moved one step in
    the current direction, and wrapped when wrap-around is on. *)
Definition new_head (game : Game) (cfg : Config) : option Point :=
  hd ← body_read (body (snake game)) 0;
  let nh := next_head (direction (snake game)) hd in
  Some (if wraparound_mode cfg then wrap_head cfg nh else nh).

(** The state init_game sets up and the moves work in: a board whose
    cells an [int] can count with one to spare, a block of
    [max_length = width * height] slots, and between 1 and [max_length]
    segments. *)
Definition well_formed (game : Game) (cfg : Config) : Prop :=
  0 < board_width cfg /\ 0 < board_height cfg /\
  board_width cfg * board_height cfg < INT_MAX /\
  max_length (snake game) = board_width cfg * board_height cfg /\
  Z.of_nat (List.length (body (snake game))) = max_length (snake game) /\
  1 <= length (snake game) <= max_length (snake game).

(** The [k]-th cell generate_food samples when it starts from [rng]. *)
Definition sample_cell (cfg : Config) (rng : Rand) (k : nat) : Point :=
  {| x := int_wrap (Z.rem (rand_seq rng (rand_calls rng + 2 * k)%nat) (board_width cfg));
     y := int_wrap (Z.rem (rand_seq rng (rand_calls rng + 2 * k + 1)%nat) (board_height cfg)) |}.

(** The block after a move of regular mode: the new head, then the old
    segments but the tail, then the slots behind the tail as they were. *)
Definition moved_body (game : Game) (nh : Point) : list Point :=
  nh :: take (Z.to_nat (length (snake game) - 1)) (body (snake game))
     ++ drop (Z.to_nat (length (snake game))) (body (snake game)).

(** The block after a move of greedy mode: the new head, then all the old
    segments, then the slots behind the new tail as they were. *)
Definition grown_body (game : Game) (nh : Point) : list Point :=
  nh :: take (Z.to_nat (length (snake game))) (body (snake game))
     ++ drop (Z.to_nat (length (snake game) + 1)) (body (snake game)).

(** The outcome [r] of a move from [game] is a return that sets
    [game_over] and leaves everything else as it was: snake (body, length,
    capacity, direction), food, score, pause flag and random generator. *)
Definition only_ends (game : Game) (rng : Rand) (r : option (Game * Rand)) : Prop :=
  exists game',
    r = Some (game', rng) /\
    game_over game' = true /\
    body (snake game') = body (snake game) /\
    length (snake game') = length (snake game) /\
    snake game' = snake game /\
    food game' = food game /\
    score game' = score game /\
    paused game' = paused game.

(** No segment behind the head is on cell [p]. *)
Definition clear_of_body (game : Game) (p : Point) : Prop :=
  forall i : nat,
    (1 <= i)%nat -> Z.of_nat i < length (snake game) ->
    body (snake game) !! i <> Some p.

(** ** Sample states *)

Definition rng_of (f : nat -> Z) : Rand := {| rand_seq := f; rand_calls := 0 |}.

(** A generator that returns 0 for ever. *)
Definition zeros : Rand := rng_of (fun _ => 0).

(** A generator that returns 7 for ever. *)
Definition sevens : Rand := rng_of (fun _ => 7).

(** A generator that returns 2 for ever. *)
Definition twos : Rand := rng_of (fun _ => 2).

(** A 10 x 10 board with walls, regular mode. *)
Definition board10 : Config := set_board config 10 10.

(** A snake of four segments curled so that a step to the left puts the
    head on the cell of its tail; the block has room for 100. *)
Definition curled : Game :=
  {| food := {| x := 8; y := 8 |};
     snake := {| body := [mkPoint 5 5; mkPoint 5 6; mkPoint 4 6; mkPoint 4 5]
                         ++ replicate 96 (mkPoint 0 0);
                 length := 4; max_length := 100; direction := LEFT |};
     score := 30; game_over := false; paused := false |}.

(** A snake heading right whose head is on the last column. *)
Definition at_wall : Game :=
  {| food := {| x := 2; y := 2 |};
     snake := {| body := [mkPoint 9 5; mkPoint 8 5; mkPoint 7 5]
                         ++ replicate 97 (mkPoint 0 0);
                 length := 3; max_length := 100; direction := RIGHT |};
     score := 0; game_over := false; paused := false |}.

(** The 10 x 10 board in greedy mode. *)
Definition greedy10 : Config :=
  {| board_width := 10; board_height := 10; render_fps := 30; move_fps := 6;
     render_interval := 33333; move_interval := 166667;
     wraparound_mode := false; emoji_mode := false; game_mode := MODE_GREEDY |}.

(** The snake of a fresh 10 x 10 game with the food right in front of it;
    the slots behind the tail hold (7,7). *)
Definition cruising : Game :=
  {| food := {| x := 6; y := 5 |};
     snake := {| body := [mkPoint 5 5; mkPoint 4 5; mkPoint 3 5]
                         ++ replicate 97 (mkPoint 7 7);
                 length := 3; max_length := 100; direction := RIGHT |};
     score := 0; game_over := false; paused := false |}.

(** A game started with [-w 4 -h 1] on a terminal whose size is unknown,
    the first random number being 3: the food is at (3,0), the one cell in
    front of the snake. *)
Definition narrow_env : Env :=
  {| override_width := 4; override_height := 1; winsize := None;
     heap_junk := fun _ => mkPoint 0 0;
     seeded := fun n => match n with O => 3 | _ => 0 end |}.

(** A game started with [-w 3 -h 1], and one started with [-w 1 -h 1]. *)
Definition tiny_env : Env :=
  {| override_width := 3; override_height := 1; winsize := None;
     heap_junk := fun _ => mkPoint 0 0; seeded := fun _ => 0 |}.

Definition unit_env : Env :=
  {| override_width := 1; override_height := 1; winsize := None;
     heap_junk := fun _ => mkPoint 0 0; seeded := fun _ => 0 |}.

(** A game started with [-w 10 -h 10]; the heap holds (7,7) everywhere
    and the generator returns 2 for ever. *)
Definition env10 : Env :=
  {| override_width := 10; override_height := 10; winsize := None;
     heap_junk := fun _ => mkPoint 7 7; seeded := fun _ => 2 |}.

(** The exact reverse of a direction. *)
Definition opposite (d : Direction) : Direction :=
  match d with UP => DOWN | DOWN => UP | LEFT => RIGHT | RIGHT => LEFT end.

(** No move tick of the trace used the reverse of the direction of the
    move tick before it. *)
Fixpoint no_reversal (trace : list Direction) : Prop :=
  match trace with
  | d2 :: ((d1 :: _) as rest) => d2 <> opposite d1 /\ no_reversal rest
  | _ => True
  end.

(** Four iterations of the loop: a move tick at 166.666 ms, the key [w]
    at 200 ms, the key [a] at 280 ms, and the next move tick at
    333.332 ms. *)
Definition quick_turns : list Tick :=
  [ {| elapsed_us := 166666; typed := [] |};
    {| elapsed_us := 200000; typed := ["w"%char] |};
    {| elapsed_us := 280000; typed := ["a"%char] |};
    {| elapsed_us := 333332; typed := [] |} ].




(** * The rest of the program *)

(** ** print_usage and parse_arguments *)

(** Standard output, one entry per line printed (every [printf] of
    print_usage and parse_arguments ends its text with a newline). *)
Definition print_usage (program_name : string) : list string :=
  [ ("Usage: " ++ program_name ++ " [options]")%string;
    "Options:"%string;
    "  -w WIDTH      Set board width (default: terminal width)"%string;
    "  -h HEIGHT     Set board height (default: terminal height)"%string;
    "  -r FPS        Set render frequency in FPS (default: 30)"%string;
    "  -m FPS        Set move frequency in FPS (default: 6)"%string;
    "  --mode MODE   Set game mode: regular, greedy (default: regular)"%string;
    "  --wraparound  Enable wraparound mode (walls teleport to opposite side)"%string;
    "  --emoji       Enable emoji mode (use emojis for game elements)"%string;
    "  --help        Show this help message"%string;
    EmptyString;
    "Note: For best visual experience, use a width:height ratio of approximately 2:1"%string;
    "      (e.g., -w 40 -h 20 or -w 60 -h 30)"%string;
    "      Higher render FPS makes input more responsive, higher move FPS makes game faster"%string;
    "      Default mode: hitting walls causes death. Use --wraparound to pass through walls"%string;
    "      Game modes: regular (classic snake), greedy (grows every move, find shortest path!)"%string ].

(** What parse_arguments reads and writes: the configuration, the two
    globals [override_width] and [override_height], and standard output. *)
Record Cli : Type := mkCli {
  cl_config : Config;
  cl_override_width : Z;
  cl_override_height : Z;
  cl_stdout : list string
}.

(** The program's state when main starts. *)
Definition cli0 : Cli :=
  {| cl_config := config; cl_override_width := 0; cl_override_height := 0;
     cl_stdout := [] |}.

Definition cl_print (st : Cli) (lines : list string) : Cli :=
  {| cl_config := cl_config st; cl_override_width := cl_override_width st;
     cl_override_height := cl_override_height st;
     cl_stdout := cl_stdout st ++ lines |}.
Definition cl_set_config (st : Cli) (cfg : Config) : Cli :=
  {| cl_config := cfg; cl_override_width := cl_override_width st;
     cl_override_height := cl_override_height st; cl_stdout := cl_stdout st |}.
Definition cl_set_width (st : Cli) (n : Z) : Cli :=
  {| cl_config := cl_config st; cl_override_width := n;
     cl_override_height := cl_override_height st; cl_stdout := cl_stdout st |}.
Definition cl_set_height (st : Cli) (n : Z) : Cli :=
  {| cl_config := cl_config st; cl_override_width := cl_override_width st;
     cl_override_height := n; cl_stdout := cl_stdout st |}.

Definition set_render_fps (cfg : Config) (n : Z) : Config :=
  {| board_width := board_width cfg; board_height := board_height cfg;
     render_fps := n; move_fps := move_fps cfg;
     render_interval := render_interval cfg; move_interval := move_interval cfg;
     wraparound_mode := wraparound_mode cfg; emoji_mode := emoji_mode cfg;
     game_mode := game_mode cfg |}.
Definition set_move_fps (cfg : Config) (n : Z) : Config :=
  {| board_width := board_width cfg; board_height := board_height cfg;
     render_fps := render_fps cfg; move_fps := n;
     render_interval := render_interval cfg; move_interval := move_interval cfg;
     wraparound_mode := wraparound_mode cfg; emoji_mode := emoji_mode cfg;
     game_mode := game_mode cfg |}.
Definition set_wraparound_mode (cfg : Config) (b : bool) : Config :=
  {| board_width := board_width cfg; board_height := board_height cfg;
     render_fps := render_fps cfg; move_fps := move_fps cfg;
     render_interval := render_interval cfg; move_interval := move_interval cfg;
     wraparound_mode := b; emoji_mode := emoji_mode cfg;
     game_mode := game_mode cfg |}.
Definition set_emoji_mode (cfg : Config) (b : bool) : Config :=
  {| board_width := board_width cfg; board_height := board_height cfg;
     render_fps := render_fps cfg; move_fps := move_fps cfg;
     render_interval := render_interval cfg; move_interval := move_interval cfg;
     wraparound_mode := wraparound_mode cfg; emoji_mode := b;
     game_mode := game_mode cfg |}.
Definition set_game_mode (cfg : Config) (m : GameMode) : Config :=
  {| board_width := board_width cfg; board_height := board_height cfg;
     render_fps := render_fps cfg; move_fps := move_fps cfg;
     render_interval := render_interval cfg; move_interval := move_interval cfg;
     wraparound_mode := wraparound_mode cfg; emoji_mode := emoji_mode cfg;
     game_mode := m |}.

(** The loop of parse_arguments over [argv[1]], [argv[2]], ...; [atoi] is
    the C library's.  An option that takes a value takes the next argument,
    whatever it looks like. *)
Fixpoint parse_options (atoi : string -> Z) (program_name : string)
    (args : list string) (st : Cli) : Z * Cli :=
  match args with
  | [] => (0, st)
  | a :: rest =>
      if String.eqb a "-w" then
        match rest with
        | v :: rest =>
            let st := cl_set_width st (atoi v) in
            if cl_override_width st <=? 0
            then (1, cl_print st ["Error: Width must be a positive integer"%string])
            else parse_options atoi program_name rest st
        | [] =>
            (1, cl_print (cl_print st ["Error: -w requires a width value"%string])
                         (print_usage program_name))
        end
      else if String.eqb a "-h" then
        match rest with
        | v :: rest =>
            let st := cl_set_height st (atoi v) in
            if cl_override_height st <=? 0
            then (1, cl_print st ["Error: Height must be a positive integer"%string])
            else parse_options atoi program_name rest st
        | [] =>
            (1, cl_print (cl_print st ["Error: -h requires a height value"%string])
                         (print_usage program_name))
        end
      else if String.eqb a "-r" then
        match rest with
        | v :: rest =>
            let st := cl_set_config st (set_render_fps (cl_config st) (atoi v)) in
            if render_fps (cl_config st) <=? 0
            then (1, cl_print st ["Error: Render FPS must be a positive integer"%string])
            else parse_options atoi program_name rest st
        | [] =>
            (1, cl_print (cl_print st ["Error: -r requires an FPS value"%string])
                         (print_usage program_name))
        end
      else if String.eqb a "-m" then
        match rest with
        | v :: rest =>
            let st := cl_set_config st (set_move_fps (cl_config st) (atoi v)) in
            if move_fps (cl_config st) <=? 0
            then (1, cl_print st ["Error: Move FPS must be a positive integer"%string])
            else parse_options atoi program_name rest st
        | [] =>
            (1, cl_print (cl_print st ["Error: -m requires an FPS value"%string])
                         (print_usage program_name))
        end
      else if String.eqb a "--wraparound" then
        parse_options atoi program_name rest
          (cl_set_config st (set_wraparound_mode (cl_config st) true))
      else if String.eqb a "--emoji" then
        parse_options atoi program_name rest
          (cl_set_config st (set_emoji_mode (cl_config st) true))
      else if String.eqb a "--mode" then
        match rest with
        | mode :: rest =>
            if String.eqb mode "regular" then
              parse_options atoi program_name rest
                (cl_set_config st (set_game_mode (cl_config st) MODE_REGULAR))
            else if String.eqb mode "greedy" then
              parse_options atoi program_name rest
                (cl_set_config st (set_game_mode (cl_config st) MODE_GREEDY))
            else
              (1, cl_print st
                    [("Error: Unknown game mode '" ++ mode
                      ++ "'. Available modes: regular, greedy")%string])
        | [] =>
            (1, cl_print (cl_print st ["Error: --mode requires a mode value"%string])
                         (print_usage program_name))
        end
      else if String.eqb a "--help" then
        (-1, cl_print st (print_usage program_name))
      else
        (1, cl_print (cl_print st [("Error: Unknown option " ++ a)%string])
                     (print_usage program_name))
  end.

(** [argv] is the whole vector, the program's name first. *)
Definition parse_arguments (atoi : string -> Z) (argv : list string) (st : Cli) : Z * Cli :=
  parse_options atoi (hd EmptyString argv) (tl argv) st.

(** ** The start of main *)

(** What is outside the program when it starts, the command line apart. *)
Record World : Type := mkWorld {
  w_winsize : option (Z * Z);
  w_heap_junk : nat -> Point;
  w_seeded : nat -> Z
}.

(** main either returns before the game, with a status and what it
    printed, or enters the loop. *)
Inductive Started : Type :=
  | Exited (status : Z) (out : list string)
  | Playing (cfg : Config) (st : Loop).

(** main up to its loop: the arguments, then calculate_intervals and
    init_game. *)
Definition main_begin (atoi : string -> Z) (argv : list string) (w : World)
  : option Started :=
  let '(parse_result, cl) := parse_arguments atoi argv cli0 in
  if parse_result =? 0 then
    r ← main_start {| override_width := cl_override_width cl;
                      override_height := cl_override_height cl;
                      winsize := w_winsize w; heap_junk := w_heap_junk w;
                      seeded := w_seeded w |} (cl_config cl);
    Some (Playing r.1 r.2)
  else Some (Exited (if parse_result =? -1 then 0 else parse_result) (cl_stdout cl)).

(** ** Vocabulary of the further properties *)

(** The glyph of a cell as a picture of the state: the border is wall;
    inside, the head hides the body, the snake hides the food. *)
Definition cell_glyph (game : Game) (cfg : Config) (cx cy : Z) : Glyph :=
  if (cx =? -1) || (cx =? board_width cfg) || (cy =? -1) || (cy =? board_height cfg)
  then WALL
  else if bool_decide (mkPoint cx cy ∈ segments (snake game)) then
         if bool_decide (body (snake game) !! 0%nat = Some (mkPoint cx cy))
         then SNAKE_HEAD else SNAKE_BODY
       else if bool_decide (food game = mkPoint cx cy) then FOOD else EMPTY.

(** The step of a direction as an offset. *)
Definition offset (d : Direction) : Z * Z :=
  match d with UP => (0, -1) | DOWN => (0, 1) | LEFT => (-1, 0) | RIGHT => (1, 0) end.

(** Every segment is a cell of the board. *)
Definition on_board (game : Game) (cfg : Config) : Prop :=
  forall p : Point, p ∈ segments (snake game) -> in_board cfg p.

(** A stand-in for [atoi] on the strings used in examples. *)
Definition atoi_sample (s : string) : Z :=
  if String.eqb s "10" then 10
  else if String.eqb s "4" then 4
  else if String.eqb s "60" then 60
  else 0.

(** The 10 x 10 board with wrap-around. *)
Definition wrap10 : Config :=
  {| board_width := 10; board_height := 10; render_fps := 30; move_fps := 6;
     render_interval := 33333; move_interval := 166667;
     wraparound_mode := true; emoji_mode := false; game_mode := MODE_REGULAR |}.

(** A generator that returns 5, 5, 4, 5 and then 2 for ever: on a
    10 x 10 board its first two samples are (5,5) and (4,5). *)
Definition fives : Rand :=
  rng_of (fun n => match n with
                   | O => 5 | 1%nat => 5 | 2%nat => 4 | 3%nat => 5 | _ => 2
                   end).

(** ** What a key can do *)

(** The direction turned by a quarter: a new direction that is neither the
    old one nor its reverse, everything else as it was. *)
Definition quarter_turn (game game' : Game) : Prop :=
  exists d : Direction,
    d <> direction (snake game) /\ d <> opposite (direction (snake game)) /\
    game' = set_snake game (set_direction (snake game) d).

(** The four effects of one call of handle_input: nothing, a quarter
    turn, the end of the game, or the pause flag toggled. *)
Definition key_effect (game game' : Game) : Prop :=
  game' = game \/ quarter_turn game game' \/
  game' = set_game_over game true \/
  game' = set_paused game (negb (paused game)).

(** [cruising] with the pause flag set. *)
Definition resting : Game := set_paused cruising true.

(** A loop state of the 10 x 10 game around [game]. *)
Definition loop_of (game : Game) : Loop :=
  {| cur_game := game; cur_rng := twos; last_render := 0; last_move := 0;
     pending := []; screen := []; moved := [] |}.

(** Three iterations without a key, at 0.2 s, 0.4 s and 0.6 s. *)
Definition quiet_ticks : list Tick :=
  [ {| elapsed_us := 200000; typed := [] |};
    {| elapsed_us := 400000; typed := [] |};
    {| elapsed_us := 600000; typed := [] |} ].

(** An iteration at 0.2 s that finds the key [q]. *)
Definition quit_tick : Tick := {| elapsed_us := 200000; typed := ["q"%char] |}.

(** ** What the command line can lead to *)

(** A line that reports an error. *)
Definition is_error (line : string) : Prop := String.prefix "Error: " line = true.

(** The three outcomes of parse_arguments, by what it returns and what it
    adds to standard output [out]: 0 and nothing; 1 and an error line,
    alone or followed by the usage text; -1 and the usage text, only when
    [--help] is among the arguments. *)
Definition parse_report (program_name : string) (args : list string)
    (out : list string) (r : Z) (out' : list string) : Prop :=
  (r = 0 /\ out' = out) \/
  (r = 1 /\ exists msg : string,
      is_error msg /\
      (out' = out ++ [msg] \/ out' = out ++ msg :: print_usage program_name)) \/
  (r = -1 /\ out' = out ++ print_usage program_name /\ "--help"%string ∈ args).

(** What an accepted command line keeps of the state it started from:
    nothing is printed, frame rates stay positive, the two overrides stay
    non-negative, and the board size of the configuration is not touched. *)
Definition accepted_from (st st' : Cli) : Prop :=
  cl_stdout st' = cl_stdout st /\
  (0 < render_fps (cl_config st) -> 0 < render_fps (cl_config st')) /\
  (0 < move_fps (cl_config st) -> 0 < move_fps (cl_config st')) /\
  (0 <= cl_override_width st -> 0 <= cl_override_width st') /\
  (0 <= cl_override_height st -> 0 <= cl_override_height st') /\
  board_width (cl_config st') = board_width (cl_config st) /\
  board_height (cl_config st') = board_height (cl_config st).

(** The environment of init_game after the command line was read. *)
Definition env_of (cl : Cli) (w : World) : Env :=
  {| override_width := cl_override_width cl; override_height := cl_override_height cl;
     winsize := w_winsize w; heap_junk := w_heap_junk w; seeded := w_seeded w |}.

(** A terminal of 80 x 24 with (7,7) all over the heap and a generator
    that returns 2 for ever. *)
Definition world80 : World :=
  {| w_winsize := Some (80, 24); w_heap_junk := fun _ => mkPoint 7 7;
     w_seeded := fun _ => 2 |}.

(** A game started with [-w 2 -h 1] on a terminal whose size is unknown. *)
Definition cramped_env : Env :=
  {| override_width := 2; override_height := 1; winsize := None;
     heap_junk := fun _ => mkPoint 0 0; seeded := fun _ => 0 |}.

(** ** What generate_food can lead to *)

(** The generator after [n] more calls of [rand()]. *)
Definition advanced (rng : Rand) (n : nat) : Rand :=
  {| rand_seq := rand_seq rng; rand_calls := rand_calls rng + n |}.

(** The attempt bound of generate_food, [total_cells * 2] as the [int]
    the code compares [attempts] with. *)
Definition attempts (cfg : Config) : nat :=
  Z.to_nat (int_mul (int_mul (board_width cfg) (board_height cfg))
                    FOOD_PLACEMENT_MAX_ATTEMPTS_MULTIPLIER).

(** generate_food giving up after all its attempts: the food is on the
    last sample it rejected (where it was, had it no attempt at all),
    [game_over] is set and two random numbers per attempt are used. *)
Definition gave_up (cfg : Config) (game : Game) (rng : Rand) : Game * Rand :=
  (set_game_over match attempts cfg with
                 | O => game
                 | S k => set_food game (sample_cell cfg rng k)
                 end true,
   advanced rng (2 * attempts cfg)).

(** The outcome [r] of generate_food called on [fed] with [rng], case by
    case.  A length that has reached [width * height]: [game_over] is set
    and nothing else changes.  Otherwise, if the [j]-th sample is the
    first one free of the snake and comes within the attempts: the food
    is put there, two random numbers per sample are used and nothing else
    changes, [game_over] included.  Otherwise, if every sample within the
    attempts is on the snake: generate_food gives up. *)
Definition food_outcome (cfg : Config) (fed : Game) (rng : Rand)
    (r : option (Game * Rand)) : Prop :=
  (board_width cfg * board_height cfg <= length (snake fed) ->
   r = Some (set_game_over fed true, rng)) /\
  (length (snake fed) < board_width cfg * board_height cfg ->
   (forall j : nat,
       (j < attempts cfg)%nat ->
       (forall i : nat, (i < j)%nat -> sample_cell cfg rng i ∈ segments (snake fed)) ->
       sample_cell cfg rng j ∉ segments (snake fed) ->
       r = Some (set_food fed (sample_cell cfg rng j), advanced rng (2 * S j))) /\
   ((forall j : nat, (j < attempts cfg)%nat ->
        sample_cell cfg rng j ∈ segments (snake fed)) ->
    r = Some (gave_up cfg fed rng))).

(** The state a meal of regular mode hands to generate_food: the body
    shifted under the new head, one segment and ten points more. *)
Definition fed_regular (game : Game) (nh : Point) : Game :=
  {| food := food game;
     snake := {| body := moved_body game nh;
                 length := length (snake game) + 1;
                 max_length := max_length (snake game);
                 direction := direction (snake game) |};
     score := score game + 10;
     game_over := game_over game; paused := paused game |}.

(** The snake after a move of greedy mode that goes through: the new head
    in front of all the old segments. *)
Definition grown_snake (game : Game) (nh : Point) : Snake :=
  {| body := grown_body game nh;
     length := length (snake game) + 1;
     max_length := max_length (snake game);
     direction := direction (snake game) |}.

(** The state a meal of greedy mode hands to generate_food: the grown
    snake and ten points more. *)
Definition fed_greedy (game : Game) (nh : Point) : Game :=
  {| food := food game; snake := grown_snake game nh;
     score := score game + 10;
     game_over := game_over game; paused := paused game |}.

(** ** States from which the game stays inside its block *)

(** The scans of draw_board and generate_food stay inside the block. *)
Definition drawable (game : Game) : Prop :=
  (Z.to_nat (length (snake game)) <= List.length (body (snake game)))%nat.

(** A well-formed state which, in regular mode, has a slot of the block
    left for the segment a meal adds. *)
Definition safe_state (cfg : Config) (game : Game) : Prop :=
  well_formed game cfg /\
  (game_mode cfg = MODE_REGULAR -> length (snake game) < max_length (snake game)).

(** * Properties *)

(** ** Integers *)

(** Range side conditions, once the bounds are numbers. *)
Ltac range_lia :=
  unfold int_range, llong_range, INT_MIN, INT_MAX, LLONG_MIN, LLONG_MAX in *; lia.

Lemma int_wrap_id (z : Z) : int_range z -> int_wrap z = z.
Proof.
  unfold int_range, INT_MIN, INT_MAX, int_wrap. intros Hz.
  rewrite Z.mod_small; lia.
Qed.

Lemma int_wrap_le (z : Z) : 0 <= z -> int_wrap z <= z.
Proof.
  unfold int_wrap. intros Hz.
  pose proof (Z.mod_le (z + 2147483648) 4294967296). lia.
Qed.

Lemma llong_wrap_id (z : Z) : llong_range z -> llong_wrap z = z.
Proof.
  unfold llong_range, LLONG_MIN, LLONG_MAX, llong_wrap. intros Hz.
  rewrite Z.mod_small; lia.
Qed.

Lemma same_cell_true (a b : Point) : same_cell a b = true <-> a = b.
Proof.
  unfold same_cell. destruct a as [ax ay], b as [bx by']; simpl.
  rewrite andb_true_iff, !Z.eqb_eq. split.
  - intros [-> ->]; reflexivity.
  - intros [= -> ->]; auto.
Qed.

Lemma same_cell_false (a b : Point) : same_cell a b = false <-> a <> b.
Proof.
  rewrite <- same_cell_true. destruct (same_cell a b); split; congruence.
Qed.

(** ** The scans over the body *)

(** A scan whose range lies in the block always answers, and answers
    whether the cell is among the scanned slots. *)
Lemma scan_body_spec (b : list Point) (p : Point) (n from : nat) :
  (from + n <= List.length b)%nat ->
  scan_body b from n p = Some (bool_decide (p ∈ take n (drop from b))).
Proof.
  revert from. induction n as [|n IH]; intros from Hlen; simpl.
  - reflexivity.
  - unfold body_read.
    destruct (lookup_lt_is_Some_2 b from) as [q Hq]; [lia |].
    rewrite Hq; simpl.
    rewrite (drop_S _ _ _ Hq); simpl.
    destruct (same_cell q p) eqn:Hqp.
    + apply same_cell_true in Hqp; subst q.
      rewrite bool_decide_eq_true_2; [reflexivity | apply list_elem_of_here].
    + apply same_cell_false in Hqp.
      rewrite IH by lia. f_equal. apply bool_decide_ext.
      rewrite elem_of_cons. split; [tauto | intros [-> | Hin]; [congruence | exact Hin]].
Qed.

(** A scan that reaches a matching slot stops there, whatever lies
    behind it. *)
Lemma scan_body_hit (b : list Point) (p : Point) (i n from : nat) :
  (from <= i < from + n)%nat -> b !! i = Some p ->
  scan_body b from n p = Some true.
Proof.
  revert from. induction n as [|n IH]; intros from Hi Hp; simpl; [lia |].
  unfold body_read.
  destruct (lookup_lt_is_Some_2 b from) as [q Hq].
  { apply lookup_lt_Some in Hp. lia. }
  rewrite Hq; simpl.
  destruct (same_cell q p) eqn:Hqp; [reflexivity |].
  apply IH; [| exact Hp].
  destruct (decide (i = from)) as [-> |]; [| lia].
  rewrite Hq in Hp. injection Hp as ->.
  apply same_cell_false in Hqp. congruence.
Qed.

(** ** The shifts of the body *)

Lemma body_write_Some (b : list Point) (i : nat) (p : Point) :
  (i < List.length b)%nat -> body_write b i p = Some (<[i := p]> b).
Proof. intros Hi. unfold body_write. case_decide; [reflexivity | lia]. Qed.

(** The downward copy loop duplicates slot 0 and moves the next [n]
    slots one place toward the tail; slots past [n] keep their contents. *)
Lemma shift_regular_spec (n : nat) (b : list Point) :
  (n < List.length b)%nat ->
  shift_regular n b = Some (take 1 b ++ take n b ++ drop (S n) b).
Proof.
  revert b. induction n as [|j IH]; intros b Hn.
  - simpl shift_regular. rewrite app_nil_l. rewrite (take_drop 1 b). reflexivity.
  - simpl shift_regular. unfold body_read.
    destruct (lookup_lt_is_Some_2 b j) as [p Hp]; [lia |].
    destruct (lookup_lt_is_Some_2 b (S j)) as [q Hq]; [lia |].
    rewrite Hp; simpl.
    rewrite body_write_Some by lia; simpl.
    rewrite IH by (rewrite length_insert; lia).
    f_equal.
    rewrite !take_insert_ge by lia.
    rewrite drop_insert_ge by lia.
    rewrite Nat.sub_diag.
    rewrite (drop_S _ _ _ Hq). simpl.
    rewrite (take_S_r _ _ _ Hp).
    rewrite <- !app_assoc. reflexivity.
Qed.

(** The two copy loops are the same loop, entered at different indices. *)
Lemma shift_greedy_regular (n : nat) (b : list Point) :
  shift_greedy n b = shift_regular n b.
Proof.
  revert b. induction n as [|i IH]; intros b; simpl; [reflexivity |].
  rewrite Nat.add_1_r.
  destruct (body_read b i) as [p|]; simpl; [| reflexivity].
  destruct (body_write b (S i) p) as [b'|]; simpl; [apply IH | reflexivity].
Qed.

(** ** move_snake: collisions *)

Lemma off_board_true (cfg : Config) (p : Point) :
  off_board cfg p = true <-> ~ in_board cfg p.
Proof.
  unfold off_board, in_board.
  rewrite !orb_true_iff, !Z.ltb_lt, !Z.leb_le. lia.
Qed.

Lemma off_board_false (cfg : Config) (p : Point) :
  off_board cfg p = false <-> in_board cfg p.
Proof.
  unfold off_board, in_board.
  rewrite !orb_false_iff, !Z.ltb_ge, !Z.leb_gt. lia.
Qed.

Lemma advance_hit (game : Game) (cfg : Config) (rng : Rand) (nh : Point) :
  scan_body (body (snake game)) 1 (Z.to_nat (length (snake game) - 1)) nh = Some true ->
  advance game cfg rng nh = Some (set_game_over game true, rng).
Proof. intros Hscan. unfold advance. rewrite Hscan. reflexivity. Qed.

(** A new head on the cell of a segment behind the head ends the game
    and nothing else happens. *)
Lemma self_hit_ends (game : Game) (cfg : Config) (rng : Rand) (nh : Point) (i : nat) :
  new_head game cfg = Some nh ->
  (1 <= i)%nat -> Z.of_nat i < length (snake game) ->
  body (snake game) !! i = Some nh ->
  move_snake game cfg rng = Some (set_game_over game true, rng).
Proof.
  intros Hnh Hi1 HiL Hbi.
  unfold new_head, body_read in Hnh. unfold move_snake, body_read.
  destruct (body (snake game) !! 0%nat) as [hd|] eqn:Hhd; simpl in *; [| discriminate].
  injection Hnh as Hnh.
  assert (Hscan : scan_body (body (snake game)) 1
                    (Z.to_nat (length (snake game) - 1)) nh = Some true).
  { apply (scan_body_hit _ _ i); [lia | exact Hbi]. }
  destruct (wraparound_mode cfg).
  - subst nh. apply advance_hit, Hscan.
  - subst nh. destruct (off_board cfg _); [reflexivity |].
    apply advance_hit, Hscan.
Qed.

Lemma only_ends_intro (game : Game) (rng : Rand) (r : option (Game * Rand)) :
  r = Some (set_game_over game true, rng) -> only_ends game rng r.
Proof.
  intros ->. exists (set_game_over game true). repeat split; reflexivity.
Qed.

(** C1. If the head position move_snake computes is the cell of a body
    segment other than the head (index 1 to length - 1 of the body before
    the move, the tail included), move_snake sets [game_over] and returns
    with nothing else changed: the body, the length, the food and the
    score are those of before.  In particular this holds for the tail,
    index [length - 1], although a move would vacate it: the snake cannot
    move into the cell of its tail. *)
Theorem move_snake_self_collision (game : Game) (cfg : Config) (rng : Rand) (nh : Point) :
  new_head game cfg = Some nh ->
  (forall i : nat,
      (1 <= i)%nat -> Z.of_nat i < length (snake game) ->
      body (snake game) !! i = Some nh ->
      only_ends game rng (move_snake game cfg rng)) /\
  (2 <= length (snake game) ->
   body (snake game) !! Z.to_nat (length (snake game) - 1) = Some nh ->
   only_ends game rng (move_snake game cfg rng)).
Proof.
  intros Hnh. split.
  - intros i Hi1 HiL Hbi.
    apply only_ends_intro, (self_hit_ends game cfg rng nh i); assumption.
  - intros HL Htail.
    apply only_ends_intro,
      (self_hit_ends game cfg rng nh (Z.to_nat (length (snake game) - 1)));
      [exact Hnh | lia | lia | exact Htail].
Qed.

(** C1 on the curled snake: the step to the left lands on the tail. *)
Lemma move_snake_self_collision_witness :
  new_head curled board10 = Some (mkPoint 4 5) /\
  body (snake curled) !! Z.to_nat (length (snake curled) - 1) = Some (mkPoint 4 5) /\
  only_ends curled zeros (move_snake curled board10 zeros).
Proof.
  split; [reflexivity |]. split; [reflexivity |].
  apply (proj2 (move_snake_self_collision curled board10 zeros (mkPoint 4 5) eq_refl)).
  - simpl. lia.
  - reflexivity.
Defined.

(** C6. With wrap-around off, when the head moved one step in the current
    direction lies outside [[0,width) x [0,height)], move_snake sets
    [game_over] and returns with the snake (body and length), the score
    and the food unchanged, and without drawing a random number. *)
Theorem move_snake_wall_hit (game : Game) (cfg : Config) (rng : Rand) (hd : Point) :
  wraparound_mode cfg = false ->
  body (snake game) !! 0%nat = Some hd ->
  ~ in_board cfg (next_head (direction (snake game)) hd) ->
  only_ends game rng (move_snake game cfg rng).
Proof.
  intros Hwrap Hhd Hout. apply only_ends_intro.
  unfold move_snake, body_read. rewrite Hhd; simpl. rewrite Hwrap.
  apply off_board_true in Hout. rewrite Hout. reflexivity.
Qed.

(** C6 on the snake at the right wall. *)
Lemma move_snake_wall_hit_witness :
  ~ in_board board10 (next_head (direction (snake at_wall)) (mkPoint 9 5)) /\
  only_ends at_wall zeros (move_snake at_wall board10 zeros).
Proof.
  assert (Hout : ~ in_board board10 (next_head (direction (snake at_wall)) (mkPoint 9 5))).
  { unfold in_board; simpl. vm_compute. intros [[_ H] _]. discriminate H. }
  split; [exact Hout |].
  apply (move_snake_wall_hit at_wall board10 zeros (mkPoint 9 5));
    [reflexivity | reflexivity | exact Hout].
Defined.

(** ** generate_food *)

Lemma sample_cell_next (cfg : Config) (rng : Rand) (j : nat) :
  sample_cell cfg {| rand_seq := rand_seq rng; rand_calls := S (S (rand_calls rng)) |} j
  = sample_cell cfg rng (S j).
Proof.
  unfold sample_cell; cbn [rand_seq rand_calls].
  replace (S (S (rand_calls rng)) + 2 * j)%nat
    with (rand_calls rng + 2 * S j)%nat by lia.
  reflexivity.
Qed.

Lemma sample_cell_first (cfg : Config) (rng : Rand) :
  sample_cell cfg rng 0
  = {| x := int_wrap (Z.rem (rand_seq rng (rand_calls rng)) (board_width cfg));
       y := int_wrap (Z.rem (rand_seq rng (S (rand_calls rng))) (board_height cfg)) |}.
Proof.
  unfold sample_cell.
  replace (rand_calls rng + 2 * 0)%nat with (rand_calls rng) by lia.
  rewrite Nat.add_1_r. reflexivity.
Qed.

(** The sampling loop always finishes when the segments lie in the block:
    it draws [k <= n] cells, two random numbers each, touches nothing but
    the food, and reports [valid] exactly when the last cell drawn is free
    of the snake; it reports failure when every cell it may draw is taken. *)
Lemma place_food_spec (n : nat) (cfg : Config) (game : Game) (rng : Rand) :
  board_width cfg <> 0 -> board_height cfg <> 0 ->
  (Z.to_nat (length (snake game)) <= List.length (body (snake game)))%nat ->
  exists (valid : bool) (game' : Game) (rng' : Rand) (k : nat),
    place_food n cfg game rng = Some (valid, game', rng') /\
    snake game' = snake game /\ score game' = score game /\
    game_over game' = game_over game /\ paused game' = paused game /\
    rand_seq rng' = rand_seq rng /\
    rand_calls rng' = (rand_calls rng + 2 * k)%nat /\ (k <= n)%nat /\
    (valid = true -> food game' ∉ segments (snake game)) /\
    (valid = false -> k = n) /\
    ((forall j : nat, (j < n)%nat -> sample_cell cfg rng j ∈ segments (snake game)) ->
     valid = false).
Proof.
  intros Hw Hh. revert game rng.
  induction n as [|n IH]; intros game rng Hblock.
  - exists false, game, rng, 0%nat. simpl.
    repeat split; try reflexivity; try lia; try discriminate.
  - simpl place_food. unfold int_mod.
    apply Z.eqb_neq in Hw as Hw'. apply Z.eqb_neq in Hh as Hh'.
    rewrite Hw', Hh'. simpl.
    rewrite <- sample_cell_first.
    rewrite scan_body_spec by (simpl; lia).
    simpl drop. fold (segments (snake game)). simpl.
    case_bool_decide as Hocc.
    + specialize (IH (set_food game (sample_cell cfg rng 0))
                     {| rand_seq := rand_seq rng; rand_calls := S (S (rand_calls rng)) |}
                     Hblock).
      destruct IH as (valid & game' & rng' & k & Heq & Hs & Hsc & Hgo & Hp & Hseq & Hcalls
                      & Hk & Hval & Hinv & Hall).
      exists valid, game', rng', (S k).
      rewrite Heq. simpl in *.
      repeat split; try assumption; try lia.
      * intros Hf. rewrite (Hinv Hf). reflexivity.
      * intros Hsamples. apply Hall. intros j Hj.
        rewrite sample_cell_next. apply Hsamples. lia.
    + exists true, (set_food game (sample_cell cfg rng 0)),
        {| rand_seq := rand_seq rng; rand_calls := S (S (rand_calls rng)) |}, 1%nat.
      simpl. repeat split; try reflexivity; try lia; try discriminate.
      * intros _. exact Hocc.
      * intros Hsamples. exfalso. apply Hocc, Hsamples. lia.
Qed.

Lemma int_mul_board (cfg : Config) :
  0 < board_width cfg -> 0 < board_height cfg ->
  int_mul (board_width cfg) (board_height cfg) <= board_width cfg * board_height cfg.
Proof. intros Hw Hh. unfold int_mul. apply int_wrap_le. nia. Qed.

(** The attempt bound never exceeds [2 * width * height], whatever the
    multiplications wrap to. *)
Lemma attempts_le (cfg : Config) :
  0 < board_width cfg -> 0 < board_height cfg ->
  0 <= int_mul (board_width cfg) (board_height cfg) ->
  Z.of_nat (Z.to_nat (int_mul (int_mul (board_width cfg) (board_height cfg))
                              FOOD_PLACEMENT_MAX_ATTEMPTS_MULTIPLIER))
  <= 2 * board_width cfg * board_height cfg.
Proof.
  intros Hw Hh Htot.
  pose proof (int_mul_board cfg Hw Hh).
  unfold FOOD_PLACEMENT_MAX_ATTEMPTS_MULTIPLIER.
  unfold int_mul at 1.
  pose proof (int_wrap_le (int_mul (board_width cfg) (board_height cfg) * 2)). lia.
Qed.

(** A length that has reached [width * height] passes the first test of
    generate_food. *)
Lemma full_board_test (game : Game) (cfg : Config) :
  0 < board_width cfg -> 0 < board_height cfg ->
  length (snake game) <= INT_MAX ->
  board_width cfg * board_height cfg <= length (snake game) ->
  (int_mul (board_width cfg) (board_height cfg) <=? length (snake game)) = true.
Proof.
  intros Hw Hh HL Hfull. apply Z.leb_le.
  unfold int_mul. rewrite int_wrap_id; [exact Hfull |].
  unfold int_range, INT_MIN, INT_MAX in *. nia.
Qed.

(** generate_food returns whenever the segments it has to scan lie in the
    block; it changes neither snake nor score, and leaves [game_over]
    clear only with the food off the snake. *)
Lemma generate_food_returns (game : Game) (cfg : Config) (rng : Rand) :
  0 < board_width cfg -> 0 < board_height cfg ->
  0 <= length (snake game) <= INT_MAX ->
  (length (snake game) < board_width cfg * board_height cfg ->
   (Z.to_nat (length (snake game)) <= List.length (body (snake game)))%nat) ->
  exists (game' : Game) (rng' : Rand),
    generate_food game cfg rng = Some (game', rng') /\
    snake game' = snake game /\ score game' = score game /\
    (game_over game' = false -> food game' ∉ segments (snake game')).
Proof.
  intros Hw Hh HL Hblock.
  pose proof (int_mul_board cfg Hw Hh) as Htot.
  unfold generate_food.
  destruct (int_mul (board_width cfg) (board_height cfg) <=? length (snake game)) eqn:Hfull.
  - exists (set_game_over game true), rng.
    repeat split; try reflexivity. discriminate.
  - apply Z.leb_gt in Hfull.
    destruct (place_food_spec
                (Z.to_nat (int_mul (int_mul (board_width cfg) (board_height cfg))
                                   FOOD_PLACEMENT_MAX_ATTEMPTS_MULTIPLIER))
                cfg game rng) as
      (valid & game1 & rng1 & k & Heq & Hs & Hsc & _ & _ & _ & _ & _ & Hval & _);
      [lia | lia | apply Hblock; lia |].
    rewrite Heq. destruct valid.
    + exists game1, rng1. repeat split; try assumption.
      intros _. rewrite Hs. apply Hval. reflexivity.
    + exists (set_game_over game1 true), rng1.
      repeat split; try assumption. discriminate.
Qed.

(** C7. generate_food samples at most [2 * width * height] cells (it
    draws two random numbers for each); with [length >= width * height]
    it sets [game_over] and samples nothing; when every cell it may sample
    within that bound is taken by the snake it sets [game_over]; and when
    it returns with [game_over] clear, the food lies on no segment. *)
Theorem generate_food_bounded (game : Game) (cfg : Config) (rng : Rand) :
  0 < board_width cfg -> 0 < board_height cfg ->
  0 <= length (snake game) <= INT_MAX ->
  (Z.to_nat (length (snake game)) <= List.length (body (snake game)))%nat ->
  exists (game' : Game) (rng' : Rand) (k : nat),
    generate_food game cfg rng = Some (game', rng') /\
    rand_seq rng' = rand_seq rng /\
    rand_calls rng' = (rand_calls rng + 2 * k)%nat /\
    Z.of_nat k <= 2 * board_width cfg * board_height cfg /\
    snake game' = snake game /\ score game' = score game /\
    (board_width cfg * board_height cfg <= length (snake game) ->
     game_over game' = true /\ k = 0%nat /\ rng' = rng /\ food game' = food game) /\
    ((forall j : nat,
         Z.of_nat j < 2 * board_width cfg * board_height cfg ->
         sample_cell cfg rng j ∈ segments (snake game)) ->
     game_over game' = true) /\
    (game_over game' = false -> food game' ∉ segments (snake game')).
Proof.
  intros Hw Hh HL Hblock.
  unfold generate_food.
  destruct (int_mul (board_width cfg) (board_height cfg) <=? length (snake game)) eqn:Hfull.
  - exists (set_game_over game true), rng, 0%nat. simpl.
    repeat split; try reflexivity; try lia; try discriminate.
  - set (n := Z.to_nat (int_mul (int_mul (board_width cfg) (board_height cfg))
                                FOOD_PLACEMENT_MAX_ATTEMPTS_MULTIPLIER)).
    assert (Hn : Z.of_nat n <= 2 * board_width cfg * board_height cfg).
    { apply attempts_le; try assumption. apply Z.leb_gt in Hfull. lia. }
    assert (Hroom : ~ board_width cfg * board_height cfg <= length (snake game)).
    { intros Hge. rewrite full_board_test in Hfull by (assumption || lia).
      discriminate Hfull. }
    destruct (place_food_spec n cfg game rng) as
      (valid & game1 & rng1 & k & Heq & Hs & Hsc & Hgo & Hp & Hseq & Hcalls
       & Hk & Hval & Hinv & Hall); [lia | lia | exact Hblock |].
    rewrite Heq.
    destruct valid.
    + exists game1, rng1, k.
      repeat split; try assumption; try lia.
      * intros Hsamples. specialize (Hall ltac:(intros j Hj; apply Hsamples; lia)).
        discriminate Hall.
      * intros _. rewrite Hs. apply Hval. reflexivity.
    + exists (set_game_over game1 true), rng1, k. simpl.
      repeat split; try assumption; try reflexivity; try lia; try discriminate.
Qed.

(** C7 on a 10 x 10 board with three segments. *)
Lemma generate_food_bounded_witness :
  exists (game' : Game) (rng' : Rand) (k : nat),
    generate_food at_wall board10 sevens = Some (game', rng') /\
    rand_seq rng' = rand_seq sevens /\
    rand_calls rng' = (rand_calls sevens + 2 * k)%nat /\
    Z.of_nat k <= 2 * board_width board10 * board_height board10 /\
    snake game' = snake at_wall /\ score game' = score at_wall /\
    (board_width board10 * board_height board10 <= length (snake at_wall) ->
     game_over game' = true /\ k = 0%nat /\ rng' = sevens
     /\ food game' = food at_wall) /\
    ((forall j : nat,
         Z.of_nat j < 2 * board_width board10 * board_height board10 ->
         sample_cell board10 sevens j ∈ segments (snake at_wall)) ->
     game_over game' = true) /\
    (game_over game' = false -> food game' ∉ segments (snake game')).
Proof.
  apply (generate_food_bounded at_wall board10 sevens).
  - reflexivity.
  - reflexivity.
  - vm_compute. split; discriminate.
  - vm_compute. lia.
Defined.

(** ** move_snake: the two growth rules *)

Lemma head_write_shifted (b : list Point) (n : nat) (h : Point) :
  (n < List.length b)%nat ->
  body_write (take 1 b ++ take n b ++ drop (S n) b) 0 h
  = Some (h :: take n b ++ drop (S n) b).
Proof.
  intros Hn. destruct b as [|a b]; [simpl in Hn; lia |].
  reflexivity.
Qed.

Lemma clear_of_body_iff (game : Game) (p : Point) :
  clear_of_body game p <->
  p ∉ take (Z.to_nat (length (snake game) - 1)) (drop 1 (body (snake game))).
Proof.
  rewrite elem_of_take. unfold clear_of_body. split.
  - intros Hclear (i & Hi & HiL).
    rewrite lookup_drop in Hi. apply (Hclear (1 + i)%nat); [lia | lia | exact Hi].
  - intros Hnot i Hi1 HiL Hbi.
    apply Hnot. exists (i - 1)%nat. rewrite lookup_drop.
    replace (1 + (i - 1))%nat with i by lia. split; [exact Hbi | lia].
Qed.

Lemma scan_clear (game : Game) (p : Point) :
  1 <= length (snake game) <= Z.of_nat (List.length (body (snake game))) ->
  clear_of_body game p ->
  scan_body (body (snake game)) 1 (Z.to_nat (length (snake game) - 1)) p = Some false.
Proof.
  intros Hlen Hclear. rewrite scan_body_spec by lia.
  apply clear_of_body_iff in Hclear.
  rewrite bool_decide_eq_false_2 by exact Hclear. reflexivity.
Qed.

(** In regular mode a move that hits nothing shifts the segments and
    stores the new head; on the food cell it then increments the length,
    adds to the score and calls generate_food. *)
Lemma advance_regular (game : Game) (cfg : Config) (rng : Rand) (nh : Point) :
  game_mode cfg = MODE_REGULAR ->
  well_formed game cfg ->
  clear_of_body game nh ->
  advance game cfg rng nh =
  if same_cell nh (food game) then
    generate_food
      {| food := food game;
         snake := {| body := moved_body game nh;
                     length := length (snake game) + 1;
                     max_length := max_length (snake game);
                     direction := direction (snake game) |};
         score := int_add (score game) POINTS_PER_FOOD;
         game_over := game_over game; paused := paused game |} cfg rng
  else Some (set_snake game (set_body (snake game) (moved_body game nh)), rng).
Proof.
  intros Hmode (Hw & Hh & Hfit & Hmax & Hblock & HL) Hclear.
  unfold advance. rewrite scan_clear by (exact Hclear || lia).
  cbn [mbind option_bind]. rewrite Hmode.
  unfold int_sub.
  rewrite (int_wrap_id (length (snake game) - 1)) by range_lia.
  rewrite shift_regular_spec by lia. cbn [mbind option_bind].
  rewrite head_write_shifted by lia. cbn [mbind option_bind].
  replace (S (Z.to_nat (length (snake game) - 1)))
    with (Z.to_nat (length (snake game))) by lia.
  unfold set_snake, set_body, set_length, set_score.
  cbn [snake length score body max_length direction food game_over paused].
  change (int_add (length (snake game)) 1) with (int_wrap (length (snake game) + 1)).
  rewrite (int_wrap_id (length (snake game) + 1)) by range_lia.
  reflexivity.
Qed.

(** In greedy mode a move that hits nothing and finds room shifts all the
    segments, stores the new head and increments the length; on the food
    cell it then adds to the score and calls generate_food. *)
Lemma advance_greedy (game : Game) (cfg : Config) (rng : Rand) (nh : Point) :
  game_mode cfg = MODE_GREEDY ->
  well_formed game cfg ->
  clear_of_body game nh ->
  length (snake game) < max_length (snake game) ->
  advance game cfg rng nh =
  let game1 :=
    {| food := food game;
       snake := {| body := grown_body game nh;
                   length := length (snake game) + 1;
                   max_length := max_length (snake game);
                   direction := direction (snake game) |};
       score := score game; game_over := game_over game; paused := paused game |} in
  if same_cell nh (food game) then
    generate_food (set_score game1 (int_add (score game) POINTS_PER_FOOD)) cfg rng
  else Some (game1, rng).
Proof.
  intros Hmode (Hw & Hh & Hfit & Hmax & Hblock & HL) Hclear Hroom.
  unfold advance. rewrite scan_clear by (exact Hclear || lia).
  cbn [mbind option_bind]. rewrite Hmode.
  destruct (max_length (snake game) <=? length (snake game)) eqn:Hcap;
    [apply Z.leb_le in Hcap; lia |].
  unfold int_sub.
  rewrite (int_wrap_id (length (snake game) - 1)) by range_lia.
  rewrite shift_greedy_regular.
  replace (Z.to_nat (length (snake game) - 1 + 1))
    with (Z.to_nat (length (snake game))) by lia.
  rewrite shift_regular_spec by lia. cbn [mbind option_bind].
  rewrite head_write_shifted by lia. cbn [mbind option_bind].
  replace (S (Z.to_nat (length (snake game))))
    with (Z.to_nat (length (snake game) + 1)) by lia.
  unfold set_snake, set_body, set_length, set_score.
  cbn [snake length score body max_length direction food game_over paused].
  change (int_add (length (snake game)) 1) with (int_wrap (length (snake game) + 1)).
  rewrite (int_wrap_id (length (snake game) + 1)) by range_lia.
  reflexivity.
Qed.

(** In greedy mode a snake as long as the block ends the game on its next
    move, whatever the move. *)
Lemma advance_greedy_full (game : Game) (cfg : Config) (rng : Rand) (nh : Point) :
  game_mode cfg = MODE_GREEDY ->
  well_formed game cfg ->
  max_length (snake game) <= length (snake game) ->
  advance game cfg rng nh = Some (set_game_over game true, rng).
Proof.
  intros Hmode (Hw & Hh & Hfit & Hmax & Hblock & HL) Hcap.
  unfold advance. rewrite scan_body_spec by lia.
  cbn [mbind option_bind]. rewrite Hmode.
  apply Z.leb_le in Hcap. rewrite Hcap.
  destruct (bool_decide _); reflexivity.
Qed.

Lemma move_snake_advance (game : Game) (cfg : Config) (rng : Rand) (nh : Point) :
  new_head game cfg = Some nh ->
  (wraparound_mode cfg = false -> in_board cfg nh) ->
  move_snake game cfg rng = advance game cfg rng nh.
Proof.
  intros Hnh Hin. unfold new_head in Hnh. unfold move_snake.
  destruct (body_read (body (snake game)) 0) as [hd|]; simpl in *; [| discriminate].
  injection Hnh as Hnh.
  destruct (wraparound_mode cfg); [subst nh; reflexivity |].
  subst nh. specialize (Hin eq_refl). apply off_board_false in Hin.
  rewrite Hin. reflexivity.
Qed.

Lemma well_formed_head (game : Game) (cfg : Config) :
  well_formed game cfg -> exists nh, new_head game cfg = Some nh.
Proof.
  intros (Hw & Hh & Hfit & Hmax & Hblock & HL). unfold new_head, body_read.
  destruct (lookup_lt_is_Some_2 (body (snake game)) 0) as [hd Hhd]; [lia |].
  rewrite Hhd. simpl. eauto.
Qed.

Lemma moved_body_length (game : Game) (nh : Point) :
  1 <= length (snake game) <= Z.of_nat (List.length (body (snake game))) ->
  List.length (moved_body game nh) = List.length (body (snake game)).
Proof.
  intros HL. unfold moved_body.
  rewrite length_cons, length_app, length_take, length_drop. lia.
Qed.

(** The move of regular mode leaves the slots from index [length] on as
    they were. *)
Lemma moved_body_behind (game : Game) (nh : Point) (i : nat) :
  1 <= length (snake game) <= Z.of_nat (List.length (body (snake game))) ->
  length (snake game) <= Z.of_nat i ->
  moved_body game nh !! i = body (snake game) !! i.
Proof.
  intros HL Hi. unfold moved_body.
  rewrite lookup_cons_ne_0 by lia.
  rewrite lookup_app_r by (rewrite length_take; lia).
  rewrite length_take, lookup_drop. f_equal. lia.
Qed.

(** The eating move of regular mode, with the snake it leaves. *)
Lemma regular_eat_spec (game : Game) (cfg : Config) (rng : Rand) (nh : Point) :
  game_mode cfg = MODE_REGULAR ->
  well_formed game cfg ->
  new_head game cfg = Some nh ->
  (wraparound_mode cfg = false -> in_board cfg nh) ->
  clear_of_body game nh ->
  nh = food game ->
  exists (game' : Game) (rng' : Rand),
    move_snake game cfg rng = Some (game', rng') /\
    snake game' = {| body := moved_body game nh;
                     length := length (snake game) + 1;
                     max_length := max_length (snake game);
                     direction := direction (snake game) |} /\
    score game' = int_add (score game) POINTS_PER_FOOD /\
    (game_over game' = false -> food game' ∉ segments (snake game')).
Proof.
  intros Hmode Hwf Hnh Hwall Hclear Hfood.
  rewrite (move_snake_advance game cfg rng nh Hnh Hwall).
  rewrite (advance_regular game cfg rng nh Hmode Hwf Hclear).
  replace (same_cell nh (food game)) with true
    by (symmetry; apply same_cell_true; exact Hfood).
  destruct Hwf as (Hw & Hh & Hfit & Hmax & Hblock & HL).
  set (game1 := mkGame _ _ _ _ _).
  destruct (generate_food_returns game1 cfg rng) as
    (game' & rng' & Heq & Hs & Hsc & Hfree).
  - exact Hw.
  - exact Hh.
  - subst game1; simpl. range_lia.
  - subst game1; cbn [snake length body]. intros Hroom.
    rewrite moved_body_length by lia. lia.
  - exists game', rng'. rewrite Heq.
    split; [reflexivity |]. split; [exact Hs |]. split; [exact Hsc | exact Hfree].
Qed.

(** The sampling loop stops at the first sampled cell that is free. *)
Lemma place_food_first_free (n : nat) (cfg : Config) (game : Game) (rng : Rand) (j : nat) :
  board_width cfg <> 0 -> board_height cfg <> 0 ->
  (Z.to_nat (length (snake game)) <= List.length (body (snake game)))%nat ->
  (j < n)%nat ->
  (forall i : nat, (i < j)%nat -> sample_cell cfg rng i ∈ segments (snake game)) ->
  sample_cell cfg rng j ∉ segments (snake game) ->
  place_food n cfg game rng
  = Some (true, set_food game (sample_cell cfg rng j),
          {| rand_seq := rand_seq rng; rand_calls := rand_calls rng + 2 * S j |}).
Proof.
  intros Hw Hh. revert game rng j.
  induction n as [|n IH]; intros game rng j Hblock Hj Htaken Hfree; [lia |].
  simpl place_food. unfold int_mod.
  apply Z.eqb_neq in Hw as Hw'. apply Z.eqb_neq in Hh as Hh'.
  rewrite Hw', Hh'. simpl.
  rewrite <- sample_cell_first.
  rewrite scan_body_spec by (simpl; lia).
  simpl drop. fold (segments (snake game)). simpl.
  destruct j as [|j].
  - rewrite bool_decide_eq_false_2 by exact Hfree.
    do 3 f_equal. lia.
  - rewrite bool_decide_eq_true_2 by (apply Htaken; lia).
    rewrite (IH _ _ j); cbn [set_food snake food rand_seq rand_calls].
    + rewrite sample_cell_next. do 3 f_equal. lia.
    + exact Hblock.
    + lia.
    + intros i Hi. rewrite sample_cell_next. apply Htaken. lia.
    + rewrite sample_cell_next. exact Hfree.
Qed.

(** The sampling loop with every sample on the snake: it uses all its
    attempts and leaves the food on the last sample. *)
Lemma place_food_all_taken (n : nat) (cfg : Config) (game : Game) (rng : Rand) :
  board_width cfg <> 0 -> board_height cfg <> 0 ->
  (Z.to_nat (length (snake game)) <= List.length (body (snake game)))%nat ->
  (forall j : nat, (j < n)%nat -> sample_cell cfg rng j ∈ segments (snake game)) ->
  place_food n cfg game rng
  = Some (false,
          match n with
          | O => game
          | S k => set_food game (sample_cell cfg rng k)
          end,
          {| rand_seq := rand_seq rng; rand_calls := rand_calls rng + 2 * n |}).
Proof.
  intros Hw Hh. revert game rng.
  induction n as [|n IH]; intros game rng Hblock Htaken.
  { simpl. destruct rng as [sq calls]; cbn [rand_seq rand_calls].
    do 2 f_equal. f_equal. lia. }
  simpl place_food. unfold int_mod.
  apply Z.eqb_neq in Hw as Hw'. apply Z.eqb_neq in Hh as Hh'.
  rewrite Hw', Hh'. simpl.
  rewrite <- sample_cell_first.
  rewrite scan_body_spec by (simpl; lia).
  simpl drop. fold (segments (snake game)). simpl.
  rewrite bool_decide_eq_true_2 by (apply Htaken; lia).
  rewrite IH; cbn [set_food snake food rand_seq rand_calls].
  - destruct n as [|n].
    + do 3 f_equal. lia.
    + rewrite sample_cell_next. cbn [set_food snake score game_over paused].
      do 3 f_equal. lia.
  - exact Hblock.
  - intros j Hj. rewrite sample_cell_next. apply Htaken. lia.
Qed.

(** generate_food, case by case. *)
Lemma generate_food_outcome (game : Game) (cfg : Config) (rng : Rand) :
  0 < board_width cfg -> 0 < board_height cfg ->
  board_width cfg * board_height cfg <= INT_MAX ->
  (length (snake game) < board_width cfg * board_height cfg ->
   (Z.to_nat (length (snake game)) <= List.length (body (snake game)))%nat) ->
  food_outcome cfg game rng (generate_food game cfg rng).
Proof.
  intros Hw Hh Hfit Hblock.
  assert (Htot : int_mul (board_width cfg) (board_height cfg)
                 = board_width cfg * board_height cfg).
  { unfold int_mul. apply int_wrap_id. unfold int_range, INT_MIN, INT_MAX in *. nia. }
  unfold food_outcome, generate_food. rewrite Htot.
  destruct (Z.leb_spec (board_width cfg * board_height cfg) (length (snake game)))
    as [Hfull | Hroom].
  { split; [intros _; reflexivity | intros Hlt; lia]. }
  split; [intros Hge; lia |]. intros _.
  fold (int_mul (board_width cfg * board_height cfg) FOOD_PLACEMENT_MAX_ATTEMPTS_MULTIPLIER).
  replace (Z.to_nat (int_mul (board_width cfg * board_height cfg)
                             FOOD_PLACEMENT_MAX_ATTEMPTS_MULTIPLIER))
    with (attempts cfg) by (unfold attempts; rewrite Htot; reflexivity).
  split.
  - intros j Hj Htaken Hfree.
    rewrite (place_food_first_free _ cfg game rng j);
      try assumption; try lia; try (apply Hblock, Hroom).
    reflexivity.
  - intros Htaken.
    rewrite place_food_all_taken;
      try assumption; try lia; try (apply Hblock, Hroom).
    reflexivity.
Qed.

(** C2, as the code has it.  In regular mode, a move whose new head is the
    food cell and hits neither a wall nor the body is a call of
    generate_food on the state with the body shifted under the new head,
    the length one more and the score ten more.  That call sets
    [game_over] and changes nothing else when the grown length has reached
    [width * height]; otherwise it puts the food on the first sample free
    of the grown snake, if there is one within the attempts, and changes
    nothing else; otherwise it gives up: [game_over] is set and the food
    is left on the last rejected sample.  In every case the move returns
    with the length one more and the score ten more, the segments before
    the new tail are the new head followed by the old segments but the
    last, and if the move does not end the game, the food it leaves is on
    no segment of the snake after the move. *)
Theorem regular_eat_grows (game : Game) (cfg : Config) (rng : Rand) (nh : Point) :
  game_mode cfg = MODE_REGULAR ->
  well_formed game cfg ->
  int_range (score game + POINTS_PER_FOOD) ->
  new_head game cfg = Some nh ->
  (wraparound_mode cfg = false -> in_board cfg nh) ->
  clear_of_body game nh ->
  nh = food game ->
  move_snake game cfg rng = generate_food (fed_regular game nh) cfg rng /\
  food_outcome cfg (fed_regular game nh) rng (move_snake game cfg rng) /\
  exists (game' : Game) (rng' : Rand),
    move_snake game cfg rng = Some (game', rng') /\
    length (snake game') = length (snake game) + 1 /\
    score game' = score game + 10 /\
    take (Z.to_nat (length (snake game))) (body (snake game'))
    = nh :: take (Z.to_nat (length (snake game) - 1)) (body (snake game)) /\
    (game_over game' = false -> food game' ∉ segments (snake game')).
Proof.
  intros Hmode Hwf Hscore Hnh Hwall Hclear Hfood.
  assert (Hcall : move_snake game cfg rng = generate_food (fed_regular game nh) cfg rng).
  { rewrite (move_snake_advance game cfg rng nh Hnh Hwall).
    rewrite (advance_regular game cfg rng nh Hmode Hwf Hclear).
    replace (same_cell nh (food game)) with true
      by (symmetry; apply same_cell_true; exact Hfood).
    unfold fed_regular, int_add. unfold POINTS_PER_FOOD in *.
    rewrite int_wrap_id by exact Hscore. reflexivity. }
  split; [exact Hcall |].
  split.
  { rewrite Hcall.
    destruct Hwf as (Hw & Hh & Hfit & Hmax & Hblock & HL).
    apply generate_food_outcome; try assumption; try lia.
    unfold fed_regular; cbn [snake length body]. intros Hroom.
    rewrite moved_body_length by lia. lia. }
  destruct (regular_eat_spec game cfg rng nh Hmode Hwf Hnh Hwall Hclear Hfood)
    as (game' & rng' & Heq & Hs & Hsc & Hfree).
  destruct Hwf as (Hw & Hh & Hfit & Hmax & Hblock & HL).
  exists game', rng'.
  split; [exact Heq |].
  split; [rewrite Hs; reflexivity |].
  split; [rewrite Hsc; unfold int_add; apply int_wrap_id; exact Hscore |].
  split; [| exact Hfree].
  rewrite Hs; cbn [body]. unfold moved_body.
  replace (Z.to_nat (length (snake game))) with (S (Z.to_nat (length (snake game) - 1)))
    at 1 by lia.
  rewrite firstn_cons. f_equal.
  rewrite take_app_le by (rewrite length_take; lia).
  rewrite take_take. f_equal. lia.
Qed.

(** C2 on the fresh snake with the food in front of it: the generator
    returns 2 for ever, the first sample (2,2) is free, and the move
    returns the grown snake with the food there, two random numbers
    used. *)
Lemma regular_eat_grows_witness :
  move_snake cruising board10 twos
  = Some (set_food (fed_regular cruising (mkPoint 6 5)) (mkPoint 2 2), advanced twos 2) /\
  exists (game' : Game) (rng' : Rand),
    move_snake cruising board10 twos = Some (game', rng') /\
    length (snake game') = length (snake cruising) + 1 /\
    score game' = score cruising + 10 /\
    take (Z.to_nat (length (snake cruising))) (body (snake game'))
    = mkPoint 6 5 :: take (Z.to_nat (length (snake cruising) - 1)) (body (snake cruising)) /\
    (game_over game' = false -> food game' ∉ segments (snake game')).
Proof.
  unshelve epose proof
    (regular_eat_grows cruising board10 twos (mkPoint 6 5) _ _ _ _ _ _ _)
    as (_ & [_ Hroom] & Hmove).
  - reflexivity.
  - unfold well_formed; simpl. unfold INT_MAX. lia.
  - vm_compute. split; discriminate.
  - reflexivity.
  - intros _. unfold in_board; simpl. lia.
  - intros i Hi1 HiL. simpl in HiL.
    destruct i as [|[|[|i]]]; try lia; discriminate.
  - reflexivity.
  - split; [| exact Hmove].
    destruct Hroom as [Hfirst _]; [simpl; lia |].
    apply (Hfirst 0%nat).
    + apply Nat.ltb_lt. vm_compute. reflexivity.
    + intros i Hi. lia.
    + apply (bool_decide_unpack _). vm_compute. exact I.
Defined.

(** C2 as stated fails: the food can stay under the snake.  On a 4 x 1
    board whose food is the one free cell, the first move eats it, the
    snake fills the board, generate_food ends the game and the food is
    left on the head. *)
Lemma regular_eat_food_under_snake :
  exists (cfg : Config) (game : Game) (rng : Rand) (game' : Game) (rng' : Rand),
    init_game narrow_env config = Some (cfg, game, rng) /\
    game_mode cfg = MODE_REGULAR /\ game_over game = false /\ paused game = false /\
    new_head game cfg = Some (food game) /\
    in_board cfg (food game) /\ clear_of_body game (food game) /\
    move_snake game cfg rng = Some (game', rng') /\
    length (snake game') = length (snake game) + 1 /\
    score game' = score game + 10 /\
    food game' ∈ segments (snake game').
Proof.
  eexists _, _, _, _, _.
  split; [vm_compute; reflexivity |].
  split; [reflexivity |]. split; [reflexivity |]. split; [reflexivity |].
  split; [reflexivity |].
  split; [unfold in_board; simpl; lia |].
  split.
  { intros i Hi1 HiL. simpl in HiL.
    destruct i as [|[|[|i]]]; try lia; discriminate. }
  split; [vm_compute; reflexivity |].
  split; [reflexivity |]. split; [reflexivity |].
  apply list_elem_of_here.
Qed.

Lemma move_snake_cases (game : Game) (cfg : Config) (rng : Rand) (nh : Point) :
  new_head game cfg = Some nh ->
  move_snake game cfg rng = Some (set_game_over game true, rng) \/
  move_snake game cfg rng = advance game cfg rng nh.
Proof.
  intros Hnh. unfold new_head in Hnh. unfold move_snake.
  destruct (body_read (body (snake game)) 0) as [hd|]; simpl in *; [| discriminate].
  injection Hnh as Hnh. subst nh.
  destruct (wraparound_mode cfg); [right; reflexivity |].
  destruct (off_board cfg _); [left | right]; reflexivity.
Qed.

Lemma hit_or_clear (game : Game) (cfg : Config) (p : Point) :
  well_formed game cfg ->
  scan_body (body (snake game)) 1 (Z.to_nat (length (snake game) - 1)) p = Some true \/
  clear_of_body game p.
Proof.
  intros (Hw & Hh & Hfit & Hmax & Hblock & HL).
  rewrite scan_body_spec by lia.
  case_bool_decide as Hin; [left; reflexivity | right].
  apply clear_of_body_iff, Hin.
Qed.

Lemma grown_segments (game : Game) (nh : Point) :
  0 <= length (snake game) <= Z.of_nat (List.length (body (snake game))) ->
  take (Z.to_nat (length (snake game) + 1)) (grown_body game nh)
  = nh :: segments (snake game).
Proof.
  intros HL. unfold grown_body, segments.
  replace (Z.to_nat (length (snake game) + 1))
    with (S (Z.to_nat (length (snake game)))) at 1 by lia.
  rewrite firstn_cons. f_equal.
  rewrite take_app_le by (rewrite length_take; lia).
  rewrite take_take. f_equal. lia.
Qed.

(** C3. In greedy mode every move returns.  A move whose new head is past
    no wall and on no segment, made by a snake shorter than
    [board_width * board_height], goes through: off the food it returns
    the state with the new head in front of all the old segments and the
    length one more, and nothing else changed, [game_over], score and food
    included; on the food it is a call of generate_food on that grown
    state with the score ten more and the length still only one more,
    with the outcomes of generate_food.  Seen from the result: a move that
    does not end the game makes the length exactly one more, whether the
    new head is on the food or not, the segments being the new head
    followed by all the old ones; on the food it makes the score exactly
    ten more, off the food it leaves score and food alone.  And a snake
    whose length has reached [board_width * board_height] gets
    [game_over] instead of growing, its body, length and score
    untouched. *)
Theorem greedy_move_grows (game : Game) (cfg : Config) (rng : Rand) (nh : Point) :
  game_mode cfg = MODE_GREEDY ->
  well_formed game cfg ->
  int_range (score game + POINTS_PER_FOOD) ->
  new_head game cfg = Some nh ->
  ((wraparound_mode cfg = false -> in_board cfg nh) ->
   clear_of_body game nh ->
   length (snake game) < board_width cfg * board_height cfg ->
   length (grown_snake game nh) = length (snake game) + 1 /\
   segments (grown_snake game nh) = nh :: segments (snake game) /\
   (nh <> food game ->
    move_snake game cfg rng = Some (set_snake game (grown_snake game nh), rng)) /\
   (nh = food game ->
    move_snake game cfg rng = generate_food (fed_greedy game nh) cfg rng /\
    food_outcome cfg (fed_greedy game nh) rng (move_snake game cfg rng))) /\
  (exists (game' : Game) (rng' : Rand),
      move_snake game cfg rng = Some (game', rng') /\
      (game_over game' = false ->
       length (snake game') = length (snake game) + 1 /\
       segments (snake game') = nh :: segments (snake game) /\
       (nh = food game -> score game' = score game + 10) /\
       (nh <> food game -> score game' = score game /\ food game' = food game))) /\
  (board_width cfg * board_height cfg <= length (snake game) ->
   only_ends game rng (move_snake game cfg rng)).
Proof.
  intros Hmode Hwf Hscore Hnh.
  split.
  { intros Hwall Hclear Hroom.
    pose proof Hwf as (Hw & Hh & Hfit & Hmax & Hblock & HL).
    split; [reflexivity |].
    split; [unfold segments, grown_snake; cbn [body length]; apply grown_segments; lia |].
    rewrite (move_snake_advance game cfg rng nh Hnh Hwall).
    rewrite (advance_greedy game cfg rng nh Hmode Hwf Hclear) by lia.
    cbv zeta. split.
    - intros Hne.
      replace (same_cell nh (food game)) with false
        by (symmetry; apply same_cell_false; exact Hne).
      reflexivity.
    - intros Heat.
      replace (same_cell nh (food game)) with true
        by (symmetry; apply same_cell_true; exact Heat).
      assert (Hfed : set_score
                       {| food := food game;
                          snake := {| body := grown_body game nh;
                                      length := length (snake game) + 1;
                                      max_length := max_length (snake game);
                                      direction := direction (snake game) |};
                          score := score game; game_over := game_over game;
                          paused := paused game |}
                       (int_add (score game) POINTS_PER_FOOD)
                     = fed_greedy game nh).
      { unfold fed_greedy, grown_snake, set_score, int_add.
        cbn [food snake score game_over paused]. unfold POINTS_PER_FOOD in *.
        rewrite int_wrap_id by exact Hscore. reflexivity. }
      rewrite Hfed. split; [reflexivity |].
      apply generate_food_outcome; try assumption; try lia.
      unfold fed_greedy, grown_snake, grown_body; cbn [snake length body]. intros _.
      rewrite length_cons, length_app, length_take, length_drop. lia. }
  destruct (Z_le_gt_dec (max_length (snake game)) (length (snake game))) as [Hcap | Hroom].
  { (* no room left: every path sets game_over *)
    assert (Hend : move_snake game cfg rng = Some (set_game_over game true, rng)).
    { destruct (move_snake_cases game cfg rng nh Hnh) as [Hend | Hadv]; [exact Hend |].
      rewrite Hadv. apply advance_greedy_full; assumption. }
    split; [| intros _; apply only_ends_intro, Hend].
    exists (set_game_over game true), rng. split; [exact Hend | discriminate]. }
  split; [| destruct Hwf as (_ & _ & _ & Hmax & _); intros Hfull; lia].
  destruct (move_snake_cases game cfg rng nh Hnh) as [Hend | Hadv].
  { exists (set_game_over game true), rng. split; [exact Hend | discriminate]. }
  destruct (hit_or_clear game cfg nh Hwf) as [Hhit | Hclear].
  { exists (set_game_over game true), rng.
    split; [rewrite Hadv; apply advance_hit, Hhit | discriminate]. }
  rewrite Hadv.
  rewrite (advance_greedy game cfg rng nh Hmode Hwf Hclear) by lia.
  destruct Hwf as (Hw & Hh & Hfit & Hmax & Hblock & HL).
  cbv zeta.
  destruct (same_cell nh (food game)) eqn:Heat.
  - apply same_cell_true in Heat.
    unfold set_score; cbn [food snake score game_over paused].
    set (game1 := mkGame _ _ _ _ _).
    destruct (generate_food_returns game1 cfg rng) as
      (game' & rng' & Heq & Hs & Hsc & _).
    + exact Hw.
    + exact Hh.
    + subst game1; simpl. range_lia.
    + subst game1; cbn [snake length body]. unfold grown_body. intros _.
      rewrite length_cons, length_app, length_take, length_drop. lia.
    + exists game', rng'. rewrite Heq. split; [reflexivity |].
      intros _. unfold segments at 1.
      rewrite Hs, Hsc. subst game1; cbn [snake length body score].
      split; [reflexivity |].
      split; [apply grown_segments; lia |].
      split; [intros _; unfold int_add; apply int_wrap_id; exact Hscore |].
      intros Hne. contradiction.
  - apply same_cell_false in Heat.
    eexists _, rng. split; [reflexivity |].
    intros _. unfold segments at 1. cbn [snake length score food body].
    split; [reflexivity |].
    split; [apply grown_segments; lia |].
    split; [intros Hfood; contradiction |].
    intros _. split; reflexivity.
Qed.

(** C3 on the fresh snake with the food in front of it: the move goes
    through, the snake is (6,5), (5,5), (4,5), (3,5), the score is 10 and
    the food is on the first sample, (2,2); the game goes on. *)
Lemma greedy_move_grows_witness :
  move_snake cruising greedy10 twos
  = Some (set_food (fed_greedy cruising (mkPoint 6 5)) (mkPoint 2 2), advanced twos 2) /\
  segments (grown_snake cruising (mkPoint 6 5))
  = [mkPoint 6 5; mkPoint 5 5; mkPoint 4 5; mkPoint 3 5].
Proof.
  unshelve epose proof
    (greedy_move_grows cruising greedy10 twos (mkPoint 6 5) _ _ _ _)
    as (Hgoes & _ & _).
  - reflexivity.
  - unfold well_formed; simpl. unfold INT_MAX. lia.
  - vm_compute. split; discriminate.
  - reflexivity.
  - destruct Hgoes as (_ & Hsegs & _ & Heat).
    + intros _. unfold in_board; simpl. lia.
    + intros i Hi1 HiL. simpl in HiL.
      destruct i as [|[|[|i]]]; try lia; discriminate.
    + simpl. lia.
    + split; [| exact Hsegs].
      destruct (Heat eq_refl) as (_ & _ & Hroom).
      destruct Hroom as [Hfirst _]; [simpl; lia |].
      apply (Hfirst 0%nat).
      * apply Nat.ltb_lt. vm_compute. reflexivity.
      * intros i Hi. lia.
      * apply (bool_decide_unpack _). vm_compute. exact I.
Defined.

(** ** init_game *)

(** The fresh block, its first three slots named. *)
Lemma malloc_three (junk : nat -> Point) (n : Z) :
  3 <= n ->
  exists rest,
    malloc junk n = Some (junk 0%nat :: junk 1%nat :: junk 2%nat :: rest) /\
    Z.of_nat (List.length rest) = n - 3 /\
    forall i : nat, Z.of_nat i < n - 3 -> rest !! i = Some (junk (3 + i)%nat).
Proof.
  intros Hn. unfold malloc.
  destruct (n <? 0) eqn:Hneg; [apply Z.ltb_lt in Hneg; lia |].
  replace (Z.to_nat n) with (3 + Z.to_nat (n - 3))%nat by lia.
  rewrite seq_app. simpl.
  exists (junk <$> seq 3 (Z.to_nat (n - 3))).
  split; [reflexivity |].
  split; [rewrite length_fmap, length_seq; lia |].
  intros i Hi. rewrite list_lookup_fmap, lookup_seq_lt by lia. reflexivity.
Qed.

(** What init_game returns on a board of four columns or more. *)
Lemma init_game_spec (env : Env) (cfg : Config) :
  4 <= board_width (get_terminal_size env cfg) ->
  1 <= board_height (get_terminal_size env cfg) ->
  board_width (get_terminal_size env cfg) * board_height (get_terminal_size env cfg)
    <= INT_MAX ->
  exists rest (fd : Point) (rng : Rand),
    let cfg' := get_terminal_size env cfg in
    let cx := board_width cfg' / 2 in
    let cy := board_height cfg' / 2 in
    init_game env cfg =
    Some (cfg',
          {| food := fd;
             snake := {| body := mkPoint cx cy :: mkPoint (cx - 1) cy
                                  :: mkPoint (cx - 2) cy :: rest;
                         length := 3;
                         max_length := board_width cfg' * board_height cfg';
                         direction := RIGHT |};
             score := 0; game_over := false; paused := false |}, rng) /\
    Z.of_nat (List.length rest) = board_width cfg' * board_height cfg' - 3 /\
    (forall i : nat,
        Z.of_nat i < board_width cfg' * board_height cfg' - 3 ->
        rest !! i = Some (heap_junk env (3 + i)%nat)).
Proof.
  intros Hw Hh Hfit. unfold init_game.
  set (cfg' := get_terminal_size env cfg) in *.
  assert (Hmul : int_mul (board_width cfg') (board_height cfg')
                 = board_width cfg' * board_height cfg').
  { unfold int_mul. apply int_wrap_id. unfold int_range, INT_MIN, INT_MAX in *. nia. }
  rewrite Hmul.
  destruct (malloc_three (heap_junk env) (board_width cfg' * board_height cfg'))
    as (rest & Hblock & Hlen & Hrest); [nia |].
  rewrite Hblock.
  assert (Hcx : int_quot (board_width cfg') 2 = board_width cfg' / 2).
  { unfold int_quot. rewrite Z.quot_div_nonneg by lia.
    apply int_wrap_id. unfold int_range, INT_MIN, INT_MAX in *.
    pose proof (Z.div_pos (board_width cfg') 2).
    pose proof (Z.div_le_upper_bound (board_width cfg') 2 (board_width cfg')). nia. }
  assert (Hcy : int_quot (board_height cfg') 2 = board_height cfg' / 2).
  { unfold int_quot. rewrite Z.quot_div_nonneg by lia.
    apply int_wrap_id. unfold int_range, INT_MIN, INT_MAX in *.
    pose proof (Z.div_pos (board_height cfg') 2).
    pose proof (Z.div_le_upper_bound (board_height cfg') 2 (board_height cfg')). nia. }
  rewrite Hcx, Hcy.
  assert (Hdiv : 2 <= board_width cfg' / 2 <= INT_MAX).
  { pose proof (Z.div_le_lower_bound (board_width cfg') 2 2).
    pose proof (Z.div_le_upper_bound (board_width cfg') 2 (board_width cfg')).
    unfold INT_MAX in *. nia. }
  unfold body_read, body_write, int_mod, rand. simpl.
  destruct (board_width cfg' =? 0) eqn:Hw0; [apply Z.eqb_eq in Hw0; lia |].
  destruct (board_height cfg' =? 0) eqn:Hh0; [apply Z.eqb_eq in Hh0; lia |].
  simpl. unfold int_sub.
  rewrite (int_wrap_id (board_width cfg' / 2 - 1)) by range_lia.
  rewrite (int_wrap_id (board_width cfg' / 2 - 2)) by range_lia.
  eexists rest, _, _. split; [reflexivity |].
  split; [exact Hlen | exact Hrest].
Qed.

(** init_game sets up a well-formed state. *)
Lemma init_game_well_formed (env : Env) (cfg cfg' : Config) (game : Game) (rng : Rand) :
  4 <= board_width (get_terminal_size env cfg) ->
  1 <= board_height (get_terminal_size env cfg) ->
  board_width (get_terminal_size env cfg) * board_height (get_terminal_size env cfg)
    < INT_MAX ->
  init_game env cfg = Some (cfg', game, rng) ->
  well_formed game cfg'.
Proof.
  intros Hw Hh Hfit Hinit.
  destruct (init_game_spec env cfg Hw Hh) as (rest & fd & rng0 & Heq & Hlen & _); [lia |].
  cbv zeta in Heq. rewrite Heq in Hinit. injection Hinit as <- <- <-.
  unfold well_formed; cbn [snake body length max_length].
  rewrite !length_cons. repeat split; try lia; nia.
Qed.

(** C5, as the code has it.  On a board of at least four columns and one
    row whose cells an [int] can count, init_game makes a snake of length
    exactly 3 whose head is at [(width/2, height/2)] and whose two other
    segments follow it to the left on the same row; the three segments
    are collinear and lie on the board. *)
Theorem init_game_snake (env : Env) (cfg : Config) :
  4 <= board_width (get_terminal_size env cfg) ->
  1 <= board_height (get_terminal_size env cfg) ->
  board_width (get_terminal_size env cfg) * board_height (get_terminal_size env cfg)
    <= INT_MAX ->
  exists (game : Game) (rng : Rand) (hd s1 s2 : Point),
    let cfg' := get_terminal_size env cfg in
    init_game env cfg = Some (cfg', game, rng) /\
    length (snake game) = 3 /\
    segments (snake game) = [hd; s1; s2] /\
    hd = mkPoint (board_width cfg' / 2) (board_height cfg' / 2) /\
    s1 = mkPoint (board_width cfg' / 2 - 1) (board_height cfg' / 2) /\
    s2 = mkPoint (board_width cfg' / 2 - 2) (board_height cfg' / 2) /\
    collinear hd s1 s2 /\
    in_board cfg' hd /\ in_board cfg' s1 /\ in_board cfg' s2.
Proof.
  intros Hw Hh Hfit.
  destruct (init_game_spec env cfg Hw Hh Hfit) as (rest & fd & rng & Heq & _ & _).
  cbv zeta in Heq.
  set (cfg' := get_terminal_size env cfg) in *.
  eexists _, rng, _, _, _. cbv zeta.
  split; [exact Heq |].
  split; [reflexivity |].
  split; [reflexivity |].
  split; [reflexivity |]. split; [reflexivity |]. split; [reflexivity |].
  assert (Hcx : 2 <= board_width cfg' / 2 < board_width cfg').
  { pose proof (Z.div_le_lower_bound (board_width cfg') 2 2).
    pose proof (Z.div_lt_upper_bound (board_width cfg') 2 (board_width cfg')). lia. }
  assert (Hcy : 0 <= board_height cfg' / 2 < board_height cfg').
  { pose proof (Z.div_pos (board_height cfg') 2).
    pose proof (Z.div_lt_upper_bound (board_height cfg') 2 (board_height cfg')). lia. }
  unfold collinear, in_board; cbn [x y].
  repeat split; lia.
Qed.

(** C5 on a 10 x 10 board. *)
Lemma init_game_snake_witness :
  exists (game : Game) (rng : Rand) (hd s1 s2 : Point),
    let cfg' := get_terminal_size env10 config in
    init_game env10 config = Some (cfg', game, rng) /\
    length (snake game) = 3 /\
    segments (snake game) = [hd; s1; s2] /\
    hd = mkPoint (board_width cfg' / 2) (board_height cfg' / 2) /\
    s1 = mkPoint (board_width cfg' / 2 - 1) (board_height cfg' / 2) /\
    s2 = mkPoint (board_width cfg' / 2 - 2) (board_height cfg' / 2) /\
    collinear hd s1 s2 /\
    in_board cfg' hd /\ in_board cfg' s1 /\ in_board cfg' s2.
Proof.
  apply (init_game_snake env10 config).
  - vm_compute. discriminate.
  - vm_compute. discriminate.
  - vm_compute. discriminate.
Defined.

(** C5 as stated fails.  A board of three columns is accepted like any
    other, and the tail of the fresh snake is off it, at column -1; on a
    board of one cell the snake does not even fit the block init_game
    allocates. *)
Lemma init_game_small_board :
  (exists (cfg : Config) (game : Game) (rng : Rand),
      init_game tiny_env config = Some (cfg, game, rng) /\
      1 <= board_width cfg /\ 1 <= board_height cfg /\
      length (snake game) = 3 /\
      mkPoint (-1) 0 ∈ segments (snake game) /\
      ~ in_board cfg (mkPoint (-1) 0)) /\
  1 <= board_width (get_terminal_size unit_env config) /\
  1 <= board_height (get_terminal_size unit_env config) /\
  init_game unit_env config = None.
Proof.
  split.
  - eexists _, _, _.
    split; [vm_compute; reflexivity |].
    split; [simpl; lia |]. split; [simpl; lia |].
    split; [reflexivity |].
    split.
    + apply list_elem_of_further, list_elem_of_further, list_elem_of_here.
    + unfold in_board; simpl. lia.
  - split; [simpl; lia |]. split; [simpl; lia |]. vm_compute. reflexivity.
Qed.

Lemma get_terminal_size_keeps (env : Env) (cfg : Config) :
  game_mode (get_terminal_size env cfg) = game_mode cfg /\
  wraparound_mode (get_terminal_size env cfg) = wraparound_mode cfg.
Proof.
  unfold get_terminal_size.
  destruct (winsize env) as [[ws_col ws_row]|]; split; reflexivity.
Qed.

(** C9. On a 10 x 10 board in regular mode with walls, the fresh snake is
    (5,5), (4,5), (3,5) and faces right; one move_snake with the food
    elsewhere than (6,5) makes it (6,5), (5,5), (4,5), of length 3 still,
    the score 0 still, and the game goes on. *)
Theorem first_move_10x10 (env : Env) (cfg : Config) :
  board_width (get_terminal_size env cfg) = 10 ->
  board_height (get_terminal_size env cfg) = 10 ->
  game_mode cfg = MODE_REGULAR ->
  wraparound_mode cfg = false ->
  exists (cfg' : Config) (game : Game) (rng : Rand),
    init_game env cfg = Some (cfg', game, rng) /\
    cfg' = get_terminal_size env cfg /\
    segments (snake game) = [mkPoint 5 5; mkPoint 4 5; mkPoint 3 5] /\
    direction (snake game) = RIGHT /\
    length (snake game) = 3 /\ score game = 0 /\
    (food game <> mkPoint 6 5 ->
     exists game',
       move_snake game cfg' rng = Some (game', rng) /\
       segments (snake game') = [mkPoint 6 5; mkPoint 5 5; mkPoint 4 5] /\
       length (snake game') = 3 /\ score game' = 0 /\ game_over game' = false).
Proof.
  intros Hw Hh Hmode Hwrap.
  destruct (get_terminal_size_keeps env cfg) as [Hmode' Hwrap'].
  rewrite Hmode in Hmode'. rewrite Hwrap in Hwrap'.
  assert (Hfit : board_width (get_terminal_size env cfg)
                 * board_height (get_terminal_size env cfg) < INT_MAX)
    by (rewrite Hw, Hh; reflexivity).
  pose proof (init_game_well_formed env cfg) as Hwf.
  destruct (init_game_spec env cfg) as (rest & fd & rng & Heq & Hlen & _);
    [lia | lia | lia |].
  cbv zeta in Heq.
  set (cfg' := get_terminal_size env cfg) in *.
  rewrite Hw, Hh in Heq. change (10 / 2) with 5 in Heq.
  change (5 - 1) with 4 in Heq. change (5 - 2) with 3 in Heq.
  specialize (Hwf _ _ _ ltac:(lia) ltac:(lia) Hfit Heq).
  eexists cfg', _, rng.
  split; [exact Heq |]. split; [reflexivity |].
  split; [reflexivity |]. split; [reflexivity |].
  split; [reflexivity |]. split; [reflexivity |].
  cbn [food]. intros Hfood.
  set (game := mkGame _ _ _ _ _) in *.
  assert (Hclear : clear_of_body game (mkPoint 6 5)).
  { intros i Hi1 HiL. subst game; cbn [snake length body] in *.
    destruct i as [|[|[|i]]]; try lia; cbn; discriminate. }
  rewrite (move_snake_advance game cfg' rng (mkPoint 6 5)).
  - rewrite (advance_regular game cfg' rng (mkPoint 6 5) Hmode' Hwf Hclear).
    replace (same_cell (mkPoint 6 5) (food game)) with false.
    + eexists. split; [reflexivity |].
      repeat split; reflexivity.
    + symmetry. apply same_cell_false. subst game; cbn [food]. congruence.
  - subst game. unfold new_head. cbn. rewrite Hwrap'. reflexivity.
  - intros _. unfold in_board; cbn [x y]. lia.
Qed.

(** C9 for a game started with [-w 10 -h 10]. *)
Lemma first_move_10x10_witness :
  exists (cfg' : Config) (game : Game) (rng : Rand),
    init_game env10 config = Some (cfg', game, rng) /\
    cfg' = get_terminal_size env10 config /\
    segments (snake game) = [mkPoint 5 5; mkPoint 4 5; mkPoint 3 5] /\
    direction (snake game) = RIGHT /\
    length (snake game) = 3 /\ score game = 0 /\
    (food game <> mkPoint 6 5 ->
     exists game',
       move_snake game cfg' rng = Some (game', rng) /\
       segments (snake game') = [mkPoint 6 5; mkPoint 5 5; mkPoint 4 5] /\
       length (snake game') = 3 /\ score game' = 0 /\ game_over game' = false).
Proof.
  apply (first_move_10x10 env10 config); reflexivity.
Defined.

(** ** Timing *)

Lemma int_div_positive (fps : Z) :
  0 < fps -> int_div MICROSECONDS_PER_SECOND fps = Some (1000000 / fps).
Proof.
  intros Hfps. unfold int_div, int_quot, MICROSECONDS_PER_SECOND.
  destruct (fps =? 0) eqn:H0; [apply Z.eqb_eq in H0; lia |].
  rewrite Z.quot_div_nonneg by lia. f_equal.
  apply int_wrap_id.
  pose proof (Z.div_pos 1000000 fps).
  pose proof (Z.div_le_upper_bound 1000000 fps 1000000).
  range_lia.
Qed.

(** An iteration of the loop moves the two time stamps exactly when the
    corresponding tick is due (and, for the move, the game is not paused). *)
Lemma loop_body_stamps (cfg : Config) (t : Tick) (st st' : Loop) :
  loop_body cfg t st = Some st' ->
  last_render st'
  = (if due (elapsed_us t) (last_render st) (render_interval cfg)
     then elapsed_us t else last_render st) /\
  last_move st'
  = (if due (elapsed_us t) (last_move st) (move_interval cfg)
        && negb (paused (handle_input (cur_game st) (pending st ++ typed t)).1)
     then elapsed_us t else last_move st).
Proof.
  unfold loop_body.
  destruct (handle_input (cur_game st) (pending st ++ typed t)) as [game stdin].
  cbn [fst].
  destruct (due (elapsed_us t) (last_move st) (move_interval cfg) && negb (paused game)).
  - destruct (move_snake game cfg (cur_rng st)) as [[game' rng']|]; [| discriminate].
    cbn [mbind option_bind fst snd].
    destruct (due (elapsed_us t) (last_render st) (render_interval cfg)).
    + destruct (draw_board game' cfg) as [f|]; [| discriminate].
      cbn [mbind option_bind]. intros [= <-]. split; reflexivity.
    + cbn [mbind option_bind]. intros [= <-]. split; reflexivity.
  - cbn [mbind option_bind].
    destruct (due (elapsed_us t) (last_render st) (render_interval cfg)).
    + destruct (draw_board game cfg) as [f|]; [| discriminate].
      cbn [mbind option_bind]. intros [= <-]. split; reflexivity.
    + cbn [mbind option_bind]. intros [= <-]. split; reflexivity.
Qed.

(** C8. For positive frame rates calculate_intervals stores
    [1000000 / render_fps] and [1000000 / move_fps], integer divisions; a
    tick is due exactly when [now - last >= interval]; once [last] is
    [now], no tick is due at any [now' < now + interval]; and the loop
    moves a time stamp to the clock reading exactly when its tick is due
    (the move only when the game is not paused). *)
Theorem tick_timing (cfg : Config) (now last now' interval : Z) :
  0 < render_fps cfg -> 0 < move_fps cfg ->
  llong_range (now - last) -> llong_range (now' - now) ->
  (exists cfg',
      calculate_intervals cfg = Some cfg' /\
      render_interval cfg' = 1000000 / render_fps cfg /\
      move_interval cfg' = 1000000 / move_fps cfg /\
      render_fps cfg * render_interval cfg' <= 1000000
        < render_fps cfg * (render_interval cfg' + 1) /\
      move_fps cfg * move_interval cfg' <= 1000000
        < move_fps cfg * (move_interval cfg' + 1)) /\
  (due now last interval = true <-> now - last >= interval) /\
  (now' < now + interval -> due now' now interval = false) /\
  (forall (t : Tick) (st st' : Loop),
      loop_body cfg t st = Some st' ->
      last_render st'
      = (if due (elapsed_us t) (last_render st) (render_interval cfg)
         then elapsed_us t else last_render st) /\
      last_move st'
      = (if due (elapsed_us t) (last_move st) (move_interval cfg)
            && negb (paused (handle_input (cur_game st) (pending st ++ typed t)).1)
         then elapsed_us t else last_move st)).
Proof.
  intros Hr Hm Hnow Hnow'.
  split; [| split; [| split]].
  - unfold calculate_intervals.
    rewrite !int_div_positive by assumption. cbn [mbind option_bind].
    eexists. split; [reflexivity |]. cbn [render_interval move_interval].
    split; [reflexivity |]. split; [reflexivity |].
    pose proof (Z.mul_div_le 1000000 (render_fps cfg) Hr).
    pose proof (Z.mul_succ_div_gt 1000000 (render_fps cfg) Hr).
    pose proof (Z.mul_div_le 1000000 (move_fps cfg) Hm).
    pose proof (Z.mul_succ_div_gt 1000000 (move_fps cfg) Hm).
    lia.
  - unfold due, llong_sub. rewrite llong_wrap_id by exact Hnow.
    rewrite Z.leb_le. lia.
  - intros Hearly. unfold due, llong_sub. rewrite llong_wrap_id by exact Hnow'.
    apply Z.leb_gt. lia.
  - intros t st st'. apply loop_body_stamps.
Qed.

(** C8 at the default frame rates. *)
Lemma tick_timing_witness :
  (exists cfg',
      calculate_intervals config = Some cfg' /\
      render_interval cfg' = 1000000 / render_fps config /\
      move_interval cfg' = 1000000 / move_fps config /\
      render_fps config * render_interval cfg' <= 1000000
        < render_fps config * (render_interval cfg' + 1) /\
      move_fps config * move_interval cfg' <= 1000000
        < move_fps config * (move_interval cfg' + 1)) /\
  (due 200000 33334 166666 = true <-> 200000 - 33334 >= 166666) /\
  (250000 < 200000 + 166666 -> due 250000 200000 166666 = false).
Proof.
  destruct (tick_timing config 200000 33334 250000 166666) as (H1 & H2 & H3 & _).
  - reflexivity.
  - reflexivity.
  - vm_compute. split; discriminate.
  - vm_compute. split; discriminate.
  - exact (conj H1 (conj H2 H3)).
Defined.

(** ** Input *)

Lemma turn_direction (game : Game) (unless to : Direction) :
  unless = opposite to ->
  direction (snake (turn game unless to)) <> opposite (direction (snake game)).
Proof.
  intros ->. unfold turn.
  destruct (decide (direction (snake game) = opposite to)) as [Heq | Hne].
  - destruct (direction (snake game)); discriminate.
  - cbn [set_snake set_direction snake direction].
    intros Hto. apply Hne. rewrite Hto.
    destruct (direction (snake game)); reflexivity.
Qed.

Lemma same_direction_not_opposite (game : Game) :
  direction (snake game) <> opposite (direction (snake game)).
Proof. destruct (direction (snake game)); discriminate. Qed.

(** One call of handle_input never stores the reverse of the direction it
    found. *)
Lemma handle_input_no_reverse (game : Game) (stdin : list ascii) :
  direction (snake (handle_input game stdin).1) <> opposite (direction (snake game)).
Proof.
  pose proof (same_direction_not_opposite game) as Hsame.
  unfold handle_input.
  destruct stdin as [|c stdin]; [exact Hsame |].
  destruct (Ascii.eqb c ESC).
  - destruct stdin as [|seq1 stdin]; [exact Hsame |].
    destruct (Ascii.eqb seq1 "["%char); [| exact Hsame].
    destruct stdin as [|seq2 stdin]; [exact Hsame |].
    cbn [fst]. unfold arrow_key.
    destruct seq2 as [[] [] [] [] [] [] [] []];
      first [exact Hsame | apply turn_direction; reflexivity].
  - cbn [fst]. unfold plain_key.
    destruct c as [[] [] [] [] [] [] [] []];
      first [exact Hsame | apply turn_direction; reflexivity].
Qed.

(** C4 fails on the code.  One call of handle_input never stores the
    reverse of the direction it finds, but two calls between two move
    ticks can.  In a 10 x 10 game the first move tick uses RIGHT; the keys
    [w] and [a], read by two iterations before the next move tick, are
    both accepted (UP is not the reverse of RIGHT, LEFT is not the reverse
    of UP); the next move tick uses LEFT, the reverse of RIGHT, the head
    runs into the second segment and the game is over. *)
Theorem two_turns_reverse :
  (forall (game : Game) (stdin : list ascii),
      direction (snake (handle_input game stdin).1) <> opposite (direction (snake game))) /\
  exists (cfg : Config) (st st' : Loop),
    main_start env10 config = Some (cfg, st) /\
    main_loop cfg quick_turns st = Some st' /\
    moved st' = [LEFT; RIGHT] /\
    ~ no_reversal (moved st') /\
    game_over (cur_game st') = true /\
    score (cur_game st') = 0.
Proof.
  split; [exact handle_input_no_reverse |].
  eexists _, _, _.
  split; [vm_compute; reflexivity |].
  split; [vm_compute; reflexivity |].
  split; [reflexivity |].
  split; [| split; reflexivity].
  cbn. intros [Hrev _]. apply Hrev. reflexivity.
Qed.

(** ** The slot behind the tail *)


Lemma turn_snake (game : Game) (unless to : Direction) :
  body (snake (turn game unless to)) = body (snake game) /\
  length (snake (turn game unless to)) = length (snake game) /\
  max_length (snake (turn game unless to)) = max_length (snake game).
Proof. unfold turn. case_decide; repeat split; reflexivity. Qed.

(** Reading a key leaves the block, the length and the capacity alone. *)
Lemma handle_input_snake (game : Game) (stdin : list ascii) :
  body (snake (handle_input game stdin).1) = body (snake game) /\
  length (snake (handle_input game stdin).1) = length (snake game) /\
  max_length (snake (handle_input game stdin).1) = max_length (snake game).
Proof.
  assert (Hsame : body (snake game) = body (snake game) /\
                  length (snake game) = length (snake game) /\
                  max_length (snake game) = max_length (snake game))
    by (repeat split; reflexivity).
  unfold handle_input.
  destruct stdin as [|c stdin]; [exact Hsame |].
  destruct (Ascii.eqb c ESC).
  - destruct stdin as [|seq1 stdin]; [exact Hsame |].
    destruct (Ascii.eqb seq1 "["%char); [| exact Hsame].
    destruct stdin as [|seq2 stdin]; [exact Hsame |].
    cbn [fst]. unfold arrow_key.
    destruct seq2 as [[] [] [] [] [] [] [] []];
      first [exact Hsame | apply turn_snake].
  - cbn [fst]. unfold plain_key.
    destruct c as [[] [] [] [] [] [] [] []];
      first [exact Hsame | apply turn_snake].
Qed.




(** The configuration init_game returns is the one get_terminal_size made. *)
Lemma init_game_config (env : Env) (cfg0 cfg : Config) (game : Game) (rng : Rand) :
  init_game env cfg0 = Some (cfg, game, rng) -> cfg = get_terminal_size env cfg0.
Proof.
  unfold init_game, rand. cbn [rand_seq rand_calls].
  intros Hinit.
  repeat match type of Hinit with
         | (?m ≫= _) = Some _ =>
             destruct m; cbn [mbind option_bind] in Hinit; [| discriminate]
         end.
  injection Hinit as <- _ _. reflexivity.
Qed.



(** * Further properties of the moves *)

(** ** What a move can and cannot change *)

Lemma shift_regular_length (n : nat) (b b' : list Point) :
  shift_regular n b = Some b' -> List.length b' = List.length b.
Proof.
  revert b. induction n as [|j IH]; intros b; simpl.
  - intros [= <-]. reflexivity.
  - destruct (body_read b j) as [p|]; simpl; [| discriminate].
    unfold body_write. case_decide; simpl; [| discriminate].
    intros Hrec. rewrite (IH _ Hrec). apply length_insert.
Qed.

Lemma body_write_length (b b' : list Point) (i : nat) (p : Point) :
  body_write b i p = Some b' -> List.length b' = List.length b.
Proof.
  unfold body_write. case_decide; [| discriminate].
  intros [= <-]. apply length_insert.
Qed.

(** The sampling loop, read from a successful run: only the food and the
    generator's counter move, and a valid food is one of the samples. *)
Lemma place_food_frame (n : nat) (cfg : Config) (game game' : Game)
    (rng rng' : Rand) (valid : bool) :
  place_food n cfg game rng = Some (valid, game', rng') ->
  snake game' = snake game /\ score game' = score game /\
  game_over game' = game_over game /\ paused game' = paused game /\
  rand_seq rng' = rand_seq rng /\ (rand_calls rng <= rand_calls rng')%nat /\
  (valid = true -> exists j : nat, food game' = sample_cell cfg rng j).
Proof.
  revert game rng. induction n as [|n IH]; intros game rng; simpl.
  - intros [= <- <- <-]. repeat split; try reflexivity. discriminate.
  - unfold int_mod.
    destruct (board_width cfg =? 0); simpl; [discriminate |].
    destruct (board_height cfg =? 0); simpl; [discriminate |].
    rewrite <- sample_cell_first.
    destruct (scan_body _ _ _ _) as [[|]|]; simpl; [| | discriminate].
    + intros Hrec. apply IH in Hrec.
      destruct Hrec as (Hs & Hsc & Hgo & Hp & Hseq & Hcalls & Hval).
      simpl in *. repeat split; try assumption; try lia.
      intros Hv. destruct (Hval Hv) as [j Hj]. exists (S j).
      rewrite Hj. apply sample_cell_next.
    + intros [= <- <- <-]. simpl. repeat split; try reflexivity; try lia.
      intros _. exists 0%nat. reflexivity.
Qed.

(** generate_food, read from a successful run. *)
Lemma generate_food_frame (game game' : Game) (cfg : Config) (rng rng' : Rand) :
  generate_food game cfg rng = Some (game', rng') ->
  snake game' = snake game /\ score game' = score game /\
  paused game' = paused game /\
  (game_over game' = true \/ game_over game' = game_over game) /\
  rand_seq rng' = rand_seq rng /\ (rand_calls rng <= rand_calls rng')%nat /\
  (game_over game' = false -> exists j : nat, food game' = sample_cell cfg rng j).
Proof.
  unfold generate_food.
  destruct (_ <=? length (snake game)).
  - intros [= <- <-]. simpl.
    repeat split; try reflexivity; try lia; try (left; reflexivity); try discriminate.
  - destruct (place_food _ cfg game rng) as [[[valid game1] rng1]|] eqn:Hplace;
      [| discriminate].
    apply place_food_frame in Hplace.
    destruct Hplace as (Hs & Hsc & Hgo & Hp & Hseq & Hcalls & Hval).
    destruct valid; intros [= <- <-]; simpl.
    + repeat split; try assumption. { right; exact Hgo. }
      intros _. apply Hval. reflexivity.
    + repeat split; try assumption. { left; reflexivity. }
      discriminate.
Qed.

(** The ways move_snake can return: it only sets [game_over], or it
    stores a block [b] of the old size and, by mode and meal, keeps or
    increments the length and calls generate_food. *)
Lemma move_snake_inv (game game' : Game) (cfg : Config) (rng rng' : Rand) :
  move_snake game cfg rng = Some (game', rng') ->
  (game' = set_game_over game true /\ rng' = rng) \/
  exists (nh : Point) (b : list Point),
    new_head game cfg = Some nh /\
    List.length b = List.length (body (snake game)) /\
    let grown := {| body := b; length := int_add (length (snake game)) 1;
                    max_length := max_length (snake game);
                    direction := direction (snake game) |} in
    let fed := {| food := food game; snake := grown;
                  score := int_add (score game) POINTS_PER_FOOD;
                  game_over := game_over game; paused := paused game |} in
    match game_mode cfg, same_cell nh (food game) with
    | MODE_REGULAR, false =>
        game' = set_snake game (set_body (snake game) b) /\ rng' = rng
    | MODE_GREEDY, false => game' = set_snake game grown /\ rng' = rng
    | _, true => generate_food fed cfg rng = Some (game', rng')
    end.
Proof.
  intros Hmove. cbv zeta.
  assert (Hadv : forall nh, new_head game cfg = Some nh ->
            advance game cfg rng nh = Some (game', rng') ->
            (game' = set_game_over game true /\ rng' = rng) \/
            exists (nh : Point) (b : list Point),
              new_head game cfg = Some nh /\
              List.length b = List.length (body (snake game)) /\
              match game_mode cfg, same_cell nh (food game) with
              | MODE_REGULAR, false =>
                  game' = set_snake game (set_body (snake game) b) /\ rng' = rng
              | MODE_GREEDY, false =>
                  game' = set_snake game
                            {| body := b; length := int_add (length (snake game)) 1;
                               max_length := max_length (snake game);
                               direction := direction (snake game) |} /\ rng' = rng
              | _, true =>
                  generate_food
                    {| food := food game;
                       snake := {| body := b; length := int_add (length (snake game)) 1;
                                   max_length := max_length (snake game);
                                   direction := direction (snake game) |};
                       score := int_add (score game) POINTS_PER_FOOD;
                       game_over := game_over game; paused := paused game |} cfg rng
                  = Some (game', rng')
              end).
  { intros nh Hnh. unfold advance.
    destruct (scan_body _ 1 _ nh) as [[|]|]; simpl; [| | discriminate].
    { intros [= <- <-]. left; split; reflexivity. }
    destruct (game_mode cfg) eqn:Hmode.
    - destruct (shift_regular _ _) as [b1|] eqn:Hshift; simpl; [| discriminate].
      destruct (body_write b1 0 nh) as [b2|] eqn:Hwrite; simpl; [| discriminate].
      intros Hrest. right. exists nh, b2.
      split; [exact Hnh |].
      split; [rewrite (body_write_length _ _ _ _ Hwrite);
              apply (shift_regular_length _ _ _ Hshift) |].
      destruct (same_cell nh (food game)).
      + exact Hrest.
      + injection Hrest as <- <-. split; reflexivity.
    - destruct (_ <=? _).
      { intros [= <- <-]. left; split; reflexivity. }
      rewrite shift_greedy_regular.
      destruct (shift_regular _ _) as [b1|] eqn:Hshift; simpl; [| discriminate].
      destruct (body_write b1 0 nh) as [b2|] eqn:Hwrite; simpl; [| discriminate].
      intros Hrest. right. exists nh, b2.
      split; [exact Hnh |].
      split; [rewrite (body_write_length _ _ _ _ Hwrite);
              apply (shift_regular_length _ _ _ Hshift) |].
      destruct (same_cell nh (food game)).
      + exact Hrest.
      + injection Hrest as <- <-. split; reflexivity. }
  unfold move_snake in Hmove. unfold new_head in Hadv |- *.
  destruct (body_read (body (snake game)) 0) as [hd|]; simpl in *; [| discriminate].
  destruct (wraparound_mode cfg).
  - apply (Hadv _ eq_refl Hmove).
  - destruct (off_board cfg _).
    + injection Hmove as <- <-. left; split; reflexivity.
    + apply (Hadv _ eq_refl Hmove).
Qed.

(** X1. Whatever move_snake does, it keeps the direction, the pause flag,
    the capacity and the size of the block; it never clears [game_over];
    and it only ever advances the random generator. *)
Theorem move_snake_keeps (game game' : Game) (cfg : Config) (rng rng' : Rand) :
  move_snake game cfg rng = Some (game', rng') ->
  direction (snake game') = direction (snake game) /\
  paused game' = paused game /\
  max_length (snake game') = max_length (snake game) /\
  List.length (body (snake game')) = List.length (body (snake game)) /\
  (game_over game = true -> game_over game' = true) /\
  rand_seq rng' = rand_seq rng /\
  (rand_calls rng <= rand_calls rng')%nat.
Proof.
  intros Hmove.
  destruct (move_snake_inv _ _ _ _ _ Hmove) as [[-> ->] | (nh & b & _ & Hlen & Hcase)].
  { repeat split; auto. }
  cbv zeta in Hcase.
  assert (Hfed : forall fed : Game,
             generate_food fed cfg rng = Some (game', rng') ->
             direction (snake fed) = direction (snake game) ->
             paused fed = paused game ->
             max_length (snake fed) = max_length (snake game) ->
             List.length (body (snake fed)) = List.length (body (snake game)) ->
             game_over fed = game_over game ->
             direction (snake game') = direction (snake game) /\
             paused game' = paused game /\
             max_length (snake game') = max_length (snake game) /\
             List.length (body (snake game')) = List.length (body (snake game)) /\
             (game_over game = true -> game_over game' = true) /\
             rand_seq rng' = rand_seq rng /\
             (rand_calls rng <= rand_calls rng')%nat).
  { intros fed Hgen Hd Hp Hm Hb Hgo.
    destruct (generate_food_frame _ _ _ _ _ Hgen)
      as (Hs & _ & Hp' & Hgo' & Hseq & Hcalls & _).
    rewrite Hs, Hp'. repeat split; try assumption.
    intros Hover. destruct Hgo' as [Ht | Hsame]; [exact Ht |].
    rewrite Hsame, Hgo. exact Hover. }
  destruct (game_mode cfg), (same_cell nh (food game));
    try (apply (Hfed _ Hcase); try reflexivity; exact Hlen);
    destruct Hcase as [-> ->]; repeat split; auto.
Qed.

(** X1 on the fresh snake eating the food in front of it. *)
Lemma move_snake_keeps_witness :
  exists (game' : Game) (rng' : Rand),
    move_snake cruising board10 twos = Some (game', rng') /\
    direction (snake game') = direction (snake cruising) /\
    paused game' = paused cruising /\
    max_length (snake game') = max_length (snake cruising) /\
    List.length (body (snake game')) = List.length (body (snake cruising)) /\
    (game_over cruising = true -> game_over game' = true) /\
    rand_seq rng' = rand_seq twos /\
    (rand_calls twos <= rand_calls rng')%nat.
Proof.
  eexists _, _. split; [vm_compute; reflexivity |].
  apply (move_snake_keeps cruising _ board10 twos _).
  vm_compute. reflexivity.
Defined.

(** X2. A move changes the length by one at most and the score by ten at
    most; unless the new head is on the food it keeps the score, the food
    and the random generator, and in regular mode the length too. *)
Theorem move_snake_growth (game game' : Game) (cfg : Config) (rng rng' : Rand) (nh : Point) :
  move_snake game cfg rng = Some (game', rng') ->
  new_head game cfg = Some nh ->
  (length (snake game') = length (snake game) \/
   length (snake game') = int_add (length (snake game)) 1) /\
  (score game' = score game \/
   score game' = int_add (score game) POINTS_PER_FOOD) /\
  (nh <> food game ->
   score game' = score game /\ food game' = food game /\ rng' = rng /\
   (game_mode cfg = MODE_REGULAR -> length (snake game') = length (snake game))).
Proof.
  intros Hmove Hnh.
  destruct (move_snake_inv _ _ _ _ _ Hmove) as [[-> ->] | (nh' & b & Hnh' & _ & Hcase)].
  { repeat split; auto. }
  rewrite Hnh in Hnh'. injection Hnh' as <-.
  cbv zeta in Hcase.
  destruct (same_cell nh (food game)) eqn:Heat.
  - apply same_cell_true in Heat.
    assert (Hgen : exists fed, generate_food fed cfg rng = Some (game', rng') /\
                     length (snake fed) = int_add (length (snake game)) 1 /\
                     score fed = int_add (score game) POINTS_PER_FOOD).
    { destruct (game_mode cfg); eexists; (split; [exact Hcase |]); split; reflexivity. }
    destruct Hgen as (fed & Hgen & Hl & Hsc).
    destruct (generate_food_frame _ _ _ _ _ Hgen) as (Hs & Hsc' & _).
    rewrite Hs, Hsc', Hl, Hsc.
    split; [right; reflexivity |]. split; [right; reflexivity |].
    intros Hne. contradiction.
  - destruct (game_mode cfg); destruct Hcase as [-> ->]; simpl.
    + repeat split; auto.
    + split; [right; reflexivity |]. split; [left; reflexivity |].
      intros _. repeat split; auto. discriminate.
Qed.

(** X2 on the snake at the right edge of a board with wrap-around. *)
Lemma move_snake_growth_witness :
  exists (game' : Game) (rng' : Rand),
    move_snake at_wall wrap10 zeros = Some (game', rng') /\
    (length (snake game') = length (snake at_wall) \/
     length (snake game') = int_add (length (snake at_wall)) 1) /\
    (score game' = score at_wall \/
     score game' = int_add (score at_wall) POINTS_PER_FOOD) /\
    (mkPoint 0 5 <> food at_wall ->
     score game' = score at_wall /\ food game' = food at_wall /\ rng' = zeros /\
     (game_mode wrap10 = MODE_REGULAR -> length (snake game') = length (snake at_wall))).
Proof.
  eexists _, _. split; [vm_compute; reflexivity |].
  apply (move_snake_growth at_wall _ wrap10 zeros _ (mkPoint 0 5)).
  - vm_compute. reflexivity.
  - reflexivity.
Defined.

(** ** Plain moves and wrap-around *)

Lemma moved_segments (game : Game) (nh : Point) :
  1 <= length (snake game) <= Z.of_nat (List.length (body (snake game))) ->
  take (Z.to_nat (length (snake game))) (moved_body game nh)
  = nh :: take (Z.to_nat (length (snake game) - 1)) (segments (snake game)).
Proof.
  intros HL. unfold moved_body, segments.
  replace (Z.to_nat (length (snake game)))
    with (S (Z.to_nat (length (snake game) - 1))) at 1 by lia.
  rewrite firstn_cons. f_equal.
  rewrite take_app_le by (rewrite length_take; lia).
  rewrite !take_take. f_equal. lia.
Qed.

(** X3. In regular mode a move that hits nothing and does not reach the
    food returns the state with only the body changed: the segments are
    the new head followed by the old segments without the last, the slots
    behind the tail are untouched, and length, score, food, flags and
    random generator are those of before. *)
Theorem regular_plain_move (game : Game) (cfg : Config) (rng : Rand) (nh : Point) :
  game_mode cfg = MODE_REGULAR ->
  well_formed game cfg ->
  new_head game cfg = Some nh ->
  (wraparound_mode cfg = false -> in_board cfg nh) ->
  clear_of_body game nh ->
  nh <> food game ->
  exists game',
    move_snake game cfg rng = Some (game', rng) /\
    segments (snake game')
    = nh :: take (Z.to_nat (length (snake game) - 1)) (segments (snake game)) /\
    (forall i : nat,
        length (snake game) <= Z.of_nat i ->
        body (snake game') !! i = body (snake game) !! i) /\
    length (snake game') = length (snake game) /\
    score game' = score game /\ food game' = food game /\
    game_over game' = game_over game /\ paused game' = paused game.
Proof.
  intros Hmode Hwf Hnh Hwall Hclear Hfood.
  rewrite (move_snake_advance game cfg rng nh Hnh Hwall).
  rewrite (advance_regular game cfg rng nh Hmode Hwf Hclear).
  replace (same_cell nh (food game)) with false
    by (symmetry; apply same_cell_false; exact Hfood).
  destruct Hwf as (Hw & Hh & Hfit & Hmax & Hblock & HL).
  eexists. split; [reflexivity |].
  unfold segments at 1. cbn [set_snake set_body snake body length score food game_over paused].
  split; [apply moved_segments; lia |].
  split; [intros i Hi; apply moved_body_behind; lia |].
  repeat split; reflexivity.
Qed.

(** X3 on the snake at the right edge of a board with wrap-around. *)
Lemma regular_plain_move_witness :
  exists game',
    move_snake at_wall wrap10 zeros = Some (game', zeros) /\
    segments (snake game')
    = mkPoint 0 5 :: take (Z.to_nat (length (snake at_wall) - 1)) (segments (snake at_wall)) /\
    (forall i : nat,
        length (snake at_wall) <= Z.of_nat i ->
        body (snake game') !! i = body (snake at_wall) !! i) /\
    length (snake game') = length (snake at_wall) /\
    score game' = score at_wall /\ food game' = food at_wall /\
    game_over game' = game_over at_wall /\ paused game' = paused at_wall.
Proof.
  apply (regular_plain_move at_wall wrap10 zeros (mkPoint 0 5)).
  - reflexivity.
  - unfold well_formed; simpl. unfold INT_MAX. lia.
  - reflexivity.
  - discriminate.
  - intros i Hi1 HiL. simpl in HiL.
    destruct i as [|[|[|i]]]; try lia; discriminate.
  - discriminate.
Defined.

(** One coordinate of wrap_head after a step of -1, 0 or 1 from inside
    the board is the coordinate modulo the size. *)
Lemma wrap_coord (n v d : Z) :
  0 <= v < n -> -1 <= d <= 1 ->
  (if v + d <? 0 then n - 1 else if n <=? v + d then 0 else v + d) = (v + d) mod n.
Proof.
  intros Hv Hd.
  destruct (Z.ltb_spec (v + d) 0).
  - apply (Z.mod_unique (v + d) n (-1)); lia.
  - destruct (Z.leb_spec n (v + d)).
    + apply (Z.mod_unique (v + d) n 1); lia.
    + symmetry. apply Z.mod_small. lia.
Qed.

(** X4. With wrap-around on and the head on the board, the new head is
    the head moved by the direction's offset, each coordinate taken
    modulo the board's size; it is a cell of the board, so no move ends at
    a wall. *)
Theorem wraparound_is_modulo (game : Game) (cfg : Config) (hd : Point) :
  wraparound_mode cfg = true ->
  board_width cfg <= INT_MAX -> board_height cfg <= INT_MAX ->
  body (snake game) !! 0%nat = Some hd ->
  in_board cfg hd ->
  let nh := {| x := (x hd + (offset (direction (snake game))).1) mod board_width cfg;
               y := (y hd + (offset (direction (snake game))).2) mod board_height cfg |} in
  new_head game cfg = Some nh /\ in_board cfg nh /\
  forall rng : Rand, move_snake game cfg rng = advance game cfg rng nh.
Proof.
  intros Hwrap Hw Hh Hhd [Hx Hy] nh.
  assert (Hnh : new_head game cfg = Some nh).
  { unfold new_head, body_read. rewrite Hhd; simpl. rewrite Hwrap. f_equal.
    subst nh. unfold wrap_head, next_head, int_add, int_sub.
    destruct (direction (snake game)); cbn [x y offset fst snd];
      rewrite !int_wrap_id by range_lia;
      rewrite <- !wrap_coord by lia; rewrite ?Z.add_0_r; reflexivity. }
  split; [exact Hnh |]. split.
  - subst nh. unfold in_board; cbn [x y].
    split; apply Z.mod_pos_bound; lia.
  - intros rng. apply move_snake_advance; [exact Hnh |].
    rewrite Hwrap. discriminate.
Qed.

(** X4 on the snake at the right edge: column 9 leads to column 0. *)
Lemma wraparound_is_modulo_witness :
  new_head at_wall wrap10 = Some (mkPoint 0 5) /\
  in_board wrap10 (mkPoint 0 5) /\
  forall rng : Rand, move_snake at_wall wrap10 rng = advance at_wall wrap10 rng (mkPoint 0 5).
Proof.
  apply (wraparound_is_modulo at_wall wrap10 (mkPoint 9 5)).
  - reflexivity.
  - vm_compute. discriminate.
  - vm_compute. discriminate.
  - reflexivity.
  - unfold in_board; simpl. lia.
Defined.

(** ** The snake stays on the board *)

Lemma wrap_head_in_board (cfg : Config) (p : Point) :
  0 < board_width cfg <= INT_MAX -> 0 < board_height cfg <= INT_MAX ->
  in_board cfg (wrap_head cfg p).
Proof.
  intros Hw Hh. unfold in_board, wrap_head, int_sub; cbn [x y].
  rewrite !int_wrap_id by range_lia.
  destruct (Z.ltb_spec (x p) 0), (Z.leb_spec (board_width cfg) (x p)),
           (Z.ltb_spec (y p) 0), (Z.leb_spec (board_height cfg) (y p)); lia.
Qed.

Lemma head_is_segment (game : Game) (hd : Point) :
  1 <= length (snake game) ->
  body (snake game) !! 0%nat = Some hd -> hd ∈ segments (snake game).
Proof.
  intros HL Hhd. unfold segments. apply elem_of_take.
  exists 0%nat. split; [exact Hhd | lia].
Qed.

(** The new head of a move that goes on past the wall policy is a cell of
    the board. *)
Lemma surviving_head (game game' : Game) (cfg : Config) (rng rng' : Rand) (nh : Point) :
  well_formed game cfg ->
  new_head game cfg = Some nh ->
  move_snake game cfg rng = Some (game', rng') ->
  game_over game' = false ->
  in_board cfg nh /\ move_snake game cfg rng = advance game cfg rng nh.
Proof.
  intros (Hw & Hh & Hfit & Hmax & Hblock & HL) Hnh Hmove Hgo.
  assert (Hwmax : board_width cfg <= INT_MAX) by (unfold INT_MAX in *; nia).
  assert (Hhmax : board_height cfg <= INT_MAX) by (unfold INT_MAX in *; nia).
  unfold new_head in Hnh. unfold move_snake in Hmove |- *.
  destruct (body_read (body (snake game)) 0) as [hd|]; simpl in *; [| discriminate].
  injection Hnh as <-.
  destruct (wraparound_mode cfg).
  - split; [apply wrap_head_in_board; lia | reflexivity].
  - destruct (off_board cfg _) eqn:Hoff.
    + injection Hmove as <- <-. discriminate Hgo.
    + split; [apply off_board_false, Hoff | reflexivity].
Qed.

(** X5. A move that does not end the game and is not a meal of regular
    mode keeps the state well formed and keeps every segment on the
    board: in greedy mode, and in regular mode between meals, a snake that
    is on the board stays on it. *)
Theorem moves_stay_on_board (game game' : Game) (cfg : Config) (rng rng' : Rand) :
  well_formed game cfg ->
  on_board game cfg ->
  move_snake game cfg rng = Some (game', rng') ->
  game_over game' = false ->
  (game_mode cfg = MODE_REGULAR -> new_head game cfg <> Some (food game)) ->
  well_formed game' cfg /\ on_board game' cfg.
Proof.
  intros Hwf Hon Hmove Hgo Hmeal.
  destruct (well_formed_head game cfg Hwf) as [nh Hnh].
  destruct (surviving_head _ _ _ _ _ _ Hwf Hnh Hmove Hgo) as [Hin Hadv].
  rewrite Hadv in Hmove.
  destruct (hit_or_clear game cfg nh Hwf) as [Hhit | Hclear].
  { rewrite (advance_hit game cfg rng nh Hhit) in Hmove.
    injection Hmove as <- <-. discriminate Hgo. }
  pose proof Hwf as (Hw & Hh & Hfit & Hmax & Hblock & HL).
  assert (Hold : forall (n : nat) (p : Point),
             p ∈ take n (segments (snake game)) -> in_board cfg p).
  { intros n p Hp. apply Hon. apply elem_of_take in Hp.
    destruct Hp as (i & Hi & _). apply (list_elem_of_lookup_2 _ i). exact Hi. }
  destruct (game_mode cfg) eqn:Hmode.
  - rewrite (advance_regular game cfg rng nh Hmode Hwf Hclear) in Hmove.
    destruct (same_cell nh (food game)) eqn:Heat.
    { apply same_cell_true in Heat. exfalso.
      apply (Hmeal eq_refl). rewrite Hnh, Heat. reflexivity. }
    injection Hmove as <- <-. split.
    + unfold well_formed; cbn [set_snake set_body snake body length max_length].
      rewrite moved_body_length by lia. auto 10.
    + intros p. unfold segments; cbn [set_snake set_body snake body length].
      rewrite moved_segments by lia.
      rewrite elem_of_cons. intros [-> | Hp]; [exact Hin | apply (Hold _ _ Hp)].
  - destruct (Z_le_gt_dec (max_length (snake game)) (length (snake game))) as [Hcap | Hroom].
    { rewrite (advance_greedy_full game cfg rng nh Hmode Hwf Hcap) in Hmove.
      injection Hmove as <- <-. discriminate Hgo. }
    rewrite (advance_greedy game cfg rng nh Hmode Hwf Hclear) in Hmove by lia.
    cbv zeta in Hmove.
    assert (Hs : snake game' = {| body := grown_body game nh;
                                  length := length (snake game) + 1;
                                  max_length := max_length (snake game);
                                  direction := direction (snake game) |}).
    { destruct (same_cell nh (food game)).
      - destruct (generate_food_frame _ _ _ _ _ Hmove) as (Hs & _). exact Hs.
      - injection Hmove as <- <-. reflexivity. }
    split.
    + unfold well_formed. rewrite Hs; cbn [snake body length max_length].
      unfold grown_body.
      rewrite length_cons, length_app, length_take, length_drop.
      repeat split; try assumption; lia.
    + intros p. unfold segments. rewrite Hs; cbn [snake body length].
      rewrite grown_segments by lia.
      rewrite elem_of_cons. intros [-> | Hp]; [exact Hin | apply (Hon _ Hp)].
Qed.

(** X5 on the fresh snake of a greedy game eating the food in front of it. *)
Lemma moves_stay_on_board_witness :
  exists (game' : Game) (rng' : Rand),
    move_snake cruising greedy10 twos = Some (game', rng') /\
    well_formed game' greedy10 /\ on_board game' greedy10.
Proof.
  eexists _, _. split; [vm_compute; reflexivity |].
  eapply (moves_stay_on_board cruising _ greedy10 twos _).
  - unfold well_formed; simpl. unfold INT_MAX. lia.
  - intros p Hp. unfold segments in Hp. simpl in Hp.
    unfold in_board; simpl.
    apply elem_of_cons in Hp as [-> | Hp]; [simpl; lia |].
    apply elem_of_cons in Hp as [-> | Hp]; [simpl; lia |].
    apply elem_of_cons in Hp as [-> | Hp]; [simpl; lia |].
    apply elem_of_nil in Hp. contradiction.
  - vm_compute. reflexivity.
  - reflexivity.
  - discriminate.
Defined.

(** ** Where the food goes *)

(** A cell sampled from random numbers that are not negative is a cell of
    the board. *)
Lemma sample_cell_in_board (cfg : Config) (rng : Rand) (k : nat) :
  0 < board_width cfg <= INT_MAX -> 0 < board_height cfg <= INT_MAX ->
  (forall n : nat, 0 <= rand_seq rng n) ->
  in_board cfg (sample_cell cfg rng k).
Proof.
  intros Hw Hh Hpos. unfold in_board, sample_cell; cbn [x y].
  pose proof (Z.rem_bound_pos (rand_seq rng (rand_calls rng + 2 * k)%nat)
                (board_width cfg) (Hpos _) (proj1 Hw)).
  pose proof (Z.rem_bound_pos (rand_seq rng (rand_calls rng + 2 * k + 1)%nat)
                (board_height cfg) (Hpos _) (proj1 Hh)).
  rewrite !int_wrap_id by range_lia. lia.
Qed.

(** init_game, read from a successful run: the food is the first sample
    of the seeded generator, taken without a look at the snake. *)
Lemma init_game_food (env : Env) (cfg0 cfg : Config) (game : Game) (rng : Rand) :
  init_game env cfg0 = Some (cfg, game, rng) ->
  food game = sample_cell cfg (rng_of (seeded env)) 0 /\
  rng = {| rand_seq := seeded env; rand_calls := 2 |}.
Proof.
  intros Hinit. pose proof (init_game_config _ _ _ _ _ Hinit) as Hcfg.
  revert Hinit. unfold init_game, rand. cbn [rand_seq rand_calls].
  rewrite <- Hcfg. intros Hinit.
  repeat match type of Hinit with
         | (?m ≫= _) = Some _ =>
             let E := fresh "E" in
             destruct m eqn:E; cbn [mbind option_bind] in Hinit; [| discriminate]
         end.
  injection Hinit as <- <-.
  unfold int_mod in *.
  repeat match goal with
         | H : (if ?c then None else Some _) = Some _ |- _ =>
             destruct c; [discriminate | injection H as <-]
         end.
  split; reflexivity.
Qed.

(** X6. With random numbers that are not negative, as rand() returns
    them, the food is always put on a cell of the board: by generate_food
    whenever it returns with [game_over] clear, and by init_game. *)
Theorem food_on_board (cfg : Config) :
  0 < board_width cfg <= INT_MAX -> 0 < board_height cfg <= INT_MAX ->
  (forall (game game' : Game) (rng rng' : Rand),
      (forall n : nat, 0 <= rand_seq rng n) ->
      generate_food game cfg rng = Some (game', rng') ->
      game_over game' = false ->
      in_board cfg (food game')) /\
  (forall (env : Env) (cfg0 : Config) (game : Game) (rng : Rand),
      (forall n : nat, 0 <= seeded env n) ->
      init_game env cfg0 = Some (cfg, game, rng) ->
      in_board cfg (food game)).
Proof.
  intros Hw Hh. split.
  - intros game game' rng rng' Hpos Hgen Hgo.
    apply generate_food_frame in Hgen.
    destruct Hgen as (_ & _ & _ & _ & _ & _ & Hfood).
    destruct (Hfood Hgo) as [j ->].
    apply sample_cell_in_board; assumption.
  - intros env cfg0 game rng Hpos Hinit.
    apply init_game_food in Hinit. destruct Hinit as [-> _].
    apply sample_cell_in_board; [assumption | assumption |].
    intros n. apply Hpos.
Qed.

(** X6 on the 10 x 10 board: the food of a meal and the food of a game
    start are on the board. *)
Lemma food_on_board_witness :
  (exists (game' : Game) (rng' : Rand),
      generate_food cruising board10 twos = Some (game', rng') /\
      in_board board10 (food game')) /\
  (exists (game : Game) (rng : Rand),
      init_game env10 config = Some (board10, game, rng) /\
      in_board board10 (food game)).
Proof.
  assert (Hw : 0 < board_width board10 <= INT_MAX) by (vm_compute; split; [reflexivity | discriminate]).
  assert (Hh : 0 < board_height board10 <= INT_MAX) by (vm_compute; split; [reflexivity | discriminate]).
  destruct (food_on_board board10 Hw Hh) as [Hgen Hinit].
  split.
  - eexists _, _. split; [vm_compute; reflexivity |].
    eapply (Hgen cruising _ twos _).
    + intros n. simpl. lia.
    + vm_compute. reflexivity.
    + reflexivity.
  - eexists _, _. split; [vm_compute; reflexivity |].
    eapply (Hinit env10 config).
    + intros n. simpl. lia.
    + vm_compute. reflexivity.
Defined.

(** X7. On a board with room left, generate_food puts the food on the
    first cell of its sample sequence that is free of the snake, provided
    that cell comes within the [2 * width * height] attempts: it draws two
    random numbers for every cell up to that one and changes nothing but
    the food. *)
Theorem food_first_free (game : Game) (cfg : Config) (rng : Rand) (j : nat) :
  0 < board_width cfg -> 0 < board_height cfg ->
  2 * board_width cfg * board_height cfg <= INT_MAX ->
  0 <= length (snake game) < board_width cfg * board_height cfg ->
  (Z.to_nat (length (snake game)) <= List.length (body (snake game)))%nat ->
  Z.of_nat j < 2 * board_width cfg * board_height cfg ->
  (forall i : nat, (i < j)%nat -> sample_cell cfg rng i ∈ segments (snake game)) ->
  sample_cell cfg rng j ∉ segments (snake game) ->
  generate_food game cfg rng
  = Some (set_food game (sample_cell cfg rng j),
          {| rand_seq := rand_seq rng; rand_calls := rand_calls rng + 2 * S j |}).
Proof.
  intros Hw Hh Hfit HL Hblock Hj Htaken Hfree.
  unfold generate_food.
  assert (Htot : int_mul (board_width cfg) (board_height cfg)
                 = board_width cfg * board_height cfg).
  { unfold int_mul. apply int_wrap_id. unfold int_range, INT_MIN, INT_MAX in *. nia. }
  rewrite Htot.
  destruct (Z.leb_spec (board_width cfg * board_height cfg) (length (snake game)));
    [lia |].
  assert (Hbound : int_mul (board_width cfg * board_height cfg)
                           FOOD_PLACEMENT_MAX_ATTEMPTS_MULTIPLIER
                   = 2 * board_width cfg * board_height cfg).
  { unfold int_mul, FOOD_PLACEMENT_MAX_ATTEMPTS_MULTIPLIER.
    rewrite int_wrap_id; [lia |]. unfold int_range, INT_MIN, INT_MAX in *. nia. }
  rewrite Hbound.
  rewrite (place_food_first_free _ cfg game rng j); try assumption; try lia.
  reflexivity.
Qed.

(** X7 on the fresh 10 x 10 snake: the samples (5,5) and (4,5) are
    segments, the third sample (2,2) is free and gets the food after six
    random numbers. *)
Lemma food_first_free_witness :
  generate_food cruising board10 fives
  = Some (set_food cruising (mkPoint 2 2),
          {| rand_seq := rand_seq fives; rand_calls := 6 |}).
Proof.
  apply (food_first_free cruising board10 fives 2).
  - reflexivity.
  - reflexivity.
  - vm_compute. discriminate.
  - vm_compute. split; [discriminate | reflexivity].
  - simpl. lia.
  - reflexivity.
  - intros [|[|i]] Hi; [| | lia];
      (apply (bool_decide_unpack _); vm_compute; exact I).
  - apply (bool_decide_unpack _). vm_compute. exact I.
Defined.

(** * draw_board *)

(** The scan for a segment on a cell finishes when the segments lie in
    the block, and breaks at the first segment on the cell. *)
Lemma find_segment_spec (b : list Point) (p : Point) (n from : nat) :
  (from + n <= List.length b)%nat ->
  exists r : option nat,
    find_segment b from n p = Some r /\
    match r with
    | Some i =>
        (from <= i < from + n)%nat /\ b !! i = Some p /\
        forall k : nat, (from <= k < i)%nat -> b !! k <> Some p
    | None => forall k : nat, (from <= k < from + n)%nat -> b !! k <> Some p
    end.
Proof.
  revert from. induction n as [|n IH]; intros from Hlen; simpl.
  - exists None. split; [reflexivity |]. intros k Hk. lia.
  - unfold body_read.
    destruct (lookup_lt_is_Some_2 b from) as [q Hq]; [lia |].
    rewrite Hq; simpl.
    destruct (same_cell q p) eqn:Hqp.
    + apply same_cell_true in Hqp. subst q.
      exists (Some from). split; [reflexivity |].
      split; [lia |]. split; [exact Hq |]. intros k Hk. lia.
    + apply same_cell_false in Hqp.
      destruct (IH (S from)) as (r & Hr & Hspec); [lia |].
      exists r. split; [exact Hr |].
      destruct r as [i|].
      * destruct Hspec as (Hi & Hp & Hmin).
        split; [lia |]. split; [exact Hp |].
        intros k Hk. destruct (decide (k = from)) as [-> |].
        -- rewrite Hq. congruence.
        -- apply Hmin. lia.
      * intros k Hk. destruct (decide (k = from)) as [-> |].
        -- rewrite Hq. congruence.
        -- apply Hspec. lia.
Qed.

(** What draw_board prints on one cell: the wall on the border; inside,
    the head where [body[0]] is, the body glyph where another segment is,
    the food where it is not under the snake, and nothing elsewhere. *)
Lemma draw_cell_picture (game : Game) (cfg : Config) (cx cy : Z) :
  (Z.to_nat (length (snake game)) <= List.length (body (snake game)))%nat ->
  draw_cell game cfg cx cy = Some (cell_glyph game cfg cx cy).
Proof.
  intros Hblock. unfold draw_cell, cell_glyph.
  destruct ((cx =? -1) || (cx =? board_width cfg) || (cy =? -1)
            || (cy =? board_height cfg)); [reflexivity |].
  destruct (find_segment_spec (body (snake game)) (mkPoint cx cy)
              (Z.to_nat (length (snake game))) 0) as (r & Hr & Hspec); [simpl; lia |].
  rewrite Hr; simpl.
  destruct r as [i|].
  - destruct Hspec as (Hi & Hp & Hmin).
    rewrite bool_decide_eq_true_2.
    2:{ unfold segments. apply elem_of_take. exists i. split; [exact Hp | lia]. }
    destruct (Nat.eqb_spec i 0) as [-> | Hne].
    + rewrite bool_decide_eq_true_2 by exact Hp. reflexivity.
    + rewrite bool_decide_eq_false_2; [reflexivity |]. apply Hmin. lia.
  - rewrite bool_decide_eq_false_2.
    2:{ unfold segments. intros Hin. apply elem_of_take in Hin.
        destruct Hin as (i & Hp & Hi). apply (Hspec i); [lia | exact Hp]. }
    destruct (food game) as [fx fy]; cbn [x y].
    destruct (Z.eqb_spec fx cx) as [-> | Hx], (Z.eqb_spec fy cy) as [-> | Hy]; simpl.
    + rewrite bool_decide_eq_true_2 by reflexivity. reflexivity.
    + rewrite bool_decide_eq_false_2 by congruence. reflexivity.
    + rewrite bool_decide_eq_false_2 by congruence. reflexivity.
    + rewrite bool_decide_eq_false_2 by congruence. reflexivity.
Qed.

Lemma mapM_total {A B : Type} (f : A -> option B) (g : A -> B) (l : list A) :
  (forall a : A, f a = Some (g a)) -> mapM f l = Some (g <$> l).
Proof.
  intros Hfg. induction l as [|a l IH]; simpl; [reflexivity |].
  rewrite Hfg, IH. reflexivity.
Qed.

(** X8. draw_board always produces a frame when the segments lie in the
    block: the score and pause flag of the game, and [height + 2] rows of
    [width + 2] glyphs, the wall all around; inside, a cell shows the head
    if [body[0]] is on it, else the body if any segment is on it, else the
    food if the food is on it, else nothing.  So the head hides a segment
    under it, and the snake hides the food. *)
Theorem draw_board_picture (game : Game) (cfg : Config) :
  (Z.to_nat (length (snake game)) <= List.length (body (snake game)))%nat ->
  exists frame : Frame,
    draw_board game cfg = Some frame /\
    shown_score frame = score game /\ shown_paused frame = paused game /\
    rows frame = (fun cy => (fun cx => cell_glyph game cfg cx cy)
                              <$> seqZ (-1) (board_width cfg + 2))
                   <$> seqZ (-1) (board_height cfg + 2) /\
    List.length (rows frame) = Z.to_nat (board_height cfg + 2) /\
    forall row : list Glyph,
      row ∈ rows frame -> List.length row = Z.to_nat (board_width cfg + 2).
Proof.
  intros Hblock. unfold draw_board.
  rewrite (mapM_total _ (fun cy => (fun cx => cell_glyph game cfg cx cy)
                                     <$> seqZ (-1) (board_width cfg + 2))).
  2:{ intros cy. apply mapM_total. intros cx. apply draw_cell_picture, Hblock. }
  simpl. eexists. split; [reflexivity |]. cbn [shown_score shown_paused rows].
  split; [reflexivity |]. split; [reflexivity |]. split; [reflexivity |].
  split.
  - rewrite length_fmap, length_seqZ. reflexivity.
  - intros row Hrow. apply list_elem_of_fmap in Hrow.
    destruct Hrow as (cy & -> & _).
    rewrite length_fmap, length_seqZ. reflexivity.
Qed.

(** X8 on the fresh 10 x 10 snake: twelve rows of twelve glyphs. *)
Lemma draw_board_picture_witness :
  exists frame : Frame,
    draw_board cruising board10 = Some frame /\
    shown_score frame = 0 /\ shown_paused frame = false /\
    rows frame = (fun cy => (fun cx => cell_glyph cruising board10 cx cy)
                              <$> seqZ (-1) 12) <$> seqZ (-1) 12 /\
    List.length (rows frame) = 12%nat /\
    forall row : list Glyph, row ∈ rows frame -> List.length row = 12%nat.
Proof.
  apply (draw_board_picture cruising board10). simpl. lia.
Defined.

(** X9. init_game places the first food without a look at the snake:
    when the first two random numbers fall on the cell of one of the three
    segments, the game starts with the food under the snake, and
    draw_board shows no food on any cell. *)
Theorem init_food_unchecked (env : Env) (cfg0 : Config) (k : Z) :
  let cfg := get_terminal_size env cfg0 in
  4 <= board_width cfg -> 1 <= board_height cfg ->
  board_width cfg * board_height cfg <= INT_MAX ->
  0 <= k <= 2 ->
  Z.rem (seeded env 0) (board_width cfg) = board_width cfg / 2 - k ->
  Z.rem (seeded env 1) (board_height cfg) = board_height cfg / 2 ->
  exists (game : Game) (rng : Rand),
    init_game env cfg0 = Some (cfg, game, rng) /\
    game_over game = false /\
    food game ∈ segments (snake game) /\
    forall cx cy : Z, draw_cell game cfg cx cy <> Some FOOD.
Proof.
  intros cfg Hw Hh Hfit Hk Hr0 Hr1.
  destruct (init_game_spec env cfg0 Hw Hh Hfit) as (rest & fd & rng & Heq & Hlen & _).
  cbv zeta in Heq. fold cfg in Heq, Hlen.
  destruct (init_game_food _ _ _ _ _ Heq) as [Hfood _].
  cbn [food] in Hfood. rewrite sample_cell_first in Hfood.
  cbn [rng_of rand_seq rand_calls] in Hfood.
  rewrite Hr0, Hr1 in Hfood.
  assert (Hcx : 2 <= board_width cfg / 2 <= INT_MAX).
  { pose proof (Z.div_le_lower_bound (board_width cfg) 2 2).
    pose proof (Z.div_le_upper_bound (board_width cfg) 2 (board_width cfg)).
    unfold INT_MAX in *. nia. }
  assert (Hcy : 0 <= board_height cfg / 2 <= INT_MAX).
  { pose proof (Z.div_pos (board_height cfg) 2).
    pose proof (Z.div_le_upper_bound (board_height cfg) 2 (board_height cfg)).
    unfold INT_MAX in *. nia. }
  rewrite !int_wrap_id in Hfood by range_lia.
  eexists _, rng. split; [exact Heq |].
  split; [reflexivity |].
  assert (Hunder : fd ∈ [mkPoint (board_width cfg / 2) (board_height cfg / 2);
                         mkPoint (board_width cfg / 2 - 1) (board_height cfg / 2);
                         mkPoint (board_width cfg / 2 - 2) (board_height cfg / 2)]).
  { rewrite Hfood.
    assert (Hcases : k = 0 \/ k = 1 \/ k = 2) by lia.
    destruct Hcases as [-> | [-> | ->]].
    - rewrite Z.sub_0_r. apply list_elem_of_here.
    - apply list_elem_of_further, list_elem_of_here.
    - apply list_elem_of_further, list_elem_of_further, list_elem_of_here. }
  split; [exact Hunder |].
  intros cx cy. rewrite draw_cell_picture.
  2:{ cbn [snake body length]. rewrite !length_cons. lia. }
  unfold cell_glyph.
  destruct (_ || _); [discriminate |].
  case_bool_decide as Hseg; [case_bool_decide; discriminate |].
  case_bool_decide as Hf; [| discriminate].
  exfalso. apply Hseg. cbn [food] in Hf. rewrite <- Hf. exact Hunder.
Qed.

(** X9 for [-w 10 -h 10] when rand() returns 5 for ever: the food starts
    at (5,5), under the head. *)
Lemma init_food_unchecked_witness :
  exists (game : Game) (rng : Rand),
    init_game {| override_width := 10; override_height := 10; winsize := None;
         heap_junk := fun _ => mkPoint 7 7; seeded := fun _ => 5 |} config
    = Some (board10, game, rng) /\
    game_over game = false /\
    food game ∈ segments (snake game) /\
    forall cx cy : Z, draw_cell game board10 cx cy <> Some FOOD.
Proof.
  apply (init_food_unchecked {| override_width := 10; override_height := 10; winsize := None;
         heap_junk := fun _ => mkPoint 7 7; seeded := fun _ => 5 |}
           config 0).
  - vm_compute. discriminate.
  - vm_compute. discriminate.
  - vm_compute. discriminate.
  - lia.
  - reflexivity.
  - reflexivity.
Defined.

(** * handle_input *)

Lemma set_direction_same (game : Game) :
  set_snake game (set_direction (snake game) (direction (snake game))) = game.
Proof. destruct game as [f [b l m d] sc go p]. reflexivity. Qed.

(** A guarded turn does nothing or turns by a quarter. *)
Lemma turn_effect (game : Game) (unless to : Direction) :
  unless = opposite to ->
  turn game unless to = game \/ quarter_turn game (turn game unless to).
Proof.
  intros ->. unfold turn. case_decide as Hrev; [left; reflexivity |].
  destruct (decide (to = direction (snake game))) as [-> | Hnew].
  - left. apply set_direction_same.
  - right. exists to. split; [exact Hnew |]. split; [| reflexivity].
    intros ->. apply Hrev. destruct (direction (snake game)); reflexivity.
Qed.

(** X10. One call of handle_input does one of four things to the game:
    nothing, a quarter turn of the direction, setting [game_over], or
    toggling the pause flag; after an escape byte only the first two.  It
    takes at most three bytes from the front of the input, and at least
    one when there is any. *)
Theorem handle_input_effect (game : Game) (stdin : list ascii) :
  key_effect game (handle_input game stdin).1 /\
  (forall rest : list ascii,
      stdin = ESC :: rest ->
      (handle_input game stdin).1 = game \/
      quarter_turn game (handle_input game stdin).1) /\
  exists used : list ascii,
    stdin = used ++ (handle_input game stdin).2 /\
    (List.length used <= 3)%nat /\
    (stdin <> [] -> used <> []).
Proof.
  assert (Hturn : forall unless to, unless = opposite to ->
                    key_effect game (turn game unless to)).
  { intros unless to Hrev. destruct (turn_effect game unless to Hrev) as [H | H].
    - left; exact H.
    - right; left; exact H. }
  unfold handle_input.
  destruct stdin as [|c stdin].
  { split; [left; reflexivity |]. split; [discriminate |].
    exists []. split; [reflexivity |]. split; [simpl; lia | congruence]. }
  destruct (Ascii.eqb_spec c ESC) as [-> | Hesc].
  - destruct stdin as [|seq1 stdin].
    { split; [left; reflexivity |]. split; [left; reflexivity |].
      exists [ESC]. split; [reflexivity |]. split; [simpl; lia | discriminate]. }
    destruct (Ascii.eqb seq1 "["%char).
    + destruct stdin as [|seq2 stdin].
      { split; [left; reflexivity |]. split; [left; reflexivity |].
        exists [ESC; seq1]. split; [reflexivity |]. split; [simpl; lia | discriminate]. }
      cbn [fst snd].
      assert (Harrow : arrow_key game seq2 = game \/ quarter_turn game (arrow_key game seq2)).
      { unfold arrow_key.
        destruct seq2 as [[] [] [] [] [] [] [] []];
          first [left; reflexivity | apply turn_effect; reflexivity]. }
      split; [destruct Harrow as [H | H]; [left | right; left]; exact H |].
      split; [intros _ _; exact Harrow |].
      exists [ESC; seq1; seq2]. split; [reflexivity |]. split; [simpl; lia | discriminate].
    + split; [left; reflexivity |]. split; [left; reflexivity |].
      exists [ESC; seq1]. split; [reflexivity |]. split; [simpl; lia | discriminate].
  - cbn [fst snd]. split.
    + unfold plain_key.
      destruct c as [[] [] [] [] [] [] [] []];
        first [ left; reflexivity
              | apply Hturn; reflexivity
              | right; right; left; reflexivity
              | right; right; right; reflexivity ].
    + split; [intros rest [= Hc _]; contradiction |].
      exists [c]. split; [reflexivity |]. split; [simpl; lia | discriminate].
Qed.

(** * The loop of main, further *)

(** draw_board returns a frame with the score and the pause flag of the
    game when the segments lie in the block, of [height + 2] rows of
    [width + 2] glyphs. *)
Lemma draw_board_frame (game : Game) (cfg : Config) :
  (Z.to_nat (length (snake game)) <= List.length (body (snake game)))%nat ->
  exists rs : list (list Glyph),
    draw_board game cfg
    = Some {| shown_score := score game; shown_paused := paused game; rows := rs |} /\
    List.length rs = Z.to_nat (board_height cfg + 2) /\
    Forall (fun row => List.length row = Z.to_nat (board_width cfg + 2)) rs.
Proof.
  intros Hblock. unfold draw_board.
  rewrite (mapM_total _ (fun cy => (fun cx => cell_glyph game cfg cx cy)
                                     <$> seqZ (-1) (board_width cfg + 2))).
  - eexists. split; [reflexivity |]. split.
    + rewrite length_fmap, length_seqZ. reflexivity.
    + apply Forall_fmap, Forall_forall. intros cy _. simpl.
      rewrite length_fmap, length_seqZ. reflexivity.
  - intros cy. apply mapM_total. intros cx. apply draw_cell_picture, Hblock.
Qed.

(** move_snake never clears [game_over]. *)
Lemma move_snake_stays_over (game game' : Game) (cfg : Config) (rng rng' : Rand) :
  move_snake game cfg rng = Some (game', rng') ->
  game_over game = true -> game_over game' = true.
Proof.
  intros Hmove Hover.
  destruct (move_snake_inv _ _ _ _ _ Hmove) as [[-> ->] | (nh & b & _ & _ & Hcase)];
    [reflexivity |].
  cbv zeta in Hcase.
  assert (Hfed : forall fed : Game,
             generate_food fed cfg rng = Some (game', rng') ->
             game_over fed = true -> game_over game' = true).
  { intros fed Hgen Hfed. apply generate_food_frame in Hgen.
    destruct Hgen as (_ & _ & _ & [Hgo | Hgo] & _); [exact Hgo |].
    rewrite Hgo. exact Hfed. }
  destruct (game_mode cfg), (same_cell nh (food game)).
  - apply (Hfed _ Hcase). exact Hover.
  - destruct Hcase as [-> _]. exact Hover.
  - apply (Hfed _ Hcase). exact Hover.
  - destruct Hcase as [-> _]. exact Hover.
Qed.

(** X11. A paused game stays frozen while no key is typed: however many
    iterations the loop makes and whatever the clock says, the loop keeps
    running, the game, the random generator and the time of the last move
    stay as they are, no move is made, and every frame drawn shows the
    pause notice with the same score. *)
Theorem paused_game_frozen (cfg : Config) (ticks : list Tick) (st : Loop) :
  paused (cur_game st) = true ->
  pending st = [] ->
  Forall (fun t => typed t = []) ticks ->
  (Z.to_nat (length (snake (cur_game st))) <= List.length (body (snake (cur_game st))))%nat ->
  exists (st' : Loop) (frames : list Frame),
    main_loop cfg ticks st = Some st' /\
    cur_game st' = cur_game st /\ cur_rng st' = cur_rng st /\
    last_move st' = last_move st /\ moved st' = moved st /\
    pending st' = [] /\
    screen st' = frames ++ screen st /\
    Forall (fun f => shown_paused f = true /\ shown_score f = score (cur_game st)) frames.
Proof.
  intros Hpaused Hpending Hquiet Hblock. revert st Hpaused Hpending Hblock.
  induction Hquiet as [|t ticks Ht _ IH]; intros st Hpaused Hpending Hblock.
  { exists st, []. simpl. repeat split; try assumption; try reflexivity. constructor. }
  simpl main_loop.
  destruct (game_over (cur_game st)) eqn:Hover.
  { exists st, []. repeat split; try assumption; try reflexivity. constructor. }
  unfold loop_body. rewrite Hpending, Ht. cbn [app handle_input].
  rewrite Hpaused, andb_false_r. cbn [mbind option_bind].
  destruct (draw_board_frame (cur_game st) cfg Hblock) as (rs & Hdraw & _).
  rewrite Hdraw. rewrite Hpaused.
  destruct (due (elapsed_us t) (last_render st) (render_interval cfg));
    cbn [mbind option_bind].
  - match goal with
    | |- context [main_loop cfg ticks ?s] =>
        destruct (IH s Hpaused eq_refl Hblock)
          as (st' & frames & Hrun & Hg & Hr & Hm & Htr & Hp & Hscr & Hfr)
    end.
    cbn [cur_game cur_rng last_move moved pending screen] in *.
    exists st', (frames ++ [{| shown_score := score (cur_game st);
                               shown_paused := true; rows := rs |}]).
    rewrite Hrun. repeat split; try assumption.
    + rewrite Hscr, <- app_assoc. reflexivity.
    + apply Forall_app. split; [exact Hfr |].
      constructor; [split; reflexivity | constructor].
  - match goal with
    | |- context [main_loop cfg ticks ?s] =>
        destruct (IH s Hpaused eq_refl Hblock)
          as (st' & frames & Hrun & Hg & Hr & Hm & Htr & Hp & Hscr & Hfr)
    end.
    cbn [cur_game cur_rng last_move moved pending screen] in *.
    exists st', frames. rewrite Hrun. repeat split; assumption.
Qed.

(** X11 on three iterations of a paused 10 x 10 game, late for three
    moves. *)
Lemma paused_game_frozen_witness :
  exists (st' : Loop) (frames : list Frame),
    main_loop board10 quiet_ticks (loop_of resting) = Some st' /\
    cur_game st' = resting /\ cur_rng st' = twos /\
    last_move st' = 0 /\ moved st' = [] /\
    pending st' = [] /\
    screen st' = frames ++ [] /\
    Forall (fun f => shown_paused f = true /\ shown_score f = 0) frames.
Proof.
  apply (paused_game_frozen board10 quiet_ticks (loop_of resting)).
  - reflexivity.
  - reflexivity.
  - repeat constructor.
  - simpl. lia.
Defined.

(** X13. The key [q] (or [Q]) ends the game in the iteration that reads
    it: [game_over] is set, the bytes typed after it stay unread, and the
    loop returns whatever iterations would follow.  That iteration still
    makes its move when one is due and the game is not paused. *)
Theorem quit_key_stops (cfg : Config) (t : Tick) (ticks : list Tick)
    (st st1 : Loop) (c : ascii) (rest : list ascii) :
  game_over (cur_game st) = false ->
  pending st ++ typed t = c :: rest ->
  c = "q"%char \/ c = "Q"%char ->
  loop_body cfg t st = Some st1 ->
  game_over (cur_game st1) = true /\ pending st1 = rest /\
  main_loop cfg (t :: ticks) st = Some st1 /\
  (due (elapsed_us t) (last_move st) (move_interval cfg) = true ->
   paused (cur_game st) = false ->
   last_move st1 = elapsed_us t /\
   moved st1 = direction (snake (cur_game st)) :: moved st /\
   exists rng', move_snake (set_game_over (cur_game st) true) cfg (cur_rng st)
                = Some (cur_game st1, rng')).
Proof.
  intros Hlive Hin Hc Hbody.
  assert (Hkey : handle_input (cur_game st) (c :: rest)
                 = (set_game_over (cur_game st) true, rest)).
  { destruct Hc as [-> | ->]; reflexivity. }
  assert (Hover : game_over (cur_game st1) = true /\ pending st1 = rest /\
                  (due (elapsed_us t) (last_move st) (move_interval cfg) = true ->
                   paused (cur_game st) = false ->
                   last_move st1 = elapsed_us t /\
                   moved st1 = direction (snake (cur_game st)) :: moved st /\
                   exists rng', move_snake (set_game_over (cur_game st) true) cfg (cur_rng st)
                                = Some (cur_game st1, rng'))).
  { unfold loop_body in Hbody. rewrite Hin, Hkey in Hbody.
    cbn [set_game_over paused snake direction] in Hbody.
    destruct (due (elapsed_us t) (last_move st) (move_interval cfg)),
             (paused (cur_game st)); cbn [andb negb] in Hbody.
    2:{ destruct (move_snake _ cfg (cur_rng st)) as [[g r]|] eqn:Hmove;
          cbn [mbind option_bind fst snd] in Hbody; [| discriminate].
        pose proof (move_snake_stays_over _ _ _ _ _ Hmove eq_refl) as Hg.
        destruct (due _ (last_render st) _); cbn [mbind option_bind] in Hbody.
        - destruct (draw_board g cfg); cbn [mbind option_bind] in Hbody; [| discriminate].
          injection Hbody as <-. cbn [cur_game pending last_move moved].
          split; [exact Hg |]. split; [reflexivity |]. intros _ _.
          split; [reflexivity |]. split; [reflexivity |]. exists r. reflexivity.
        - injection Hbody as <-. cbn [cur_game pending last_move moved].
          split; [exact Hg |]. split; [reflexivity |]. intros _ _.
          split; [reflexivity |]. split; [reflexivity |]. exists r. reflexivity. }
    all: cbn [mbind option_bind] in Hbody;
      destruct (due _ (last_render st) _); cbn [mbind option_bind] in Hbody;
      [ destruct (draw_board _ cfg); cbn [mbind option_bind] in Hbody; [| discriminate] | ];
      injection Hbody as <-; cbn [cur_game pending last_move moved];
      (split; [reflexivity |]); (split; [reflexivity |]); intros; discriminate. }
  destruct Hover as (Hgo & Hp & Hmv).
  split; [exact Hgo |]. split; [exact Hp |]. split; [| exact Hmv].
  simpl main_loop. rewrite Hlive, Hbody. simpl.
  destruct ticks; simpl; [reflexivity |]. rewrite Hgo. reflexivity.
Qed.

(** X13 on the fresh 10 x 10 game with the food in front of the snake:
    the iteration that reads [q] is late for a move, so the snake still
    eats and the final score is 10. *)
Lemma quit_key_stops_witness :
  exists st1 : Loop,
    loop_body board10 quit_tick (loop_of cruising) = Some st1 /\
    game_over (cur_game st1) = true /\ pending st1 = [] /\
    main_loop board10 (quit_tick :: quiet_ticks) (loop_of cruising) = Some st1 /\
    score (cur_game st1) = 10.
Proof.
  eexists. split; [vm_compute; reflexivity |].
  match goal with
  | |- game_over (cur_game ?s) = true /\ _ =>
      destruct (quit_key_stops board10 quit_tick quiet_ticks (loop_of cruising) s
                  "q"%char [] eq_refl eq_refl (or_introl eq_refl))
        as (Hover & Hrest & Hrun & _)
  end.
  - vm_compute. reflexivity.
  - split; [exact Hover |]. split; [exact Hrest |]. split; [exact Hrun |]. reflexivity.
Defined.

(** * parse_arguments and the start of main *)

Lemma parse_report_later (pn a : string) (rest out : list string) (r : Z)
    (out' : list string) :
  parse_report pn rest out r out' -> parse_report pn (a :: rest) out r out'.
Proof.
  intros [H | [H | (Hr & Hout & Hhelp)]]; [left; exact H | right; left; exact H |].
  right; right. split; [exact Hr |]. split; [exact Hout |].
  apply list_elem_of_further, Hhelp.
Qed.

Lemma parse_report_error (pn : string) (args out : list string) (msg : string) :
  is_error msg -> parse_report pn args out 1 (out ++ [msg]).
Proof.
  intros Hmsg. right; left. split; [reflexivity |].
  exists msg. split; [exact Hmsg | left; reflexivity].
Qed.

Lemma parse_report_usage (pn : string) (args out : list string) (msg : string) :
  is_error msg -> parse_report pn args out 1 ((out ++ [msg]) ++ print_usage pn).
Proof.
  intros Hmsg. right; left. split; [reflexivity |].
  exists msg. split; [exact Hmsg | right].
  rewrite <- app_assoc. reflexivity.
Qed.

(** parse_arguments returns 0, 1 or -1.  With 0 it has printed nothing.
    With 1 it has printed one line that starts with [Error: ], alone or
    followed by the usage text.  With -1 it has printed the usage text and
    nothing else, and [--help] is among the arguments. *)
Lemma parse_options_reports (atoi : string -> Z) (pn : string) (args : list string)
    (st st' : Cli) (r : Z) :
  parse_options atoi pn args st = (r, st') ->
  parse_report pn args (cl_stdout st) r (cl_stdout st').
Proof.
  remember (List.length args) as n eqn:Hn.
  assert (Hlen : (List.length args <= n)%nat) by lia. clear Hn.
  revert args st Hlen.
  induction n as [|n IH]; intros [|a rest] st Hlen Hparse; simpl in Hlen; try lia;
    try (injection Hparse as <- <-; left; split; reflexivity).
  assert (Hnext : forall st1 : Cli,
             parse_options atoi pn rest st1 = (r, st') ->
             cl_stdout st1 = cl_stdout st ->
             parse_report pn (a :: rest) (cl_stdout st) r (cl_stdout st')).
  { intros st1 H Hout. apply parse_report_later. rewrite <- Hout.
    apply (IH rest st1); [lia | exact H]. }
  assert (Hskip : forall (v : string) (rest' : list string) (st1 : Cli),
             rest = v :: rest' ->
             parse_options atoi pn rest' st1 = (r, st') ->
             cl_stdout st1 = cl_stdout st ->
             parse_report pn (a :: rest) (cl_stdout st) r (cl_stdout st')).
  { intros v rest' st1 -> H Hout. do 2 apply parse_report_later. rewrite <- Hout.
    apply (IH rest' st1); [simpl in Hlen; lia | exact H]. }
  simpl in Hparse.
  destruct (String.eqb a "-w").
  { destruct rest as [|v rest'].
    - injection Hparse as <- <-. apply parse_report_usage. reflexivity.
    - destruct (atoi v <=? 0).
      + injection Hparse as <- <-. apply parse_report_error. reflexivity.
      + apply (Hskip v rest' _ eq_refl Hparse eq_refl). }
  destruct (String.eqb a "-h").
  { destruct rest as [|v rest'].
    - injection Hparse as <- <-. apply parse_report_usage. reflexivity.
    - destruct (atoi v <=? 0).
      + injection Hparse as <- <-. apply parse_report_error. reflexivity.
      + apply (Hskip v rest' _ eq_refl Hparse eq_refl). }
  destruct (String.eqb a "-r").
  { destruct rest as [|v rest'].
    - injection Hparse as <- <-. apply parse_report_usage. reflexivity.
    - destruct (atoi v <=? 0).
      + injection Hparse as <- <-. apply parse_report_error. reflexivity.
      + apply (Hskip v rest' _ eq_refl Hparse eq_refl). }
  destruct (String.eqb a "-m").
  { destruct rest as [|v rest'].
    - injection Hparse as <- <-. apply parse_report_usage. reflexivity.
    - destruct (atoi v <=? 0).
      + injection Hparse as <- <-. apply parse_report_error. reflexivity.
      + apply (Hskip v rest' _ eq_refl Hparse eq_refl). }
  destruct (String.eqb a "--wraparound"); [apply (Hnext _ Hparse eq_refl) |].
  destruct (String.eqb a "--emoji"); [apply (Hnext _ Hparse eq_refl) |].
  destruct (String.eqb a "--mode").
  { destruct rest as [|mode rest'].
    - injection Hparse as <- <-. apply parse_report_usage. reflexivity.
    - destruct (String.eqb mode "regular");
        [apply (Hskip mode rest' _ eq_refl Hparse eq_refl) |].
      destruct (String.eqb mode "greedy");
        [apply (Hskip mode rest' _ eq_refl Hparse eq_refl) |].
      injection Hparse as <- <-. apply parse_report_error. reflexivity. }
  destruct (String.eqb_spec a "--help") as [-> | _].
  { injection Hparse as <- <-. right; right.
    split; [reflexivity |]. split; [reflexivity |]. apply list_elem_of_here. }
  injection Hparse as <- <-. apply parse_report_usage. reflexivity.
Qed.


(** X14. How main ends before the game.  parse_arguments returns 0, 1
    or -1: with 0 it has printed nothing; with 1 one line that starts
    with [Error: ], alone or followed by the usage text; with -1 the usage
    text alone, and [--help] is among the arguments.  main then returns
    with status 0 after [--help] and with status 1 after an error, and
    with no other status before the game starts. *)
Theorem command_line_outcome (atoi : string -> Z) (argv : list string)
    (w : World) (r : Z) (cl : Cli) :
  parse_arguments atoi argv cli0 = (r, cl) ->
  parse_report (hd EmptyString argv) (tl argv) [] r (cl_stdout cl) /\
  (r = -1 ->
   main_begin atoi argv w = Some (Exited 0 (print_usage (hd EmptyString argv)))) /\
  (r = 1 -> main_begin atoi argv w = Some (Exited 1 (cl_stdout cl))) /\
  (forall (status : Z) (out : list string),
      main_begin atoi argv w = Some (Exited status out) ->
      (status = 0 /\ r = -1) \/ (status = 1 /\ r = 1)).
Proof.
  intros Hparse.
  assert (Hreport : parse_report (hd EmptyString argv) (tl argv) [] r (cl_stdout cl)).
  { apply (parse_options_reports atoi _ _ cli0 cl r). exact Hparse. }
  split; [exact Hreport |].
  unfold main_begin. rewrite Hparse.
  destruct Hreport as [[-> Hout] | [(-> & _) | (-> & Hout & _)]].
  - split; [discriminate |]. split; [discriminate |].
    intros status out. cbn [Z.eqb].
    destruct (main_start _ _); cbn [mbind option_bind]; discriminate.
  - split; [discriminate |]. split; [intros _; reflexivity |].
    intros status out [= <- _]. right. split; reflexivity.
  - split; [intros _; rewrite Hout; reflexivity |]. split; [discriminate |].
    intros status out [= <- _]. left. split; reflexivity.
Qed.

(** X14 on [snake --emoji -w]: the width is missing, the error line is
    followed by the usage text and main returns 1. *)
Lemma command_line_outcome_witness :
  exists cl : Cli,
    parse_arguments atoi_sample ["snake"; "--emoji"; "-w"]%string cli0 = (1, cl) /\
    cl_stdout cl = "Error: -w requires a width value"%string :: print_usage "snake" /\
    main_begin atoi_sample ["snake"; "--emoji"; "-w"]%string world80
    = Some (Exited 1 (cl_stdout cl)).
Proof.
  eexists. split; [vm_compute; reflexivity |].
  split; [vm_compute; reflexivity |].
  match goal with
  | |- main_begin _ _ _ = Some (Exited 1 (cl_stdout ?cl)) =>
      destruct (command_line_outcome atoi_sample ["snake"; "--emoji"; "-w"]%string
                  world80 1 cl) as (_ & _ & Hexit & _)
  end.
  - vm_compute. reflexivity.
  - apply Hexit. reflexivity.
Defined.

Lemma accepted_from_refl (st : Cli) : accepted_from st st.
Proof. unfold accepted_from. repeat split; auto. Qed.

Lemma accepted_from_trans (st st1 st2 : Cli) :
  accepted_from st st1 -> accepted_from st1 st2 -> accepted_from st st2.
Proof.
  intros (Ho & Hr & Hm & Hw & Hh & Hbw & Hbh) (Ho' & Hr' & Hm' & Hw' & Hh' & Hbw' & Hbh').
  unfold accepted_from. repeat split; try congruence; auto.
Qed.

(** What parse_arguments has done when it returns 0. *)
Lemma parse_options_accepted (atoi : string -> Z) (pn : string) (args : list string)
    (st st' : Cli) :
  parse_options atoi pn args st = (0, st') -> accepted_from st st'.
Proof.
  remember (List.length args) as n eqn:Hn.
  assert (Hlen : (List.length args <= n)%nat) by lia. clear Hn.
  revert args st Hlen.
  induction n as [|n IH]; intros [|a rest] st Hlen Hparse; simpl in Hlen; try lia;
    try (injection Hparse as <-; apply accepted_from_refl).
  assert (Hnext : forall st1 : Cli,
             parse_options atoi pn rest st1 = (0, st') ->
             accepted_from st st1 -> accepted_from st st').
  { intros st1 H Hstep. apply (accepted_from_trans _ st1 _ Hstep).
    apply (IH rest st1); [lia | exact H]. }
  assert (Hskip : forall (v : string) (rest' : list string) (st1 : Cli),
             rest = v :: rest' ->
             parse_options atoi pn rest' st1 = (0, st') ->
             accepted_from st st1 -> accepted_from st st').
  { intros v rest' st1 -> H Hstep. apply (accepted_from_trans _ st1 _ Hstep).
    apply (IH rest' st1); [simpl in Hlen; lia | exact H]. }
  simpl in Hparse.
  destruct (String.eqb a "-w").
  { destruct rest as [|v rest']; [discriminate |].
    destruct (Z.leb_spec (atoi v) 0); [discriminate |].
    apply (Hskip v rest' _ eq_refl Hparse).
    unfold accepted_from; simpl. repeat split; auto; lia. }
  destruct (String.eqb a "-h").
  { destruct rest as [|v rest']; [discriminate |].
    destruct (Z.leb_spec (atoi v) 0); [discriminate |].
    apply (Hskip v rest' _ eq_refl Hparse).
    unfold accepted_from; simpl. repeat split; auto; lia. }
  destruct (String.eqb a "-r").
  { destruct rest as [|v rest']; [discriminate |].
    destruct (Z.leb_spec (atoi v) 0); [discriminate |].
    apply (Hskip v rest' _ eq_refl Hparse).
    unfold accepted_from; simpl. repeat split; auto; lia. }
  destruct (String.eqb a "-m").
  { destruct rest as [|v rest']; [discriminate |].
    destruct (Z.leb_spec (atoi v) 0); [discriminate |].
    apply (Hskip v rest' _ eq_refl Hparse).
    unfold accepted_from; simpl. repeat split; auto; lia. }
  destruct (String.eqb a "--wraparound").
  { apply (Hnext _ Hparse). unfold accepted_from; simpl. repeat split; auto. }
  destruct (String.eqb a "--emoji").
  { apply (Hnext _ Hparse). unfold accepted_from; simpl. repeat split; auto. }
  destruct (String.eqb a "--mode").
  { destruct rest as [|mode rest']; [discriminate |].
    destruct (String.eqb mode "regular").
    { apply (Hskip mode rest' _ eq_refl Hparse).
      unfold accepted_from; simpl. repeat split; auto. }
    destruct (String.eqb mode "greedy"); [| discriminate].
    apply (Hskip mode rest' _ eq_refl Hparse).
    unfold accepted_from; simpl. repeat split; auto. }
  destruct (String.eqb a "--help"); discriminate.
Qed.

(** X15. A command line that parse_arguments accepts cannot make
    calculate_intervals divide by zero: main has printed nothing, the two
    overrides are not negative, both frame rates are positive, the
    intervals are [1000000 / fps], between 0 and a second, the move
    interval being 0 exactly for a move rate above 1000000, and main goes
    on to init_game with the overrides and that configuration. *)
Theorem accepted_command_line (atoi : string -> Z) (argv : list string)
    (w : World) (cl : Cli) :
  parse_arguments atoi argv cli0 = (0, cl) ->
  cl_stdout cl = [] /\
  0 <= cl_override_width cl /\ 0 <= cl_override_height cl /\
  0 < render_fps (cl_config cl) /\ 0 < move_fps (cl_config cl) /\
  exists cfg : Config,
    calculate_intervals (cl_config cl) = Some cfg /\
    render_interval cfg = 1000000 / render_fps (cl_config cl) /\
    move_interval cfg = 1000000 / move_fps (cl_config cl) /\
    0 <= render_interval cfg <= 1000000 /\
    0 <= move_interval cfg <= 1000000 /\
    (move_interval cfg = 0 <-> 1000000 < move_fps (cl_config cl)) /\
    main_begin atoi argv w
    = (r ← init_game (env_of cl w) cfg;
       Some (Playing r.1.1 {| cur_game := r.1.2; cur_rng := r.2; last_render := 0;
                              last_move := 0; pending := []; screen := [];
                              moved := [] |})).
Proof.
  intros Hparse.
  pose proof (parse_options_accepted _ _ _ _ _ Hparse)
    as (Hout & Hr & Hm & Hw & Hh & _ & _).
  simpl in Hout, Hr, Hm, Hw, Hh.
  specialize (Hr ltac:(lia)). specialize (Hm ltac:(lia)).
  specialize (Hw ltac:(lia)). specialize (Hh ltac:(lia)).
  split; [exact Hout |]. split; [exact Hw |]. split; [exact Hh |].
  split; [exact Hr |]. split; [exact Hm |].
  assert (Hci : calculate_intervals (cl_config cl)
                = Some {| board_width := board_width (cl_config cl);
                          board_height := board_height (cl_config cl);
                          render_fps := render_fps (cl_config cl);
                          move_fps := move_fps (cl_config cl);
                          render_interval := 1000000 / render_fps (cl_config cl);
                          move_interval := 1000000 / move_fps (cl_config cl);
                          wraparound_mode := wraparound_mode (cl_config cl);
                          emoji_mode := emoji_mode (cl_config cl);
                          game_mode := game_mode (cl_config cl) |}).
  { unfold calculate_intervals.
    rewrite (int_div_positive _ Hr), (int_div_positive _ Hm). reflexivity. }
  eexists. split; [exact Hci |]. cbn [render_interval move_interval].
  split; [reflexivity |]. split; [reflexivity |].
  assert (Hbound : forall fps : Z, 0 < fps -> 0 <= 1000000 / fps <= 1000000).
  { intros fps Hfps. split; [apply Z.div_pos; lia |].
    apply Z.div_le_upper_bound; nia. }
  split; [apply Hbound, Hr |]. split; [apply Hbound, Hm |].
  split.
  - split.
    + intros Hzero. apply Z.div_small_iff in Hzero; lia.
    + intros Hbig. apply Z.div_small. lia.
  - unfold main_begin. rewrite Hparse. cbn [Z.eqb].
    unfold main_start. rewrite Hci. cbn [mbind option_bind].
    fold (env_of cl w).
    destruct (init_game (env_of cl w) _) as [[[cfg game] rng]|]; reflexivity.
Qed.

(** X15 on [snake -w 10 -h 10] in a terminal of 80 x 24. *)
Lemma accepted_command_line_witness :
  exists cl : Cli,
    parse_arguments atoi_sample ["snake"; "-w"; "10"; "-h"; "10"]%string cli0 = (0, cl) /\
    cl_stdout cl = [] /\
    0 <= cl_override_width cl /\ 0 <= cl_override_height cl /\
    0 < render_fps (cl_config cl) /\ 0 < move_fps (cl_config cl) /\
    exists cfg : Config,
      calculate_intervals (cl_config cl) = Some cfg /\
      render_interval cfg = 1000000 / render_fps (cl_config cl) /\
      move_interval cfg = 1000000 / move_fps (cl_config cl) /\
      0 <= render_interval cfg <= 1000000 /\
      0 <= move_interval cfg <= 1000000 /\
      (move_interval cfg = 0 <-> 1000000 < move_fps (cl_config cl)) /\
      main_begin atoi_sample ["snake"; "-w"; "10"; "-h"; "10"]%string world80
      = (r ← init_game (env_of cl world80) cfg;
         Some (Playing r.1.1 {| cur_game := r.1.2; cur_rng := r.2; last_render := 0;
                                last_move := 0; pending := []; screen := [];
                                moved := [] |})).
Proof.
  eexists. split; [vm_compute; reflexivity |].
  apply (accepted_command_line atoi_sample ["snake"; "-w"; "10"; "-h"; "10"]%string world80).
  vm_compute. reflexivity.
Defined.

(** * The board the game starts on *)

(** X16. init_game has no defined behaviour on a board of fewer than
    three cells: the block it allocates has [width * height] slots, and it
    writes the three segments of the fresh snake without a look at that
    number. *)
Theorem init_game_needs_room (env : Env) (cfg0 : Config) :
  int_mul (board_width (get_terminal_size env cfg0))
          (board_height (get_terminal_size env cfg0)) < 3 ->
  init_game env cfg0 = None.
Proof.
  intros Hsmall. unfold init_game.
  set (cfg := get_terminal_size env cfg0) in *.
  set (n := int_mul (board_width cfg) (board_height cfg)) in *.
  unfold malloc.
  destruct (Z.ltb_spec n 0) as [Hneg | Hpos]; [reflexivity |].
  assert (Hn : Z.to_nat n = 0%nat \/ Z.to_nat n = 1%nat \/ Z.to_nat n = 2%nat) by lia.
  destruct Hn as [-> | [-> | ->]]; reflexivity.
Qed.

(** X16 for [-w 2 -h 1]. *)
Lemma init_game_needs_room_witness : init_game cramped_env config = None.
Proof. apply (init_game_needs_room cramped_env config). vm_compute. reflexivity. Defined.

(** X17. The options [-w] and [-h] do not touch the configuration; they
    set the two overrides, and when both are positive the game main starts
    is played on a board of exactly that size, whatever the terminal
    reports, with the modes the command line asked for. *)
Theorem overrides_fix_board (atoi : string -> Z) (argv : list string) (w : World)
    (cl : Cli) (cfg : Config) (st : Loop) :
  parse_arguments atoi argv cli0 = (0, cl) ->
  0 < cl_override_width cl -> 0 < cl_override_height cl ->
  main_begin atoi argv w = Some (Playing cfg st) ->
  board_width (cl_config cl) = board_width config /\
  board_height (cl_config cl) = board_height config /\
  board_width cfg = cl_override_width cl /\
  board_height cfg = cl_override_height cl /\
  wraparound_mode cfg = wraparound_mode (cl_config cl) /\
  emoji_mode cfg = emoji_mode (cl_config cl) /\
  game_mode cfg = game_mode (cl_config cl).
Proof.
  intros Hparse Hw Hh Hmain.
  pose proof (parse_options_accepted _ _ _ _ _ Hparse)
    as (_ & _ & _ & _ & _ & Hbw & Hbh).
  split; [exact Hbw |]. split; [exact Hbh |].
  unfold main_begin in Hmain. rewrite Hparse in Hmain. cbn [Z.eqb] in Hmain.
  unfold main_start, calculate_intervals in Hmain.
  destruct (int_div _ (render_fps (cl_config cl))) as [ri|];
    cbn [mbind option_bind] in Hmain; [| discriminate].
  destruct (int_div _ (move_fps (cl_config cl))) as [mi|];
    cbn [mbind option_bind] in Hmain; [| discriminate].
  destruct (init_game _ _) as [[[cfg1 game] rng]|] eqn:Hinit;
    cbn [mbind option_bind fst snd] in Hmain; [| discriminate].
  injection Hmain as <- _.
  apply init_game_config in Hinit. rewrite Hinit.
  unfold get_terminal_size; cbn [override_width override_height winsize emoji_mode].
  destruct (w_winsize w) as [[ws_col ws_row]|].
  - destruct (Z.eqb_spec (cl_override_width cl) 0); [lia |].
    destruct (Z.eqb_spec (cl_override_height cl) 0); [lia |].
    repeat split; reflexivity.
  - destruct (Z.ltb_spec 0 (cl_override_width cl)); [| lia].
    destruct (Z.ltb_spec 0 (cl_override_height cl)); [| lia].
    repeat split; reflexivity.
Qed.

(** X17 on [snake -w 10 -h 10] in a terminal of 80 x 24. *)
Lemma overrides_fix_board_witness :
  exists (cl : Cli) (cfg : Config) (st : Loop),
    main_begin atoi_sample ["snake"; "-w"; "10"; "-h"; "10"]%string world80
    = Some (Playing cfg st) /\
    board_width (cl_config cl) = 40 /\ board_height (cl_config cl) = 20 /\
    board_width cfg = 10 /\ board_height cfg = 10.
Proof.
  eexists _, _, _. split; [vm_compute; reflexivity |].
  match goal with
  | |- board_width (cl_config ?cl) = _ /\ _ /\ board_width ?cfg = _ /\ _ =>
      edestruct (overrides_fix_board atoi_sample
                   ["snake"; "-w"; "10"; "-h"; "10"]%string world80 cl cfg)
        as (H1 & H2 & H3 & H4 & _)
  end.
  - vm_compute. reflexivity.
  - reflexivity.
  - reflexivity.
  - vm_compute. reflexivity.
  - split; [exact H1 |]. split; [exact H2 |]. split; [exact H3 | exact H4].
Defined.

(** * The score *)

(** Reading a key leaves the score alone. *)
Lemma handle_input_score (game : Game) (stdin : list ascii) :
  score (handle_input game stdin).1 = score game.
Proof.
  assert (Hturn : forall unless to, score (turn game unless to) = score game).
  { intros unless to. unfold turn. case_decide; reflexivity. }
  unfold handle_input.
  destruct stdin as [|c stdin]; [reflexivity |].
  destruct (Ascii.eqb c ESC).
  - destruct stdin as [|seq1 stdin]; [reflexivity |].
    destruct (Ascii.eqb seq1 "["%char); [| reflexivity].
    destruct stdin as [|seq2 stdin]; [reflexivity |].
    cbn [fst]. unfold arrow_key.
    destruct seq2 as [[] [] [] [] [] [] [] []]; first [reflexivity | apply Hturn].
  - cbn [fst]. unfold plain_key.
    destruct c as [[] [] [] [] [] [] [] []]; first [reflexivity | apply Hturn].
Qed.

(** The game after an iteration of the loop is the game after the key, or
    one move_snake later. *)
Lemma loop_body_game (cfg : Config) (t : Tick) (st st' : Loop) :
  loop_body cfg t st = Some st' ->
  (cur_game st' = (handle_input (cur_game st) (pending st ++ typed t)).1 /\
   moved st' = moved st) \/
  exists rng' : Rand,
    move_snake (handle_input (cur_game st) (pending st ++ typed t)).1 cfg (cur_rng st)
    = Some (cur_game st', rng') /\
    List.length (moved st') = S (List.length (moved st)).
Proof.
  unfold loop_body.
  destruct (handle_input (cur_game st) (pending st ++ typed t)) as [game stdin].
  cbn [fst].
  destruct (due (elapsed_us t) (last_move st) (move_interval cfg) && negb (paused game)).
  - destruct (move_snake game cfg (cur_rng st)) as [[game' rng']|]; [| discriminate].
    cbn [mbind option_bind fst snd].
    destruct (due (elapsed_us t) (last_render st) (render_interval cfg)).
    + destruct (draw_board game' cfg) as [f|]; [| discriminate].
      cbn [mbind option_bind]. intros [= <-]. right. exists rng'. split; reflexivity.
    + cbn [mbind option_bind]. intros [= <-]. right. exists rng'. split; reflexivity.
  - cbn [mbind option_bind].
    destruct (due (elapsed_us t) (last_render st) (render_interval cfg)).
    + destruct (draw_board game cfg) as [f|]; [| discriminate].
      cbn [mbind option_bind]. intros [= <-]. left. split; reflexivity.
    + cbn [mbind option_bind]. intros [= <-]. left. split; reflexivity.
Qed.

(** In regular mode a move keeps score and length, or adds ten points and
    one segment. *)
Lemma regular_move_score (game game' : Game) (cfg : Config) (rng rng' : Rand) :
  game_mode cfg = MODE_REGULAR ->
  move_snake game cfg rng = Some (game', rng') ->
  (score game' = score game /\ length (snake game') = length (snake game)) \/
  (score game' = int_add (score game) POINTS_PER_FOOD /\
   length (snake game') = int_add (length (snake game)) 1).
Proof.
  intros Hmode Hmove.
  destruct (move_snake_inv _ _ _ _ _ Hmove) as [[-> ->] | (nh & b & _ & _ & Hcase)];
    [left; split; reflexivity |].
  cbv zeta in Hcase. rewrite Hmode in Hcase.
  destruct (same_cell nh (food game)).
  - apply generate_food_frame in Hcase. destruct Hcase as (Hs & Hsc & _).
    right. rewrite Hs, Hsc. split; reflexivity.
  - destruct Hcase as [-> _]. left. split; reflexivity.
Qed.

(** X18. In regular mode the score counts the meals: if the score is ten
    times the number of segments beyond three, as it is when the game
    starts, it is so after any number of iterations of the loop, and the
    length has grown by one per iteration at most. *)
Theorem regular_score_counts_meals (cfg : Config) (ticks : list Tick) (st st' : Loop) :
  game_mode cfg = MODE_REGULAR ->
  main_loop cfg ticks st = Some st' ->
  0 <= length (snake (cur_game st)) ->
  length (snake (cur_game st)) + Z.of_nat (List.length ticks) <= 100000000 ->
  score (cur_game st) = 10 * (length (snake (cur_game st)) - 3) ->
  score (cur_game st') = 10 * (length (snake (cur_game st')) - 3) /\
  length (snake (cur_game st)) <= length (snake (cur_game st'))
    <= length (snake (cur_game st)) + Z.of_nat (List.length ticks).
Proof.
  intros Hmode. revert st.
  induction ticks as [|t ticks IH]; intros st Hrun Hpos Hbound Hscore.
  { injection Hrun as <-. split; [exact Hscore | simpl; lia]. }
  simpl main_loop in Hrun. rewrite length_cons in Hbound |- *.
  destruct (game_over (cur_game st)).
  { injection Hrun as <-. split; [exact Hscore | lia]. }
  destruct (loop_body cfg t st) as [st1|] eqn:Hbody; [| discriminate].
  cbn [mbind option_bind] in Hrun.
  assert (Hstep : (score (cur_game st1) = score (cur_game st) /\
                   length (snake (cur_game st1)) = length (snake (cur_game st))) \/
                  (score (cur_game st1) = score (cur_game st) + 10 /\
                   length (snake (cur_game st1)) = length (snake (cur_game st)) + 1)).
  { pose proof (handle_input_score (cur_game st) (pending st ++ typed t)) as Hsc.
    destruct (handle_input_snake (cur_game st) (pending st ++ typed t)) as (_ & Hlen & _).
    destruct (loop_body_game _ _ _ _ Hbody) as [[-> _] | (rng' & Hmove & _)].
    - left. split; assumption.
    - destruct (regular_move_score _ _ _ _ _ Hmode Hmove) as [[H1 H2] | [H1 H2]].
      + left. rewrite H1, H2. split; assumption.
      + right. rewrite H1, H2, Hsc, Hlen.
        unfold int_add, POINTS_PER_FOOD.
        rewrite !int_wrap_id by range_lia. split; reflexivity. }
  destruct (IH st1 Hrun) as [Hinv Hlen]; [lia | lia | lia |].
  split; [exact Hinv | lia].
Qed.

(** X18 on three iterations of the 10 x 10 game that starts with the food
    in front of the snake. *)
Lemma regular_score_counts_meals_witness :
  exists st' : Loop,
    main_loop board10 quiet_ticks (loop_of cruising) = Some st' /\
    score (cur_game st') = 10 * (length (snake (cur_game st')) - 3) /\
    3 <= length (snake (cur_game st')) <= 3 + 3.
Proof.
  eexists. split; [vm_compute; reflexivity |].
  apply (regular_score_counts_meals board10 quiet_ticks (loop_of cruising)).
  - reflexivity.
  - vm_compute. reflexivity.
  - simpl. lia.
  - simpl. lia.
  - reflexivity.
Defined.

(** * The frame and the terminal *)

(** X19. Without [-w] and [-h], on a terminal of [ws_col] columns and
    [ws_row] rows (at least 4 and 6), the frame draw_board prints is made
    to fit: it has [ws_row - 4] rows, which leaves the four lines printed
    around them, and each row has [ws_col - 2] glyphs, or in emoji mode a
    number of glyphs whose double is at most [ws_col]. *)
Theorem frame_fits_terminal (env : Env) (cfg0 : Config) (game : Game)
    (ws_col ws_row : Z) (frame : Frame) :
  winsize env = Some (ws_col, ws_row) ->
  override_width env = 0 -> override_height env = 0 ->
  4 <= ws_col <= INT_MAX -> 6 <= ws_row <= INT_MAX ->
  (Z.to_nat (length (snake game)) <= List.length (body (snake game)))%nat ->
  draw_board game (get_terminal_size env cfg0) = Some frame ->
  Z.of_nat (List.length (rows frame)) = ws_row - 4 /\
  forall row : list Glyph,
    row ∈ rows frame ->
    if emoji_mode cfg0 then 2 * Z.of_nat (List.length row) <= ws_col
    else Z.of_nat (List.length row) = ws_col - 2.
Proof.
  intros Hws How Hoh Hcol Hrow Hblock Hdraw.
  destruct (draw_board_frame game (get_terminal_size env cfg0) Hblock)
    as (rs & Heq & Hrows & Hcols).
  rewrite Heq in Hdraw. injection Hdraw as <-. cbn [rows].
  unfold get_terminal_size in Hrows, Hcols.
  rewrite Hws, How, Hoh in Hrows, Hcols.
  cbn [Z.eqb set_board board_width board_height] in Hrows, Hcols.
  unfold int_sub, TERMINAL_WIDTH_MARGIN, TERMINAL_HEIGHT_MARGIN in Hrows, Hcols.
  rewrite (int_wrap_id (ws_row - 6)) in Hrows by range_lia.
  rewrite (int_wrap_id (ws_col - 4)) in Hcols by range_lia.
  split; [lia |].
  intros row Hin. rewrite Forall_forall in Hcols. specialize (Hcols row Hin).
  destruct (emoji_mode cfg0).
  - unfold int_quot in Hcols.
    rewrite Z.quot_div_nonneg in Hcols by lia.
    pose proof (Z.div_pos (ws_col - 4) 2 ltac:(lia) ltac:(lia)) as Hq0.
    pose proof (Z.mul_div_le (ws_col - 4) 2 ltac:(lia)) as Hq1.
    rewrite int_wrap_id in Hcols by range_lia. lia.
  - lia.
Qed.

(** X19 on a terminal of 80 x 24: 20 rows of 78 glyphs. *)
Lemma frame_fits_terminal_witness :
  exists frame : Frame,
    draw_board cruising
      (get_terminal_size {| override_width := 0; override_height := 0;
                            winsize := Some (80, 24);
                            heap_junk := fun _ => mkPoint 7 7;
                            seeded := fun _ => 2 |} config) = Some frame /\
    Z.of_nat (List.length (rows frame)) = 24 - 4 /\
    forall row : list Glyph,
      row ∈ rows frame -> Z.of_nat (List.length row) = 80 - 2.
Proof.
  eexists. split; [vm_compute; reflexivity |].
  eapply (frame_fits_terminal
            {| override_width := 0; override_height := 0; winsize := Some (80, 24);
               heap_junk := fun _ => mkPoint 7 7; seeded := fun _ => 2 |}
            config cruising 80 24).
  - reflexivity.
  - reflexivity.
  - reflexivity.
  - vm_compute. split; discriminate.
  - vm_compute. split; discriminate.
  - simpl. lia.
  - vm_compute. reflexivity.
Defined.

(** * How long a greedy game can last *)

(** Reading a key keeps the state well formed. *)
Lemma handle_input_well_formed (game : Game) (cfg : Config) (stdin : list ascii) :
  well_formed game cfg -> well_formed (handle_input game stdin).1 cfg.
Proof.
  destruct (handle_input_snake game stdin) as (Hb & Hl & Hm).
  unfold well_formed. rewrite Hb, Hl, Hm. auto.
Qed.

(** In greedy mode a move that does not end the game adds a segment and
    keeps the state well formed. *)
Lemma greedy_move_step (game game' : Game) (cfg : Config) (rng rng' : Rand) :
  game_mode cfg = MODE_GREEDY ->
  well_formed game cfg ->
  move_snake game cfg rng = Some (game', rng') ->
  game_over game' = false ->
  well_formed game' cfg /\ length (snake game') = length (snake game) + 1.
Proof.
  intros Hmode Hwf Hmove Hgo.
  destruct (well_formed_head game cfg Hwf) as [nh Hnh].
  destruct (surviving_head _ _ _ _ _ _ Hwf Hnh Hmove Hgo) as [_ Hadv].
  rewrite Hadv in Hmove.
  destruct (hit_or_clear game cfg nh Hwf) as [Hhit | Hclear].
  { rewrite (advance_hit game cfg rng nh Hhit) in Hmove.
    injection Hmove as <- <-. discriminate Hgo. }
  pose proof Hwf as (Hw & Hh & Hfit & Hmax & Hblock & HL).
  destruct (Z_le_gt_dec (max_length (snake game)) (length (snake game))) as [Hcap | Hroom].
  { rewrite (advance_greedy_full game cfg rng nh Hmode Hwf Hcap) in Hmove.
    injection Hmove as <- <-. discriminate Hgo. }
  rewrite (advance_greedy game cfg rng nh Hmode Hwf Hclear) in Hmove by lia.
  cbv zeta in Hmove.
  assert (Hs : snake game' = {| body := grown_body game nh;
                                length := length (snake game) + 1;
                                max_length := max_length (snake game);
                                direction := direction (snake game) |}).
  { destruct (same_cell nh (food game)).
    - destruct (generate_food_frame _ _ _ _ _ Hmove) as (Hs & _). exact Hs.
    - injection Hmove as <- <-. reflexivity. }
  split; [| rewrite Hs; reflexivity].
  unfold well_formed. rewrite Hs; cbn [snake body length max_length].
  unfold grown_body.
  rewrite length_cons, length_app, length_take, length_drop.
  repeat split; try assumption; lia.
Qed.

(** X20. A greedy game is short: from a well-formed state the loop makes
    at most [max_length - length + 1] moves, whatever keys are typed and
    however many iterations it is given; from the fresh snake of three
    segments that is [width * height - 2] moves. *)
Theorem greedy_game_is_short (cfg : Config) (ticks : list Tick) (st st' : Loop) :
  game_mode cfg = MODE_GREEDY ->
  well_formed (cur_game st) cfg ->
  main_loop cfg ticks st = Some st' ->
  Z.of_nat (List.length (moved st'))
  <= Z.of_nat (List.length (moved st))
     + (max_length (snake (cur_game st)) - length (snake (cur_game st))) + 1.
Proof.
  intros Hmode. revert st.
  induction ticks as [|t ticks IH]; intros st Hwf Hrun.
  { injection Hrun as <-. destruct Hwf as (_ & _ & _ & _ & _ & HL). lia. }
  simpl main_loop in Hrun.
  destruct (game_over (cur_game st)).
  { injection Hrun as <-. destruct Hwf as (_ & _ & _ & _ & _ & HL). lia. }
  destruct (loop_body cfg t st) as [st1|] eqn:Hbody; [| discriminate].
  cbn [mbind option_bind] in Hrun.
  pose proof (handle_input_well_formed _ cfg (pending st ++ typed t) Hwf) as Hwf0.
  destruct (handle_input_snake (cur_game st) (pending st ++ typed t)) as (_ & Hlen & Hmax).
  destruct (loop_body_game _ _ _ _ Hbody) as [[Hg Htr] | (rng' & Hmove & Htr)].
  - rewrite <- Hg in Hwf0, Hlen, Hmax.
    specialize (IH st1 Hwf0 Hrun). rewrite Htr, Hlen, Hmax in IH. exact IH.
  - destruct (game_over (cur_game st1)) eqn:Hover.
    + assert (Hend : main_loop cfg ticks st1 = Some st1).
      { destruct ticks; simpl; [reflexivity |]. rewrite Hover. reflexivity. }
      rewrite Hend in Hrun. injection Hrun as <-.
      destruct Hwf as (_ & _ & _ & _ & _ & HL). lia.
    + destruct (greedy_move_step _ _ _ _ _ Hmode Hwf0 Hmove Hover) as [Hwf1 Hgrow].
      specialize (IH st1 Hwf1 Hrun).
      destruct Hwf0 as (_ & _ & _ & Hcap0 & _), Hwf1 as (_ & _ & _ & Hcap1 & _).
      rewrite Htr, Hgrow, Hcap1, <- Hcap0, Hlen, Hmax in IH. lia.
Qed.

(** X20 on the fresh 10 x 10 snake in greedy mode, three iterations. *)
Lemma greedy_game_is_short_witness :
  exists st' : Loop,
    main_loop greedy10 quiet_ticks (loop_of cruising) = Some st' /\
    Z.of_nat (List.length (moved st')) <= 0 + (100 - 3) + 1.
Proof.
  eexists. split; [vm_compute; reflexivity |].
  apply (greedy_game_is_short greedy10 quiet_ticks (loop_of cruising)).
  - reflexivity.
  - unfold well_formed; simpl. unfold INT_MAX. lia.
  - vm_compute. reflexivity.
Defined.

(** * The game never leaves its block *)

Lemma safe_state_drawable (cfg : Config) (game : Game) :
  safe_state cfg game -> drawable game.
Proof.
  intros [(Hw & Hh & Hfit & Hmax & Hblock & HL) _]. unfold drawable. lia.
Qed.

(** Reading a key keeps a safe state safe. *)
Lemma handle_input_safe (cfg : Config) (game : Game) (stdin : list ascii) :
  safe_state cfg game -> safe_state cfg (handle_input game stdin).1.
Proof.
  intros [Hwf Hroom].
  destruct (handle_input_snake game stdin) as (Hb & Hl & Hm).
  split; [apply handle_input_well_formed, Hwf |].
  rewrite Hl, Hm. exact Hroom.
Qed.

(** generate_food, called on a state whose scan stays inside the block,
    returns a state with the same snake; when it leaves [game_over] clear
    the length is below [width * height]. *)
Lemma generate_food_room (game game' : Game) (cfg : Config) (rng rng' : Rand) :
  0 < board_width cfg -> 0 < board_height cfg ->
  board_width cfg * board_height cfg <= INT_MAX ->
  generate_food game cfg rng = Some (game', rng') ->
  game_over game' = false ->
  length (snake game) < board_width cfg * board_height cfg.
Proof.
  intros Hw Hh Hfit Hgen Hgo.
  unfold generate_food in Hgen.
  assert (Htot : int_mul (board_width cfg) (board_height cfg)
                 = board_width cfg * board_height cfg).
  { unfold int_mul. apply int_wrap_id. unfold int_range, INT_MIN, INT_MAX in *. nia. }
  rewrite Htot in Hgen.
  destruct (Z.leb_spec (board_width cfg * board_height cfg) (length (snake game)));
    [| assumption].
  injection Hgen as <- <-. discriminate Hgo.
Qed.

(** From a safe state move_snake returns, with a state that can be drawn
    and that is safe again unless the game is over. *)
Lemma move_snake_safe (game : Game) (cfg : Config) (rng : Rand) :
  safe_state cfg game ->
  exists (game' : Game) (rng' : Rand),
    move_snake game cfg rng = Some (game', rng') /\
    drawable game' /\
    (game_over game' = false -> safe_state cfg game').
Proof.
  intros [Hwf Hslot].
  pose proof (safe_state_drawable cfg game (conj Hwf Hslot)) as Hdraw.
  assert (Hend : forall r : option (Game * Rand),
             r = Some (set_game_over game true, rng) ->
             exists (game' : Game) (rng' : Rand),
               r = Some (game', rng') /\ drawable game' /\
               (game_over game' = false -> safe_state cfg game')).
  { intros r ->. exists (set_game_over game true), rng.
    split; [reflexivity |]. split; [exact Hdraw | discriminate]. }
  destruct (well_formed_head game cfg Hwf) as [nh Hnh].
  destruct (move_snake_cases game cfg rng nh Hnh) as [Hwall | Hadv];
    [apply Hend, Hwall |].
  rewrite Hadv.
  destruct (hit_or_clear game cfg nh Hwf) as [Hhit | Hclear];
    [apply Hend, advance_hit, Hhit |].
  pose proof Hwf as (Hw & Hh & Hfit & Hmax & Hblock & HL).
  assert (Hfed : forall fed : Game,
             1 <= length (snake fed) <= INT_MAX ->
             length (snake fed) <= max_length (snake game) ->
             max_length (snake fed) = max_length (snake game) ->
             List.length (body (snake fed)) = List.length (body (snake game)) ->
             exists (game' : Game) (rng' : Rand),
               generate_food fed cfg rng = Some (game', rng') /\ drawable game' /\
               (game_over game' = false -> safe_state cfg game')).
  { intros fed Hrange Hlen Hcap Hsize.
    destruct (generate_food_returns fed cfg rng) as (game' & rng' & Heq & Hs & _);
      [exact Hw | exact Hh | lia | intros _; lia |].
    exists game', rng'. split; [exact Heq |].
    split; [unfold drawable; rewrite Hs; lia |].
    intros Hgo.
    pose proof (generate_food_room _ _ _ _ _ Hw Hh ltac:(lia) Heq Hgo) as Hroom.
    split.
    - unfold well_formed. rewrite Hs, Hcap, Hsize. repeat split; try assumption; lia.
    - intros _. rewrite Hs, Hcap. lia. }
  destruct (game_mode cfg) eqn:Hmode.
  - specialize (Hslot eq_refl).
    rewrite (advance_regular game cfg rng nh Hmode Hwf Hclear).
    destruct (same_cell nh (food game)).
    + apply Hfed; cbn [snake length max_length body].
      * range_lia.
      * lia.
      * reflexivity.
      * apply Nat2Z.inj. rewrite moved_body_length by lia. lia.
    + eexists _, rng. split; [reflexivity |].
      assert (Hsize : Z.of_nat (List.length (moved_body game nh))
                      = max_length (snake game))
        by (rewrite moved_body_length by lia; lia).
      split; [unfold drawable; cbn [set_snake set_body snake body length]; lia |].
      intros _. split.
      * unfold well_formed; cbn [set_snake set_body snake body length max_length].
        repeat split; try assumption; lia.
      * intros _. cbn [set_snake set_body snake length max_length]. exact Hslot.
  - destruct (Z_le_gt_dec (max_length (snake game)) (length (snake game))) as [Hcap | Hroom];
      [apply Hend, advance_greedy_full; assumption |].
    rewrite (advance_greedy game cfg rng nh Hmode Hwf Hclear) by lia.
    cbv zeta.
    assert (Hsize : List.length (grown_body game nh) = List.length (body (snake game))).
    { unfold grown_body.
      rewrite length_cons, length_app, length_take, length_drop. lia. }
    destruct (same_cell nh (food game)).
    + apply Hfed; cbn [set_score snake length max_length body].
      * range_lia.
      * lia.
      * reflexivity.
      * exact Hsize.
    + eexists _, rng. split; [reflexivity |].
      split; [unfold drawable; cbn [snake body length]; lia |].
      intros _. split.
      * unfold well_formed; cbn [snake body length max_length].
        repeat split; try assumption; lia.
      * intros Hreg. congruence.
Qed.

(** From a safe state an iteration of the loop returns, with a state
    that is safe again unless the game is over. *)
Lemma loop_body_safe (cfg : Config) (t : Tick) (st : Loop) :
  safe_state cfg (cur_game st) ->
  exists st' : Loop,
    loop_body cfg t st = Some st' /\
    (game_over (cur_game st') = false -> safe_state cfg (cur_game st')).
Proof.
  intros Hsafe.
  pose proof (handle_input_safe cfg _ (pending st ++ typed t) Hsafe) as Hkey.
  unfold loop_body.
  destruct (handle_input (cur_game st) (pending st ++ typed t)) as [game stdin].
  cbn [fst] in Hkey.
  destruct (due (elapsed_us t) (last_move st) (move_interval cfg) && negb (paused game)).
  - destruct (move_snake_safe game cfg (cur_rng st) Hkey)
      as (game' & rng' & Hmove & Hdraw & Hnext).
    rewrite Hmove. cbn [mbind option_bind fst snd].
    destruct (due (elapsed_us t) (last_render st) (render_interval cfg)).
    + destruct (draw_board_frame game' cfg Hdraw) as (rs & Hframe & _).
      rewrite Hframe. cbn [mbind option_bind].
      eexists. split; [reflexivity | exact Hnext].
    + cbn [mbind option_bind]. eexists. split; [reflexivity | exact Hnext].
  - cbn [mbind option_bind].
    destruct (due (elapsed_us t) (last_render st) (render_interval cfg)).
    + destruct (draw_board_frame game cfg (safe_state_drawable _ _ Hkey))
        as (rs & Hframe & _).
      rewrite Hframe. cbn [mbind option_bind].
      eexists. split; [reflexivity | intros _; exact Hkey].
    + cbn [mbind option_bind]. eexists. split; [reflexivity | intros _; exact Hkey].
Qed.

(** X12. The game never leaves the block of its body.  On a board of at
    least four columns whose cells an [int] can count, init_game makes a
    well-formed state with a slot of the block to spare; and from such a
    state the loop has a defined result for every number of iterations,
    whatever keys are typed and whatever the clock says: no read or write
    of [body] by move_snake, generate_food or draw_board falls outside
    the block, no division is by zero, and the state the loop returns is
    such a state again or has [game_over] set. *)
Theorem game_stays_in_block (cfg : Config) :
  (forall (env : Env) (cfg0 : Config) (game : Game) (rng : Rand),
      init_game env cfg0 = Some (cfg, game, rng) ->
      4 <= board_width cfg -> 1 <= board_height cfg ->
      board_width cfg * board_height cfg < INT_MAX ->
      safe_state cfg game) /\
  (forall (ticks : list Tick) (st : Loop),
      safe_state cfg (cur_game st) ->
      exists st' : Loop,
        main_loop cfg ticks st = Some st' /\
        (game_over (cur_game st') = true \/ safe_state cfg (cur_game st'))).
Proof.
  split.
  - intros env cfg0 game rng Hinit Hw Hh Hfit.
    pose proof (init_game_config _ _ _ _ _ Hinit) as Hcfg.
    rewrite Hcfg in Hw, Hh, Hfit.
    split.
    + apply (init_game_well_formed env cfg0 cfg game rng); assumption.
    + intros _.
      destruct (init_game_spec env cfg0 Hw Hh) as (rest & fd & rng0 & Heq & _); [lia |].
      cbv zeta in Heq. rewrite Heq in Hinit. injection Hinit as _ <- _.
      cbn [snake length max_length]. nia.
  - intros ticks. induction ticks as [|t ticks IH]; intros st Hsafe.
    { exists st. split; [reflexivity | right; exact Hsafe]. }
    simpl main_loop.
    destruct (game_over (cur_game st)) eqn:Hover.
    { exists st. split; [reflexivity | left; exact Hover]. }
    destruct (loop_body_safe cfg t st Hsafe) as (st1 & Hbody & Hnext).
    rewrite Hbody. cbn [mbind option_bind].
    destruct (game_over (cur_game st1)) eqn:Hover1.
    + exists st1. split; [| left; exact Hover1].
      destruct ticks; simpl; [reflexivity |]. rewrite Hover1. reflexivity.
    + apply IH, Hnext. reflexivity.
Qed.

(** X12 on the game started with [-w 10 -h 10] and three iterations. *)
Lemma game_stays_in_block_witness :
  exists (game : Game) (rng : Rand),
    init_game env10 config = Some (board10, game, rng) /\
    safe_state board10 game /\
    exists st' : Loop,
      main_loop board10 quiet_ticks (loop_of game) = Some st' /\
      (game_over (cur_game st') = true \/ safe_state board10 (cur_game st')).
Proof.
  destruct (game_stays_in_block board10) as [Hinit Hloop].
  eexists _, _.
  split; [vm_compute; reflexivity |].
  match goal with
  | |- safe_state board10 ?g /\ _ =>
      assert (Hsafe : safe_state board10 g)
  end.
  { eapply (Hinit env10 config).
    - vm_compute. reflexivity.
    - vm_compute. discriminate.
    - vm_compute. discriminate.
    - vm_compute. reflexivity. }
  split; [exact Hsafe |].
  apply Hloop. exact Hsafe.
Defined.
